(** * cv-context-manager: the secrets vault, embedded and verified

    This development embeds the core of the context manager:

    - [src/utils/encryption.ts]  — [EncryptionService] (encrypt, decrypt,
      hash, verify, encryptObject, decryptObject);
    - [src/database/client.ts]   — [DatabaseClient] (row store and cache);
    - [src/services/SecretContextService.ts] — [SecretContextService]
      (storeCredential, getCredential, storeSSHKey, getSSHKey, listSecrets,
      deleteSecret and their private helpers).

    Modelling conventions.

    - JavaScript values that travel through the vault are JSON values
      ([json]).  An object is the list of its own enumerable properties in
      enumeration order; [undefined] is the absence of a property
      ([None]).  Properties inherited from [Object.prototype] and the
      exotic properties of arrays and strings (indices, [length]) are not
      part of the model.
    - Strings are byte strings: a JavaScript string is represented by its
      UTF-8 encoding, so the ['utf8'] conversions of the cipher are the
      identity between [string] and [list byte].
    - Everything the code obtains from the Node runtime (AES-256-GCM,
      scrypt, SHA-256, [JSON], [Date], random bytes, UUIDs, the clock) is a
      field of [Platform]; the properties of the runtime that a theorem
      relies on are stated as explicit hypotheses.
    - Asynchronous methods are run to completion one after the other, as
      the code awaits every step; they are computations in the monad [M]
      that threads the [World] (clock and entropy position, row store,
      cache, call trace) and may throw an [exn]. *)

From Stdlib Require Import ZArith NArith Bool Lia.
From Stdlib Require Import Strings.String Strings.Ascii Strings.Byte.
From stdpp Require Import base option list gmap strings.

Local Open Scope string_scope.
Local Open Scope Z_scope.
Local Open Scope list_scope.
Set Warnings "-register-all".

(* ===================================================================== *)
(** * JSON values and objects                                             *)
(* ===================================================================== *)

Inductive json : Type :=
| JNull
| JBool (b : bool)
| JNum (n : Z)
| JStr (s : string)
| JArr (items : list json)
| JObj (fields : list (string * json)).

(** The own properties of an object, in enumeration order. *)
Abbreviation obj := (list (string * json)).

(** [o[k]] on an object: the first (and, for objects built by the
    operations below, only) property named [k]. *)
Fixpoint obj_get (o : obj) (k : string) : option json :=
  match o with
  | [] => None
  | (k', v) :: rest => if String.eqb k k' then Some v else obj_get rest k
  end.

(** [o[k] = v]: an existing property keeps its position, a new one is
    appended. *)
Fixpoint obj_set (o : obj) (k : string) (v : json) : obj :=
  match o with
  | [] => [(k, v)]
  | (k', v') :: rest =>
      if String.eqb k k' then (k', v) :: rest else (k', v') :: obj_set rest k v
  end.

(** [delete o[k]]. *)
Fixpoint obj_delete (o : obj) (k : string) : obj :=
  match o with
  | [] => []
  | (k', v') :: rest =>
      if String.eqb k k' then obj_delete rest k else (k', v') :: obj_delete rest k
  end.

(** [k in o]. *)
Definition obj_has (o : obj) (k : string) : bool :=
  match obj_get o k with Some _ => true | None => false end.

(** JavaScript truthiness. *)
Definition truthy (v : json) : bool :=
  match v with
  | JNull => false
  | JBool b => b
  | JNum n => negb (n =? 0)
  | JStr s => negb (String.eqb s EmptyString)
  | JArr _ | JObj _ => true
  end.

Definition truthy_opt (v : option json) : bool :=
  match v with Some x => truthy x | None => false end.

(** [v !== undefined && v !== null]. *)
Definition defined_and_not_null (v : option json) : bool :=
  match v with
  | None | Some JNull => false
  | Some _ => true
  end.

(** [undefined] and [null] coincide once a value is stored in a variable
    that the code only ever tests for truthiness. *)
Definition or_null (v : option json) : json :=
  match v with Some x => x | None => JNull end.

(* ===================================================================== *)
(** * Exceptions                                                          *)
(* ===================================================================== *)

Record exn : Type := Exn { exn_name : string; exn_message : string }.

(** [`${error}`], i.e. [Error.prototype.toString]. *)
Definition exn_to_string (e : exn) : string :=
  if String.eqb (exn_message e) EmptyString then exn_name e
  else exn_name e +:+ ": " +:+ exn_message e.

Definition TypeError (msg : string) : exn := Exn "TypeError" msg.
Definition SyntaxError (msg : string) : exn := Exn "SyntaxError" msg.
Definition DatabaseError (msg : string) : exn := Exn "DatabaseError" msg.

(** [throw new Error('Encrypted data has expired')]. *)
Definition ExpiredError : exn := Exn "Error" "Encrypted data has expired".

(** What [decipher.final] (or any earlier step of the decipher) throws when
    the ciphertext is not authenticated by the tag. *)
Definition IntegrityError : exn :=
  Exn "Error" "Unsupported state or unable to authenticate data".

(** Property access [v.k] on an arbitrary value: it throws on [null], reads
    the own property of an object and yields [undefined] elsewhere. *)
Definition get_prop (v : json) (k : string) : exn + option json :=
  match v with
  | JNull => inl (TypeError ("Cannot read properties of null (reading '" +:+ k +:+ "')"))
  | JObj o => inr (obj_get o k)
  | _ => inr None
  end.

(* ===================================================================== *)
(** * Hexadecimal encoding of buffers                                     *)
(* ===================================================================== *)

Definition hex_digit (n : N) : ascii :=
  match n with
  | 0%N => "0" | 1%N => "1" | 2%N => "2" | 3%N => "3"
  | 4%N => "4" | 5%N => "5" | 6%N => "6" | 7%N => "7"
  | 8%N => "8" | 9%N => "9" | 10%N => "a" | 11%N => "b"
  | 12%N => "c" | 13%N => "d" | 14%N => "e" | _ => "f"
  end%char.

Definition hex_value (c : ascii) : option N :=
  let n := N_of_ascii c in
  if ((48 <=? n) && (n <=? 57))%N then Some (n - 48)%N
  else if ((97 <=? n) && (n <=? 102))%N then Some (n - 87)%N
  else if ((65 <=? n) && (n <=? 70))%N then Some (n - 55)%N
  else None.

(** [buf.toString('hex')]: two lowercase digits per byte. *)
Fixpoint hex_encode (bs : list byte) : string :=
  match bs with
  | [] => EmptyString
  | b :: rest =>
      String (hex_digit (Byte.to_N b / 16))
        (String (hex_digit (Byte.to_N b mod 16)) (hex_encode rest))
  end.

(** [Buffer.from(s, 'hex')]: pairs of digits of either case; decoding
    stops at the first pair that is not hexadecimal, and a trailing single
    character is dropped. *)
Fixpoint hex_decode (s : string) : list byte :=
  match s with
  | String c1 (String c2 rest) =>
      match hex_value c1, hex_value c2 with
      | Some h, Some l =>
          match Byte.of_N (16 * h + l) with
          | Some b => b :: hex_decode rest
          | None => []
          end
      | _, _ => []
      end
  | _ => []
  end.

(** [Buffer.from(v, 'hex')] where [v] is read from a JSON document: the
    fields of an [EncryptedValue] are strings, anything else is rejected. *)
Definition Buffer_from_hex (v : option json) : exn + list byte :=
  match v with
  | Some (JStr s) => inr (hex_decode s)
  | _ => inl (TypeError "The first argument must be of type string")
  end.

(* ===================================================================== *)
(** * The Node runtime                                                    *)
(* ===================================================================== *)

Record Platform : Type := {
  (** key material produced by [crypto.scryptSync] *)
  Key : Type;
  scryptSync : string -> string -> nat -> Key;
  (** [createCipheriv(alg, key, iv)] followed by [update], [final] and
      [getAuthTag]: ciphertext and authentication tag *)
  cipher : string -> Key -> list byte -> list byte -> list byte * list byte;
  (** [createDecipheriv(alg, key, iv)], [setAuthTag] when a tag is given,
      [update] and [final]; [None] when any of these throws *)
  decipher : string -> Key -> list byte -> option (list byte) -> list byte
             -> option (list byte);
  (** [createHash('sha256').update(data).digest('hex')] *)
  sha256 : string -> string;
  JSON_stringify : json -> string;
  (** [None] when [JSON.parse] throws a [SyntaxError] *)
  JSON_parse : string -> option json;
  (** the abstract operation [ToString] *)
  ToString : json -> string;
  (** [new Date(ms).toISOString()] *)
  toISOString : Z -> string;
  (** the time value of [new Date(v)], [None] for an invalid date *)
  new_Date : json -> option Z;
  (** the n-th call of [crypto.randomBytes], [crypto.randomUUID] and
      [new Date()] *)
  randomBytes : nat -> nat -> list byte;
  randomUUID : nat -> string;
  Date_now : nat -> Z
}.

(* ===================================================================== *)
(** * The world and the monad of the asynchronous methods                 *)
(* ===================================================================== *)

(** Calls made to the collaborators, in the order in which they are
    issued. *)
Inductive event : Type :=
| EvCacheGet (key : string)
| EvCacheSet (key : string)
| EvCacheDelete (key : string)
| EvDbSelect (table : string)
| EvDbInsert (table : string) (row : obj)
| EvDbUpdate (table : string) (id : string) (data : obj).

(** The Redis server behind [ioredis]: its contents, and the error with
    which it currently rejects every command, if any. *)
Record Redis : Type := {
  redis_data : gmap string string;
  redis_error : option string
}.

Record World : Type := {
  (** how many values have been drawn from the clock and the entropy
      source of the runtime *)
  w_calls : nat;
  (** the row store: table name to rows (documents) *)
  w_tables : gmap string (list obj);
  (** tables on which the row store currently rejects every request, with
      the error message it reports *)
  w_db_error : gmap string string;
  (** [DatabaseClient.useInMemoryCache], [inMemoryCache] and [redis] *)
  w_useInMemoryCache : bool;
  w_inMemoryCache : gmap string string;
  w_redis : option Redis;
  (** the calls issued so far *)
  w_trace : list event
}.

Definition set_calls (n : nat) (w : World) : World :=
  {| w_calls := n; w_tables := w_tables w; w_db_error := w_db_error w;
     w_useInMemoryCache := w_useInMemoryCache w;
     w_inMemoryCache := w_inMemoryCache w; w_redis := w_redis w;
     w_trace := w_trace w |}.

Definition set_tables (t : gmap string (list obj)) (w : World) : World :=
  {| w_calls := w_calls w; w_tables := t; w_db_error := w_db_error w;
     w_useInMemoryCache := w_useInMemoryCache w;
     w_inMemoryCache := w_inMemoryCache w; w_redis := w_redis w;
     w_trace := w_trace w |}.

Definition set_inMemoryCache (c : gmap string string) (w : World) : World :=
  {| w_calls := w_calls w; w_tables := w_tables w; w_db_error := w_db_error w;
     w_useInMemoryCache := w_useInMemoryCache w;
     w_inMemoryCache := c; w_redis := w_redis w;
     w_trace := w_trace w |}.

Definition set_redis (r : option Redis) (w : World) : World :=
  {| w_calls := w_calls w; w_tables := w_tables w; w_db_error := w_db_error w;
     w_useInMemoryCache := w_useInMemoryCache w;
     w_inMemoryCache := w_inMemoryCache w; w_redis := r;
     w_trace := w_trace w |}.

Definition set_trace (t : list event) (w : World) : World :=
  {| w_calls := w_calls w; w_tables := w_tables w; w_db_error := w_db_error w;
     w_useInMemoryCache := w_useInMemoryCache w;
     w_inMemoryCache := w_inMemoryCache w; w_redis := w_redis w;
     w_trace := t |}.

(** The rows of a table. *)
Definition table (w : World) (t : string) : list obj :=
  default [] (w_tables w !! t).

(** A computation runs in a world and either throws or returns. *)
Definition M (A : Type) : Type := World -> (exn + A) * World.

Definition ret {A} (a : A) : M A := fun w => (inr a, w).

Definition throw {A} (e : exn) : M A := fun w => (inl e, w).

Definition bind {A B} (m : M A) (k : A -> M B) : M B :=
  fun w =>
    match m w with
    | (inr a, w') => k a w'
    | (inl e, w') => (inl e, w')
    end.

(** [try { m } catch (e) { h e }]: what [m] did to the world before it
    threw stays done. *)
Definition try_catch {A} (m : M A) (h : exn -> M A) : M A :=
  fun w =>
    match m w with
    | (inr a, w') => (inr a, w')
    | (inl e, w') => h e w'
    end.

Definition lift {A} (r : exn + A) : M A :=
  match r with inl e => throw e | inr a => ret a end.

Declare Scope M_scope.
Delimit Scope M_scope with M.
Notation "x <- m ;; k" := (bind m (fun x => k))
  (at level 100, m at next level, right associativity) : M_scope.
Notation "m ;; k" := (bind m (fun _ => k))
  (at level 100, right associativity) : M_scope.
Local Open Scope M_scope.

Definition log (e : event) : M unit :=
  fun w => (inr tt, set_trace (w_trace w ++ [e]) w).

Section Vault.

Context (P : Platform).

(** [new Date()], [crypto.randomBytes(n)] and [crypto.randomUUID()] each
    consume the next value of the runtime. *)
Definition draw : M nat :=
  fun w => (inr (w_calls w), set_calls (S (w_calls w)) w).

Definition Date_new : M Z := i <- draw;; ret (Date_now P i).

Definition crypto_randomBytes (n : nat) : M (list byte) :=
  i <- draw;; ret (randomBytes P i n).

Definition crypto_randomUUID : M string := i <- draw;; ret (randomUUID P i).

(* ===================================================================== *)
(** * [DatabaseClient]                                                    *)
(* ===================================================================== *)

(** Every request to the row store fails with a [DatabaseError] naming the
    operation while the store rejects requests on the table. *)
Definition supabase (op table : string) : M unit :=
  fun w =>
    match w_db_error w !! table with
    | Some msg => (inl (DatabaseError (op +:+ " failed: " +:+ msg)), w)
    | None => (inr tt, w)
    end.

(** [.eq(column, value)]. *)
Definition eq_filter (column value : string) (row : obj) : bool :=
  match obj_get row column with
  | Some (JStr s) => String.eqb s value
  | _ => false
  end.

(** The columns of [data] overwrite those of the row. *)
Definition merge_row (row data : obj) : obj :=
  fold_left (fun acc kv => obj_set acc (fst kv) (snd kv)) data row.

Definition insert (tbl : string) (data : obj) : M obj :=
  log (EvDbInsert tbl data);;
  supabase "Insert" tbl;;
  fun w =>
    (inr data, set_tables (<[tbl := (table w tbl ++ [data])%list]> (w_tables w)) w).

(** [.update(data).eq('id', id).select().single()]: the request succeeds
    when exactly one row is affected and is rolled back otherwise. *)
Definition update (tbl : string) (id : string) (data : obj) : M obj :=
  log (EvDbUpdate tbl id data);;
  supabase "Update" tbl;;
  fun w =>
    match List.filter (eq_filter "id" id) (table w tbl) with
    | [row] =>
        let rows :=
          List.map (fun r => if eq_filter "id" id r then merge_row r data else r)
                   (table w tbl) in
        (inr (merge_row row data), set_tables (<[tbl := rows]> (w_tables w)) w)
    | _ =>
        (inl (DatabaseError
                "Update failed: JSON object requested, multiple (or no) rows returned"),
         w)
    end.

(** [.select('*').eq('id', id).single()]; the error code of "not exactly
    one row" is the one the method turns into [null]. *)
Definition findById (tbl : string) (id : string) : M (option obj) :=
  log (EvDbSelect tbl);;
  supabase "FindById" tbl;;
  fun w =>
    match List.filter (eq_filter "id" id) (table w tbl) with
    | [row] => (inr (Some row), w)
    | _ => (inr None, w)
    end.

Definition findByUserAndWorkspace (tbl userId workspaceId : string)
  : M (list obj) :=
  log (EvDbSelect tbl);;
  supabase "FindByUserAndWorkspace" tbl;;
  fun w =>
    (inr (List.filter
            (fun r => eq_filter "user_id" userId r
                      && eq_filter "workspace_id" workspaceId r)
            (table w tbl)),
     w).

(** A command sent to Redis: rejected while the server is in error. *)
Definition redis_command {A} (r : Redis)
    (run : gmap string string -> A * gmap string string) : M A :=
  fun w =>
    match redis_error r with
    | Some msg => (inl (Exn "Error" msg), w)
    | None =>
        let '(a, d) := run (redis_data r) in
        (inr a, set_redis (Some {| redis_data := d; redis_error := None |}) w)
    end.

Definition JSON_parse_or_throw (s : string) : M json :=
  match JSON_parse P s with
  | Some v => ret v
  | None => throw (SyntaxError "Unexpected token in JSON")
  end.

(** [cacheGet]: [null] is [JNull]. *)
Definition cacheGet (key : string) : M json :=
  log (EvCacheGet key);;
  try_catch
    (fun w =>
       if w_useInMemoryCache w then
         match w_inMemoryCache w !! key with
         | Some cached =>
             if String.eqb cached EmptyString then ret JNull w
             else JSON_parse_or_throw cached w
         | None => ret JNull w
         end
       else
         match w_redis w with
         | Some r =>
             (cached <- redis_command r (fun d => (d !! key, d));;
              match cached with
              | Some s =>
                  if String.eqb s EmptyString then ret JNull else JSON_parse_or_throw s
              | None => ret JNull
              end) w
         | None => ret JNull w
         end)
    (fun _ => ret JNull).

(** [cacheSet]; the expiry of the entry after [ttl] seconds is a matter of
    real time and is not modelled. *)
Definition cacheSet (key : string) (value : json) (ttl : option nat) : M unit :=
  log (EvCacheSet key);;
  try_catch
    (let serialized := JSON_stringify P value in
     fun w =>
       if w_useInMemoryCache w then
         (inr tt, set_inMemoryCache (<[key := serialized]> (w_inMemoryCache w)) w)
       else
         match w_redis w with
         | Some r => redis_command r (fun d => (tt, <[key := serialized]> d)) w
         | None => (inr tt, w)
         end)
    (fun _ => ret tt).

Definition cacheDelete (key : string) : M unit :=
  log (EvCacheDelete key);;
  try_catch
    (fun w =>
       if w_useInMemoryCache w then
         (inr tt, set_inMemoryCache (delete key (w_inMemoryCache w)) w)
       else
         match w_redis w with
         | Some r => redis_command r (fun d => (tt, delete key d)) w
         | None => (inr tt, w)
         end)
    (fun _ => ret tt).

(** [`${prefix}${type}:${identifiers.join(':')}`]. *)
Definition generateCacheKey (type : string) (identifiers : list string) : string :=
  "cv:context:" +:+ type +:+ ":" +:+ String.concat ":" identifiers.

(* ===================================================================== *)
(** * [EncryptionService]                                                 *)
(* ===================================================================== *)

Record EncryptionService : Type := {
  key : Key P;
  keyVersion : string
}.

Definition algorithm : string := "aes-256-gcm".

Definition new_EncryptionService (encryptionKey keyVersion : string)
  : EncryptionService :=
  {| key := scryptSync P encryptionKey "controlvector-salt" 32;
     keyVersion := keyVersion |}.

Section Engine.

Context (this : EncryptionService).

Definition encrypt (plaintext : string) (expiresAt : option Z) : M obj :=
  iv <- crypto_randomBytes 12;;
  let '(encrypted, authTag) :=
    cipher P algorithm (key this) iv (list_byte_of_string plaintext) in
  created <- Date_new;;
  let result :=
    [ ("encrypted_data", JStr (hex_encode encrypted));
      ("algorithm", JStr algorithm);
      ("iv", JStr (hex_encode iv));
      ("created_at", JStr (toISOString P created));
      ("auth_tag", JStr (hex_encode authTag));
      ("key_version", JStr (keyVersion this)) ] in
  ret (match expiresAt with
       | Some t => obj_set result "expires_at" (JStr (toISOString P t))
       | None => result
       end).

(** [encryptedValue.expires_at && new Date(encryptedValue.expires_at) < new Date()];
    the clock is read only when the field is truthy, and an invalid date
    compares false. *)
Definition is_expired (expires_at : option json) : M bool :=
  if truthy_opt expires_at then
    now <- Date_new;;
    ret (match new_Date P (or_null expires_at) with
         | Some t => t <? now
         | None => false
         end)
  else ret false.

Definition string_field (v : option json) : M string :=
  match v with
  | Some (JStr s) => ret s
  | _ => throw (TypeError "The argument must be of type string")
  end.

(** The cryptographic part of [decrypt], from [Buffer.from(iv)] to
    [decipher.final]. *)
Definition unwrap (encryptedValue : json) : M string :=
  iv_field <- lift (get_prop encryptedValue "iv");;
  iv <- lift (Buffer_from_hex iv_field);;
  tag_field <- lift (get_prop encryptedValue "auth_tag");;
  authTag <- (if truthy_opt tag_field then lift (Buffer_from_hex tag_field)
              else ret []);;
  alg_field <- lift (get_prop encryptedValue "algorithm");;
  alg <- string_field alg_field;;
  data_field <- lift (get_prop encryptedValue "encrypted_data");;
  data <- string_field data_field;;
  match decipher P alg (key this) iv
          (if (0 <? length authTag)%nat then Some authTag else None)
          (hex_decode data) with
  | Some bytes => ret (string_of_list_byte bytes)
  | None => throw IntegrityError
  end.

Definition decrypt (encryptedValue : json) : M string :=
  expires_at <- lift (get_prop encryptedValue "expires_at");;
  expired <- is_expired expires_at;;
  if expired : bool then throw ExpiredError
  else unwrap encryptedValue.

Definition hash (data : string) : string := sha256 P data.

Definition verify (encryptedValue : json) : M bool :=
  try_catch (decrypt encryptedValue;; ret true) (fun _ => ret false).

(** [result._encrypted_fields.push(field)]. *)
Definition push_field (result : obj) (field : string) : M obj :=
  match obj_get result "_encrypted_fields" with
  | Some (JArr names) =>
      ret (obj_set result "_encrypted_fields" (JArr (names ++ [JStr field])))
  | _ => throw (TypeError "result._encrypted_fields.push is not a function")
  end.

(** The plaintext of a field: the string itself, or the JSON text of a
    structured value. *)
Definition field_plaintext (v : json) : string :=
  match v with
  | JStr s => s
  | _ => JSON_stringify P v
  end.

Fixpoint encryptObject_loop (o : obj) (fieldsToEncrypt : list string)
    (expiresAt : option Z) (result : obj) : M obj :=
  match fieldsToEncrypt with
  | [] => ret result
  | field :: rest =>
      if defined_and_not_null (obj_get o field) then
        e <- encrypt (field_plaintext (or_null (obj_get o field))) expiresAt;;
        result' <- push_field (obj_set result field (JObj e)) field;;
        encryptObject_loop o rest expiresAt result'
      else encryptObject_loop o rest expiresAt result
  end.

Definition encryptObject (o : obj) (fieldsToEncrypt : list string)
    (expiresAt : option Z) : M obj :=
  encryptObject_loop o fieldsToEncrypt expiresAt
    (obj_set o "_encrypted_fields" (JArr [])).

(** What [for (const field of encryptedFields)] iterates over. *)
Definition iterate (v : json) : M (list json) :=
  match v with
  | JArr items => ret items
  | JStr s => ret (List.map (fun c => JStr (String c EmptyString)) (list_ascii_of_string s))
  | _ => throw (TypeError "encryptedFields is not iterable")
  end.

Definition property_key (v : json) : string :=
  match v with
  | JStr s => s
  | _ => ToString P v
  end.

Definition decrypt_field (result : obj) (field : string) : M obj :=
  match obj_get result field with
  | Some (JObj e) =>
      if obj_has e "encrypted_data" then
        try_catch
          (decrypted <- decrypt (JObj e);;
           ret (obj_set result field
                  (match JSON_parse P decrypted with
                   | Some v => v
                   | None => JStr decrypted
                   end)))
          (fun _ => ret result)
      else ret result
  | _ => ret result
  end.

Fixpoint decryptObject_loop (encryptedFields : list json) (result : obj) : M obj :=
  match encryptedFields with
  | [] => ret result
  | field :: rest =>
      result' <- decrypt_field result (property_key field);;
      decryptObject_loop rest result'
  end.

Definition decryptObject (o : obj) : M obj :=
  encryptedFields <-
    iterate (if truthy_opt (obj_get o "_encrypted_fields")
             then or_null (obj_get o "_encrypted_fields") else JArr []);;
  result <- decryptObject_loop encryptedFields o;;
  ret (obj_delete result "_encrypted_fields").

End Engine.

(* ===================================================================== *)
(** * [SecretContextService]                                              *)
(* ===================================================================== *)

(** [Partial<AuditLog>] as the service fills it in. *)
Record AuditLogData : Type := {
  log_workspace_id : string;
  log_user_id : string;
  log_operation : string;
  log_resource_key : string;
  log_status : string;
  log_old_value_hash : option string;
  log_new_value_hash : option string;
  log_error_message : option string
}.

Inductive SecretType : Type := credential | ssh_key | certificate.

(** [`${secretType}s`]. *)
Definition secret_map (secretType : SecretType) : string :=
  match secretType with
  | credential => "credentials"
  | ssh_key => "ssh_keys"
  | certificate => "certificates"
  end.

(** [...(x !== undefined && { name: x })] spread into an object literal. *)
Definition with_optional (o : obj) (name : string) (x : option string) : obj :=
  match x with
  | Some s => obj_set o name (JStr s)
  | None => o
  end.

(** [secretContext[map][key]] where [secretContext] is truthy: reading a
    property of [undefined] or [null] throws. *)
Definition entry_of (secretContext : json) (map key : string) : exn + option json :=
  match get_prop secretContext map with
  | inl e => inl e
  | inr None =>
      inl (TypeError ("Cannot read properties of undefined (reading '" +:+ key +:+ "')"))
  | inr (Some m) => get_prop m key
  end.

(** [secretContext[map][key] = entry]: the maps of a context are objects;
    the assignment throws on anything else. *)
Definition assign_entry (secretContext : json) (map key : string) (entry : json)
  : exn + json :=
  match secretContext with
  | JObj c =>
      match obj_get c map with
      | Some (JObj m) => inr (JObj (obj_set c map (JObj (obj_set m key entry))))
      | _ => inl (TypeError ("Cannot set properties of " +:+ map))
      end
  | _ => inl (TypeError ("Cannot set properties of undefined (setting '" +:+ key +:+ "')"))
  end.

(** [delete secretContext[map][key]], after the entry was read. *)
Definition delete_entry (secretContext : json) (map key : string) : json :=
  match secretContext with
  | JObj c =>
      match obj_get c map with
      | Some (JObj m) => JObj (obj_set c map (JObj (obj_delete m key)))
      | _ => secretContext
      end
  | _ => secretContext
  end.

(** [secretContext.updated_at = value]. *)
Definition assign (secretContext : json) (name : string) (value : json)
  : exn + json :=
  match secretContext with
  | JObj c => inr (JObj (obj_set c name value))
  | _ => inl (TypeError ("Cannot create property '" +:+ name +:+ "'"))
  end.

(** The [id] handed to [findById] and [update]: the row store compares it
    with the [id] column and rejects what is not an identifier. *)
Definition row_id (v : option json) : M string :=
  match v with
  | Some (JStr s) => ret s
  | _ => throw (DatabaseError "FindById failed: invalid input syntax for type uuid")
  end.

Section Service.

Context (encryption : EncryptionService).

Definition getSecretContext (workspaceId userId : string) : M json :=
  let cacheKey := generateCacheKey "secret_context" [workspaceId; userId] in
  cached <- cacheGet cacheKey;;
  if truthy cached then ret cached
  else
    results <- findByUserAndWorkspace "secret_contexts" userId workspaceId;;
    match results with
    | row :: _ =>
        cacheSet cacheKey (JObj row) (Some 300%nat);;
        ret (JObj row)
    | [] => ret JNull
    end.

Definition saveSecretContext (secretContext : json) : M unit :=
  match secretContext with
  | JObj c =>
      encryptedContext <-
        encryptObject encryption c ["credentials"; "ssh_keys"; "certificates"] None;;
      id <- row_id (obj_get c "id");;
      found <- findById "secret_contexts" id;;
      match found with
      | Some _ => update "secret_contexts" id encryptedContext;; ret tt
      | None => insert "secret_contexts" encryptedContext;; ret tt
      end
  | _ => throw (TypeError "secretContext is not an object")
  end.

(** The object literal of a context without secrets. *)
Definition empty_context (id workspaceId userId : string) (created updated : Z)
  : obj :=
  [ ("id", JStr id);
    ("workspace_id", JStr workspaceId);
    ("user_id", JStr userId);
    ("api_keys", JObj []);
    ("credentials", JObj []);
    ("ssh_keys", JObj []);
    ("certificates", JObj []);
    ("created_at", JStr (toISOString P created));
    ("updated_at", JStr (toISOString P updated)) ].

Definition createEmptySecretContext (workspaceId userId : string) : M json :=
  id <- crypto_randomUUID;;
  created <- Date_new;;
  updated <- Date_new;;
  ret (JObj (empty_context id workspaceId userId created updated)).

(** The object literal [auditLog] of [createAuditLog]. *)
Definition auditLog_of (logData : AuditLogData) (id : string) (now : Z) : obj :=
  with_optional
    (with_optional
       (with_optional
          [ ("id", JStr id);
            ("workspace_id", JStr (log_workspace_id logData));
            ("user_id", JStr (log_user_id logData));
            ("operation", JStr (log_operation logData));
            ("context_type", JStr "secret");
            ("resource_key", JStr (log_resource_key logData));
            ("ip_address", JStr "system");
            ("user_agent", JStr "cv-context-manager");
            ("timestamp", JStr (toISOString P now));
            ("status", JStr (log_status logData)) ]
          "old_value_hash" (log_old_value_hash logData))
       "new_value_hash" (log_new_value_hash logData))
    "error_message" (log_error_message logData).

Definition createAuditLog (logData : AuditLogData) : M unit :=
  id <- crypto_randomUUID;;
  now <- Date_new;;
  try_catch (insert "audit_logs" (auditLog_of logData id now);; ret tt)
            (fun _ => ret tt).

(** [this.encryption.hash(publicKey).substring(0, 32)]. *)
Definition generateSSHFingerprint (publicKey : string) : string :=
  String.substring 0 32 (hash publicKey).

(** [storeCredential]; the context it creates when none exists is the
    object literal that [createEmptySecretContext] returns. *)
Definition storeCredential (workspaceId userId key value credentialType provider : string)
    (expiresAt : option Z) : M unit :=
  e <- encrypt encryption value expiresAt;;
  let encryptedCredential :=
    obj_set
      (obj_set (obj_set e "credential_type" (JStr credentialType))
               "provider" (JStr provider))
      "metadata"
      (JObj [ ("created_by", JStr userId);
              ("provider", JStr provider);
              ("key_name", JStr key) ]) in
  loaded <- getSecretContext workspaceId userId;;
  secretContext <-
    (if truthy loaded then ret loaded
     else createEmptySecretContext workspaceId userId);;
  secretContext <-
    lift (assign_entry secretContext "credentials" key (JObj encryptedCredential));;
  now <- Date_new;;
  secretContext <- lift (assign secretContext "updated_at" (JStr (toISOString P now)));;
  saveSecretContext secretContext;;
  createAuditLog
    {| log_workspace_id := workspaceId; log_user_id := userId;
       log_operation := "store_credential"; log_resource_key := key;
       log_status := "success"; log_old_value_hash := None;
       log_new_value_hash := Some (hash value);
       log_error_message := None |};;
  cacheDelete (generateCacheKey "secret_context" [workspaceId; userId]).

Definition getCredential (workspaceId userId key : string) : M (option string) :=
  secretContext <- getSecretContext workspaceId userId;;
  if negb (truthy secretContext) then ret None
  else
    entry <- lift (entry_of secretContext "credentials" key);;
    if negb (truthy_opt entry) then ret None
    else
      try_catch
        (decryptedValue <- decrypt encryption (or_null entry);;
         createAuditLog
           {| log_workspace_id := workspaceId; log_user_id := userId;
              log_operation := "get_credential"; log_resource_key := key;
              log_status := "success"; log_old_value_hash := None;
              log_new_value_hash := None; log_error_message := None |};;
         ret (Some decryptedValue))
        (fun error =>
           createAuditLog
             {| log_workspace_id := workspaceId; log_user_id := userId;
                log_operation := "get_credential"; log_resource_key := key;
                log_status := "failed"; log_old_value_hash := None;
                log_new_value_hash := None;
                log_error_message := Some (exn_message error) |};;
           throw (Exn "Error"
                    ("Failed to decrypt credential '" +:+ key +:+ "': "
                     +:+ exn_to_string error))).

Definition storeSSHKey (workspaceId userId keyName privateKey publicKey keyType : string)
    (metadata : option json) : M unit :=
  let fingerprint := generateSSHFingerprint publicKey in
  e <- encrypt encryption privateKey None;;
  let encryptedSSHKey :=
    obj_set
      (obj_set
         (obj_set (obj_set e "key_type" (JStr keyType))
                  "public_key" (JStr publicKey))
         "fingerprint" (JStr fingerprint))
      "metadata"
      (match metadata with
       | Some m => if truthy m then m else JObj []
       | None => JObj []
       end) in
  loaded <- getSecretContext workspaceId userId;;
  secretContext <-
    (if truthy loaded then ret loaded
     else createEmptySecretContext workspaceId userId);;
  secretContext <-
    lift (assign_entry secretContext "ssh_keys" keyName (JObj encryptedSSHKey));;
  now <- Date_new;;
  secretContext <- lift (assign secretContext "updated_at" (JStr (toISOString P now)));;
  saveSecretContext secretContext;;
  createAuditLog
    {| log_workspace_id := workspaceId; log_user_id := userId;
       log_operation := "store_ssh_key"; log_resource_key := keyName;
       log_status := "success"; log_old_value_hash := None;
       log_new_value_hash := None; log_error_message := None |};;
  cacheDelete (generateCacheKey "secret_context" [workspaceId; userId]).

(** The three fields of the value [getSSHKey] returns. *)
Record SSHKey : Type := {
  privateKey : string;
  publicKey : option json;
  fingerprint : option json
}.

Definition getSSHKey (workspaceId userId keyName : string) : M (option SSHKey) :=
  secretContext <- getSecretContext workspaceId userId;;
  if negb (truthy secretContext) then ret None
  else
    entry <- lift (entry_of secretContext "ssh_keys" keyName);;
    if negb (truthy_opt entry) then ret None
    else
      try_catch
        (decrypted <- decrypt encryption (or_null entry);;
         createAuditLog
           {| log_workspace_id := workspaceId; log_user_id := userId;
              log_operation := "get_ssh_key"; log_resource_key := keyName;
              log_status := "success"; log_old_value_hash := None;
              log_new_value_hash := None; log_error_message := None |};;
         pub <- lift (get_prop (or_null entry) "public_key");;
         fp <- lift (get_prop (or_null entry) "fingerprint");;
         ret (Some {| privateKey := decrypted; publicKey := pub; fingerprint := fp |}))
        (fun error =>
           createAuditLog
             {| log_workspace_id := workspaceId; log_user_id := userId;
                log_operation := "get_ssh_key"; log_resource_key := keyName;
                log_status := "failed"; log_old_value_hash := None;
                log_new_value_hash := None;
                log_error_message := Some (exn_message error) |};;
           throw (Exn "Error"
                    ("Failed to decrypt SSH key '" +:+ keyName +:+ "': "
                     +:+ exn_to_string error))).

(** [Object.entries(m)] for a map of a context. *)
Definition entries (m : option json) : exn + obj :=
  match m with
  | Some (JObj o) => inr o
  | None | Some JNull =>
      inl (TypeError "Cannot convert undefined or null to object")
  | Some _ => inr []
  end.

(** An object literal whose properties are read from [entry]; a property
    whose value is [undefined] is left out. *)
Fixpoint pick (entry : json) (names : list (string * string)) (acc : obj)
  : exn + obj :=
  match names with
  | [] => inr acc
  | (name, source) :: rest =>
      match get_prop entry source with
      | inl e => inl e
      | inr (Some v) => pick entry rest (obj_set acc name v)
      | inr None => pick entry rest acc
      end
  end.

Fixpoint describe (names : list (string * string)) (optional : list (string * string))
    (m : obj) : exn + list json :=
  match m with
  | [] => inr []
  | (k, entry) :: rest =>
      match pick entry names [("key", JStr k)] with
      | inl e => inl e
      | inr item =>
          match pick entry (List.filter
                              (fun n => match get_prop entry (snd n) with
                                        | inr v => truthy_opt v
                                        | inl _ => false
                                        end) optional) item with
          | inl e => inl e
          | inr item' =>
              match describe names optional rest with
              | inl e => inl e
              | inr items => inr (JObj item' :: items)
              end
          end
      end
  end.

Record SecretList : Type := {
  list_credentials : list json;
  list_ssh_keys : list json;
  list_certificates : list json
}.

Definition listSecrets (workspaceId userId : string) : M SecretList :=
  secretContext <- getSecretContext workspaceId userId;;
  if negb (truthy secretContext) then
    ret {| list_credentials := []; list_ssh_keys := []; list_certificates := [] |}
  else
    creds <- lift (get_prop secretContext "credentials");;
    creds <- lift (entries creds);;
    credentials <-
      lift (describe [("provider", "provider"); ("type", "credential_type");
                      ("created_at", "created_at")]
                     [("expires_at", "expires_at")] creds);;
    keys <- lift (get_prop secretContext "ssh_keys");;
    keys <- lift (entries keys);;
    ssh_keys <-
      lift (describe [("type", "key_type"); ("fingerprint", "fingerprint");
                      ("created_at", "created_at")] [] keys);;
    certs <- lift (get_prop secretContext "certificates");;
    certs <- lift (entries certs);;
    certificates <-
      lift (describe [("type", "certificate_type"); ("common_name", "common_name");
                      ("expires_at", "expires_at")] [] certs);;
    ret {| list_credentials := credentials; list_ssh_keys := ssh_keys;
           list_certificates := certificates |}.

(** [secretContext[`${secretType}s`]?.[key]]. *)
Definition optional_entry (secretContext : json) (map key : string) : exn + option json :=
  match get_prop secretContext map with
  | inl e => inl e
  | inr None | inr (Some JNull) => inr None
  | inr (Some m) => get_prop m key
  end.

Definition deleteSecret (workspaceId userId : string) (secretType : SecretType)
    (key : string) : M bool :=
  secretContext <- getSecretContext workspaceId userId;;
  if negb (truthy secretContext) then ret false
  else
    old <- lift (optional_entry secretContext (secret_map secretType) key);;
    let oldValueHash :=
      if truthy_opt old then Some (hash (JSON_stringify P (or_null old)))
      else None in
    entry <- lift (entry_of secretContext (secret_map secretType) key);;
    if truthy_opt entry then
      let secretContext := delete_entry secretContext (secret_map secretType) key in
      now <- Date_new;;
      secretContext <-
        lift (assign secretContext "updated_at" (JStr (toISOString P now)));;
      saveSecretContext secretContext;;
      createAuditLog
        {| log_workspace_id := workspaceId; log_user_id := userId;
           log_operation := "delete_secret"; log_resource_key := key;
           log_status := "success";
           log_old_value_hash :=
             match oldValueHash with
             | Some h => if String.eqb h EmptyString then None else Some h
             | None => None
             end;
           log_new_value_hash := None; log_error_message := None |};;
      cacheDelete (generateCacheKey "secret_context" [workspaceId; userId]);;
      ret true
    else ret false.

End Service.

End Vault.

(* ===================================================================== *)
(** * The rest of the engine, of the client, and the routes               *)
(* ===================================================================== *)

Section Utilities.

Context (P : Platform).

(** [EncryptionService.generateKey(length)]. *)
Definition generateKey (length : nat) : M string :=
  bytes <- crypto_randomBytes P length;;
  ret (hex_encode bytes).

(** [rotateKey(newKey, newVersion)]: a new engine; the old one is left as
    it is. *)
Definition rotateKey (this : EncryptionService P) (newKey newVersion : string)
  : EncryptionService P :=
  new_EncryptionService P newKey newVersion.

(** The alphabet of [generateSecurePassword]. *)
Definition chars : string :=
  "ABCDEFGHIJKLMNOPQRSTUVWXYZabcdefghijklmnopqrstuvwxyz0123456789!@#$%^&*()_+-=[]{}|;:,.<>?".

(** [result += s[n]]: out of range the index yields [undefined], which is
    appended as text. *)
Definition char_at (s : string) (n : nat) : string :=
  match String.get n s with
  | Some c => String c EmptyString
  | None => "undefined"
  end.

(** [chars[randomArray[i]! % chars.length]]. *)
Definition password_char (b : option byte) : string :=
  match b with
  | Some b => char_at chars (N.to_nat (Byte.to_N b) mod String.length chars)
  | None => "undefined"
  end.

Definition generateSecurePassword (length : nat) : M string :=
  randomArray <- crypto_randomBytes P length;;
  ret (fold_left (fun result i => result +:+ password_char (randomArray !! i))
                 (seq 0 length) EmptyString).

(** [isExpired(expiresAt?)]: the clock is read only for a non-empty
    argument; an invalid date compares false. *)
Definition isExpired (expiresAt : option string) : M bool :=
  match expiresAt with
  | None => ret false
  | Some s =>
      if String.eqb s EmptyString then ret false
      else
        now <- Date_new P;;
        ret (match new_Date P (JStr s) with
             | Some t => t <? now
             | None => false
             end)
  end.

(** [timeUntilExpiry(expiresAt?)]: [null] is [None]; the number is [NaN]
    ([Some None]) for an invalid date. *)
Definition timeUntilExpiry (expiresAt : option string) : M (option (option Z)) :=
  match expiresAt with
  | None => ret None
  | Some s =>
      if String.eqb s EmptyString then ret None
      else
        now <- Date_new P;;
        ret (Some (match new_Date P (JStr s) with
                   | Some t => Some (t - now)
                   | None => None
                   end))
  end.

End Utilities.

(** The methods of [DatabaseClient] that the secrets service does not
    call. *)
Module DatabaseClient.

(** [delete(table, id)]: the rows whose [id] column is [id] are removed
    and [true] is returned whether or not there was one.  The call trace
    records selects, inserts and updates only. *)
Definition delete (tbl id : string) : M bool :=
  supabase "Delete" tbl;;
  fun w =>
    (inr true,
     set_tables
       (<[tbl := List.filter (fun r => negb (eq_filter "id" id r)) (table w tbl)]>
          (w_tables w)) w).

Definition findByWorkspace (tbl workspaceId : string) : M (list obj) :=
  log (EvDbSelect tbl);;
  supabase "FindByWorkspace" tbl;;
  fun w =>
    (inr (List.filter (eq_filter "workspace_id" workspaceId) (table w tbl)), w).

Record Health : Type := { database : bool; cache : bool }.

(** [healthCheck]: the error of the probe of [profiles] is read, not
    thrown; a failing [ping] is caught. *)
Definition healthCheck : M Health :=
  log (EvDbSelect "profiles");;
  database_ok <-
    (fun w => (inr (match w_db_error w !! "profiles" with
                    | None => true
                    | Some _ => false
                    end), w));;
  cache_ok <-
    try_catch
      (fun w =>
         if w_useInMemoryCache w then (inr true, w)
         else
           match w_redis w with
           | Some r => redis_command r (fun d => (true, d)) w
           | None => (inr false, w)
           end)
      (fun _ => ret false);;
  ret {| database := database_ok; cache := cache_ok |}.

End DatabaseClient.

Section Routes.

Context (P : Platform) (encryption : EncryptionService P).

(** What a handler sends: the status code and the JSON body. *)
Record Reply : Type := { reply_code : nat; reply_payload : obj }.

(** The [user] that the JWT plugin attaches to a request. *)
Record JwtUser : Type := { jwt_user_id : string; jwt_workspace_id : string }.

Definition unauthorized : Reply :=
  {| reply_code := 401; reply_payload := [("error", JStr "Unauthorized")] |}.

(** [requireAuth]: the identity, or the reply it has sent. *)
Definition requireAuth (user : option JwtUser) : Reply + JwtUser :=
  match user with
  | Some userData =>
      if String.eqb (jwt_user_id userData) EmptyString
         || String.eqb (jwt_workspace_id userData) EmptyString
      then inl unauthorized
      else inr userData
  | None => inl unauthorized
  end.

Definition not_found (error : string) : Reply :=
  {| reply_code := 404;
     reply_payload := [("success", JBool false); ("error", JStr error)] |}.

(** The reply of a [catch] block. *)
Definition failed (error : string) (e : exn) : Reply :=
  {| reply_code := 500;
     reply_payload := [("success", JBool false); ("error", JStr error);
                       ("details", JStr (exn_message e))] |}.

Definition ok (body : obj) : Reply :=
  {| reply_code := 200; reply_payload := ("success", JBool true) :: body |}.

(** A property whose value may be [undefined] is left out of the body. *)
Definition with_value (o : obj) (name : string) (v : option json) : obj :=
  match v with
  | Some x => obj_set o name x
  | None => o
  end.

(** [GET /secret/credential/:key]. *)
Definition get_secret_credential (user : option JwtUser) (key : string) : M Reply :=
  match requireAuth user with
  | inl sent => ret sent
  | inr u =>
      try_catch
        (credential <- getCredential P encryption (jwt_workspace_id u)
                         (jwt_user_id u) key;;
         match credential with
         | Some value =>
             if String.eqb value EmptyString
             then ret (not_found ("Credential '" +:+ key +:+ "' not found"))
             else ret (ok [("data", JObj [("value", JStr value)])])
         | None => ret (not_found ("Credential '" +:+ key +:+ "' not found"))
         end)
        (fun error => ret (failed "Failed to retrieve credential" error))
  end.

(** [GET /secret/ssh-key/:keyName]. *)
Definition get_secret_ssh_key (user : option JwtUser) (keyName : string) : M Reply :=
  match requireAuth user with
  | inl sent => ret sent
  | inr u =>
      try_catch
        (sshKey <- getSSHKey P encryption (jwt_workspace_id u) (jwt_user_id u)
                     keyName;;
         match sshKey with
         | Some k =>
             ret (ok [("data",
                       JObj (with_value
                               (with_value [("privateKey", JStr (privateKey k))]
                                           "publicKey" (publicKey k))
                               "fingerprint" (fingerprint k)))])
         | None => ret (not_found ("SSH key '" +:+ keyName +:+ "' not found"))
         end)
        (fun error => ret (failed "Failed to retrieve SSH key" error))
  end.

(** [GET /secret/list]. *)
Definition get_secret_list (user : option JwtUser) : M Reply :=
  match requireAuth user with
  | inl sent => ret sent
  | inr u =>
      try_catch
        (secrets <- listSecrets P (jwt_workspace_id u) (jwt_user_id u);;
         ret (ok [("data",
                   JObj [("credentials", JArr (list_credentials secrets));
                         ("ssh_keys", JArr (list_ssh_keys secrets));
                         ("certificates", JArr (list_certificates secrets))])]))
        (fun error => ret (failed "Failed to list secrets" error))
  end.

(** [['credential', 'ssh_key', 'certificate'].includes(type)]. *)
Definition secret_type_of (type : string) : option SecretType :=
  if String.eqb type "credential" then Some credential
  else if String.eqb type "ssh_key" then Some ssh_key
  else if String.eqb type "certificate" then Some certificate
  else None.

(** [DELETE /secret/:type/:key]. *)
Definition delete_secret (user : option JwtUser) (type key : string) : M Reply :=
  match requireAuth user with
  | inl sent => ret sent
  | inr u =>
      match secret_type_of type with
      | None =>
          ret {| reply_code := 400;
                 reply_payload :=
                   [("success", JBool false);
                    ("error",
                     JStr "Invalid secret type. Must be credential, ssh_key, or certificate")] |}
      | Some secretType =>
          try_catch
            (deleted <- deleteSecret P encryption (jwt_workspace_id u)
                          (jwt_user_id u) secretType key;;
             if deleted : bool
             then ret (ok [("message",
                            JStr (type +:+ " '" +:+ key +:+ "' deleted successfully"))])
             else ret (not_found (type +:+ " '" +:+ key +:+ "' not found")))
            (fun error => ret (failed ("Failed to delete " +:+ type) error))
      end
  end.

(** [GET /health] of the server. *)
Definition get_health : M obj :=
  healthCheck <- DatabaseClient.healthCheck;;
  now <- Date_new P;;
  ret [("status",
        JStr (if DatabaseClient.database healthCheck && DatabaseClient.cache healthCheck
              then "healthy" else "degraded"));
       ("database", JBool (DatabaseClient.database healthCheck));
       ("cache", JBool (DatabaseClient.cache healthCheck));
       ("timestamp", JStr (toISOString P now))].

End Routes.

(* ===================================================================== *)
(** * A mock runtime                                                      *)
(* ===================================================================== *)

(** In the spirit of the mock services of the repository's test server: a
    runtime small enough to be executed, used to run the model on concrete
    inputs.  Its cipher is a byte-wise shift cipher with a 16-byte
    checksum as tag, its JSON is the integer fragment of JSON, and its
    dates are written as milliseconds since the epoch. *)
Module Mock.

Definition byte_add (a b : byte) : byte :=
  default a (Byte.of_N ((Byte.to_N a + Byte.to_N b) mod 256)).

Definition byte_sub (a b : byte) : byte :=
  default a (Byte.of_N ((Byte.to_N a + 256 - Byte.to_N b) mod 256)).

Definition byte_of_nat (n : nat) : byte :=
  default "000"%byte (Byte.of_N (N.of_nat n mod 256)).

Definition sum_bytes (bs : list byte) : byte :=
  fold_left byte_add bs "000"%byte.

Definition scrypt (secret salt : string) (_ : nat) : byte :=
  sum_bytes (list_byte_of_string (secret +:+ salt)).

Definition pad (k : byte) (iv : list byte) : byte := byte_add k (sum_bytes iv).

Definition mac (k : byte) (iv c : list byte) : list byte :=
  let s := fold_left (fun acc b => byte_add (byte_add (byte_add acc acc) acc) b)
                     c (pad k iv) in
  List.map (fun i => byte_add s (byte_of_nat (i * 23))) (seq 0 16).

Fixpoint bytes_eqb (a b : list byte) : bool :=
  match a, b with
  | [], [] => true
  | x :: a', y :: b' => Byte.eqb x y && bytes_eqb a' b'
  | _, _ => false
  end.

Definition seal (alg : string) (k : byte) (iv p : list byte)
  : list byte * list byte :=
  let c := List.map (fun b => byte_add b (pad k iv)) p in
  (c, mac k iv c).

Definition open (alg : string) (k : byte) (iv : list byte)
    (tag : option (list byte)) (c : list byte) : option (list byte) :=
  if String.eqb alg "aes-256-gcm" then
    match tag with
    | Some t =>
        if bytes_eqb t (mac k iv c)
        then Some (List.map (fun b => byte_sub b (pad k iv)) c)
        else None
    | None => None
    end
  else None.

Definition digest (data : string) : string :=
  hex_encode
    (List.map
       (fun i =>
          fold_left (fun acc b => byte_add (byte_add (byte_add acc acc) acc)
                                           (byte_add b (byte_of_nat i)))
                    (list_byte_of_string data) (byte_of_nat (i * 7 + 1)))
       (seq 0 32)).

(** Decimal numerals. *)
Fixpoint digits (fuel : nat) (n : N) (acc : string) : string :=
  match fuel with
  | O => acc
  | S fuel' =>
      let acc' := String (ascii_of_N (48 + n mod 10)) acc in
      if (n / 10 =? 0)%N then acc' else digits fuel' (n / 10) acc'
  end.

Definition N_to_string (n : N) : string :=
  digits (S (N.to_nat (N.log2 n))) n EmptyString.

Definition Z_to_string (z : Z) : string :=
  match z with
  | Z0 => "0"
  | Zpos p => N_to_string (Npos p)
  | Zneg p => String "-" (N_to_string (Npos p))
  end.

Definition is_digit (c : ascii) : bool :=
  ((48 <=? N_of_ascii c) && (N_of_ascii c <=? 57))%N.

(** The digits at the head of a text, as a number, and what follows. *)
Fixpoint read_digits (s : string) (acc : N) : N * string :=
  match s with
  | String c rest =>
      if is_digit c then read_digits rest (10 * acc + (N_of_ascii c - 48))%N
      else (acc, s)
  | EmptyString => (acc, s)
  end.

(** An integer literal of JSON: no leading zero, no fraction, no
    exponent. *)
Definition read_number (s : string) : option (Z * string) :=
  let '(neg, body) :=
    match s with
    | String "-" rest => (true, rest)
    | _ => (false, s)
    end in
  match body with
  | String c rest =>
      if is_digit c then
        let '(n, tail) := read_digits body 0%N in
        let leading_zero :=
          match body with
          | String "0" (String d _) => is_digit d
          | _ => false
          end in
        let fractional :=
          match tail with
          | String "." _ | String "e" _ | String "E" _ => true
          | _ => false
          end in
        if leading_zero || fractional then None
        else Some (if neg then (- Z.of_N n)%Z else Z.of_N n, tail)
      else None
  | EmptyString => None
  end.

Definition dquote : ascii := ascii_of_nat 34.

Fixpoint escape (s : string) : string :=
  match s with
  | EmptyString => EmptyString
  | String c rest =>
      if Ascii.eqb c dquote then String "\" (String dquote (escape rest))
      else if Ascii.eqb c "\" then String "\" (String "\" (escape rest))
      else String c (escape rest)
  end.

Definition quote (s : string) : string :=
  String dquote (escape s +:+ String dquote EmptyString).

(** The text after an opening quote, up to the closing one. *)
Fixpoint read_string (s : string) : option (string * string) :=
  match s with
  | EmptyString => None
  | String c rest =>
      if Ascii.eqb c dquote then Some (EmptyString, rest)
      else if Ascii.eqb c "\" then
        match rest with
        | String e rest' =>
            if Ascii.eqb e dquote || Ascii.eqb e "\" then
              match read_string rest' with
              | Some (t, tail) => Some (String e t, tail)
              | None => None
              end
            else None
        | EmptyString => None
        end
      else if (N_of_ascii c <? 32)%N then None
      else
        match read_string rest with
        | Some (t, tail) => Some (String c t, tail)
        | None => None
        end
  end.

Fixpoint skip_ws (s : string) : string :=
  match s with
  | String c rest =>
      if Ascii.eqb c " " || (N_of_ascii c =? 10)%N || (N_of_ascii c =? 13)%N
         || (N_of_ascii c =? 9)%N
      then skip_ws rest else s
  | EmptyString => s
  end.

Definition expect (c : ascii) (s : string) : option string :=
  match skip_ws s with
  | String c' rest => if Ascii.eqb c c' then Some rest else None
  | EmptyString => None
  end.

Definition join (sep : string) (parts : list string) : string :=
  String.concat sep parts.

Fixpoint stringify (v : json) : string :=
  match v with
  | JNull => "null"
  | JBool true => "true"
  | JBool false => "false"
  | JNum n => Z_to_string n
  | JStr s => quote s
  | JArr items => "[" +:+ join "," (List.map stringify items) +:+ "]"
  | JObj fields =>
      "{" +:+ join "," (List.map (fun kv => quote (fst kv) +:+ ":" +:+ stringify (snd kv))
                                 fields) +:+ "}"
  end.

(** Recursive descent; [fuel] bounds the nesting and the number of
    elements read. *)
Fixpoint parse_value (fuel : nat) (s : string) : option (json * string) :=
  match fuel with
  | O => None
  | S fuel' =>
      let parse_items :=
        fix items (n : nat) (s : string) (acc : list json)
          : option (list json * string) :=
          match n with
          | O => None
          | S n' =>
              match parse_value fuel' s with
              | Some (v, tail) =>
                  match skip_ws tail with
                  | String "," tail' => items n' tail' (acc ++ [v])%list
                  | String "]" tail' => Some ((acc ++ [v])%list, tail')
                  | _ => None
                  end
              | None => None
              end
          end in
      let parse_fields :=
        fix fields (n : nat) (s : string) (acc : obj) : option (obj * string) :=
          match n with
          | O => None
          | S n' =>
              match expect dquote s with
              | Some after_quote =>
                  match read_string after_quote with
                  | Some (k, tail) =>
                      match expect ":" tail with
                      | Some tail1 =>
                          match parse_value fuel' tail1 with
                          | Some (v, tail2) =>
                              match skip_ws tail2 with
                              | String "," tail3 => fields n' tail3 (obj_set acc k v)
                              | String "}" tail3 => Some (obj_set acc k v, tail3)
                              | _ => None
                              end
                          | None => None
                          end
                      | None => None
                      end
                  | None => None
                  end
              | None => None
              end
          end in
      match skip_ws s with
      | String "n" (String "u" (String "l" (String "l" tail))) => Some (JNull, tail)
      | String "t" (String "r" (String "u" (String "e" tail))) => Some (JBool true, tail)
      | String "f" (String "a" (String "l" (String "s" (String "e" tail)))) =>
          Some (JBool false, tail)
      | String "[" tail =>
          match skip_ws tail with
          | String "]" tail' => Some (JArr [], tail')
          | _ =>
              match parse_items (String.length tail) tail [] with
              | Some (items, tail') => Some (JArr items, tail')
              | None => None
              end
          end
      | String "{" tail =>
          match skip_ws tail with
          | String "}" tail' => Some (JObj [], tail')
          | _ =>
              match parse_fields (String.length tail) tail [] with
              | Some (fields, tail') => Some (JObj fields, tail')
              | None => None
              end
          end
      | String c tail =>
          if Ascii.eqb c dquote then
            match read_string tail with
            | Some (t, tail') => Some (JStr t, tail')
            | None => None
            end
          else
            match read_number (String c tail) with
            | Some (n, tail') => Some (JNum n, tail')
            | None => None
            end
      | EmptyString => None
      end
  end.

Definition parse (s : string) : option json :=
  match parse_value (S (String.length s)) s with
  | Some (v, tail) =>
      match skip_ws tail with
      | EmptyString => Some v
      | _ => None
      end
  | None => None
  end.

Definition to_string (v : json) : string :=
  match v with
  | JStr s => s
  | JObj _ => "[object Object]"
  | JArr _ => EmptyString
  | _ => stringify v
  end.

Definition date_of (v : json) : option Z :=
  match v with
  | JNum n => Some n
  | JStr s =>
      match read_number s with
      | Some (n, EmptyString) => Some n
      | _ => None
      end
  | _ => None
  end.

Definition random_bytes (i n : nat) : list byte :=
  List.map (fun j => byte_of_nat (7 * i + 13 * j + 1)) (seq 0 n).

Definition uuid (i : nat) : string := "uuid-" +:+ N_to_string (N.of_nat i).

Definition clock (i : nat) : Z := 1700000000000 + 1000 * Z.of_nat i.

Definition platform : Platform :=
  {| Key := byte;
     scryptSync := scrypt;
     cipher := seal;
     decipher := open;
     sha256 := digest;
     JSON_stringify := stringify;
     JSON_parse := parse;
     ToString := to_string;
     toISOString := Z_to_string;
     new_Date := date_of;
     randomBytes := random_bytes;
     randomUUID := uuid;
     Date_now := clock |}.

(** The engine the tests construct, and an empty world with the in-memory
    cache. *)
Definition engine : EncryptionService platform :=
  new_EncryptionService platform "test-key-for-encryption-testing" "1".

Definition world0 : World :=
  {| w_calls := 0; w_tables := ∅; w_db_error := ∅;
     w_useInMemoryCache := true; w_inMemoryCache := ∅; w_redis := None;
     w_trace := [] |}.

(** A world whose Redis refuses connections. *)
Definition world_down : World :=
  {| w_calls := 0; w_tables := ∅; w_db_error := ∅;
     w_useInMemoryCache := false; w_inMemoryCache := ∅;
     w_redis := Some {| redis_data := ∅; redis_error := Some "ECONNREFUSED" |};
     w_trace := [] |}.

(** A world whose row store holds one context for the identity
    ["W"], ["U"], with one credential in its [credentials] map. *)
Definition stored_context : obj :=
  [ ("id", JStr "ctx-1");
    ("workspace_id", JStr "W");
    ("user_id", JStr "U");
    ("api_keys", JObj []);
    ("credentials",
     JObj [ ("openai_key",
             JObj [ ("encrypted_data", JStr "9c8d9b9c558c899c89");
                    ("algorithm", JStr "aes-256-gcm");
                    ("iv", JStr "010e1b2835424f5c69768390");
                    ("created_at", JStr "1700000001000");
                    ("auth_tag", JStr "71889fb6cde4fb122940576e859cb3ca");
                    ("key_version", JStr "1");
                    ("credential_type", JStr "api_key");
                    ("provider", JStr "openai") ]) ]);
    ("ssh_keys", JObj []);
    ("certificates", JObj []);
    ("created_at", JStr "1700000000000");
    ("updated_at", JStr "1700000000000") ].

Definition world_with_context : World :=
  {| w_calls := 0; w_tables := {[ "secret_contexts" := [stored_context] ]};
     w_db_error := ∅;
     w_useInMemoryCache := true; w_inMemoryCache := ∅; w_redis := None;
     w_trace := [] |}.

(** The envelope [engine] returns for ["test-data"] in [world0]. *)
Definition test_envelope : obj :=
  [ ("encrypted_data", JStr "9c8d9b9c558c899c89");
    ("algorithm", JStr "aes-256-gcm");
    ("iv", JStr "010e1b2835424f5c69768390");
    ("created_at", JStr "1700000001000");
    ("auth_tag", JStr "71889fb6cde4fb122940576e859cb3ca");
    ("key_version", JStr "1") ].

End Mock.

(* ===================================================================== *)
(** * What the proofs assume of the runtime                               *)
(* ===================================================================== *)

(** AES-256-GCM as Node provides it: the decipher inverts the cipher, and
    the tag the cipher returns has 16 bytes. *)
Class CipherCorrect (P : Platform) : Prop := {
  decipher_cipher :
    forall k iv p c t,
      cipher P algorithm k iv p = (c, t) ->
      decipher P algorithm k iv (Some t) c = Some p;
  cipher_tag_length :
    forall k iv p c t,
      cipher P algorithm k iv p = (c, t) -> length t = 16%nat
}.


(** The envelope [encrypt] builds from an IV, the output of the cipher and
    the two dates. *)
Definition envelope (P : Platform) (this : EncryptionService P)
    (iv c t : list byte) (created : Z) (expiresAt : option Z) : obj :=
  let result :=
    [ ("encrypted_data", JStr (hex_encode c));
      ("algorithm", JStr algorithm);
      ("iv", JStr (hex_encode iv));
      ("created_at", JStr (toISOString P created));
      ("auth_tag", JStr (hex_encode t));
      ("key_version", JStr (keyVersion P this)) ] in
  match expiresAt with
  | Some e => obj_set result "expires_at" (JStr (toISOString P e))
  | None => result
  end.

(** [e] is an envelope without expiry that the engine's cipher produced
    for [plaintext]. *)
Definition sealed (P : Platform) (this : EncryptionService P)
    (plaintext : string) (e : obj) : Prop :=
  exists iv c t created,
    cipher P algorithm (key P this) iv (list_byte_of_string plaintext) = (c, t) /\
    e = envelope P this iv c t created None.

(** A value that [decryptObject] gives back as it was: a string that is
    not itself JSON text, or a structured value that [JSON.parse] recovers
    from its [JSON.stringify]. *)
Definition restorable (P : Platform) (v : json) : Prop :=
  match v with
  | JStr s => JSON_parse P s = None
  | _ => JSON_parse P (JSON_stringify P v) = Some v
  end.

(** The object [o] with the values of the properties in the domain of
    [σ] replaced. *)
Definition overlay (o : obj) (σ : gmap string json) : obj :=
  List.map (fun kv => (fst kv, default (snd kv) (σ !! fst kv))) o.


(** The expiry handed to [encrypt], if any, survives its ISO rendering and
    has not passed when the clock is next read in world [w]. *)
Definition still_valid (P : Platform) (expiresAt : option Z) (w : World) : Prop :=
  match expiresAt with
  | None => True
  | Some t =>
      new_Date P (JStr (toISOString P t)) = Some t /\ Date_now P (w_calls w) <= t
  end.

(** What the cache holds under a key, as far as [cacheGet] can tell: the
    in-memory map, or the Redis data unless the server is in error. *)
Definition cache_lookup (w : World) (key : string) : option string :=
  if w_useInMemoryCache w then w_inMemoryCache w !! key
  else
    match w_redis w with
    | Some r =>
        match redis_error r with
        | None => redis_data r !! key
        | Some _ => None
        end
    | None => None
    end.

(** The value [cacheGet] returns. *)
Definition cached_value (P : Platform) (w : World) (key : string) : json :=
  match cache_lookup w key with
  | Some s =>
      if String.eqb s EmptyString then JNull
      else default JNull (JSON_parse P s)
  | None => JNull
  end.

(** The effect of a cache write: applied to the in-memory map, or to the
    Redis data unless the server is in error. *)
Definition cache_write (f : gmap string string -> gmap string string)
    (w : World) : World :=
  if w_useInMemoryCache w then set_inMemoryCache (f (w_inMemoryCache w)) w
  else
    match w_redis w with
    | Some r =>
        match redis_error r with
        | None =>
            set_redis (Some {| redis_data := f (redis_data r);
                               redis_error := None |}) w
        | Some _ => w
        end
    | None => w
    end.

(** The key under which the context of an identity is cached. *)
Definition context_key (workspaceId userId : string) : string :=
  generateCacheKey "secret_context" [workspaceId; userId].

(** The rows of [secret_contexts] that belong to an identity. *)
Definition context_rows (w : World) (workspaceId userId : string) : list obj :=
  List.filter
    (fun r => eq_filter "user_id" userId r && eq_filter "workspace_id" workspaceId r)
    (table w "secret_contexts").

(** The context [getSecretContext] returns: the cached value when it is
    truthy, else the first stored row, else [null]. *)
Definition lookup_context (P : Platform) (w : World) (workspaceId userId : string)
  : json :=
  let cached := cached_value P w (context_key workspaceId userId) in
  if truthy cached then cached
  else
    match context_rows w workspaceId userId with
    | row :: _ => JObj row
    | [] => JNull
    end.

(** The cache and the row store of a world. *)
Definition cache_of (w : World) : bool * gmap string string * option Redis :=
  (w_useInMemoryCache w, w_inMemoryCache w, w_redis w).

Definition store_of (w : World) : gmap string (list obj) * gmap string string :=
  (w_tables w, w_db_error w).

(** Calls that only look a context up: cache reads, cache fills and
    selects. *)
Definition is_lookup (e : event) : bool :=
  match e with
  | EvCacheGet _ | EvCacheSet _ | EvDbSelect _ => true
  | _ => false
  end.

(** A write of a row of [tbl]. *)
Definition is_write_to (tbl : string) (e : event) : bool :=
  match e with
  | EvDbInsert t _ | EvDbUpdate t _ _ => String.eqb t tbl
  | _ => false
  end.

Definition is_cache_delete (e : event) : bool :=
  match e with
  | EvCacheDelete _ => true
  | _ => false
  end.

(** The position of the first call that satisfies [p]. *)
Fixpoint first_index (p : event -> bool) (trace : list event) : option nat :=
  match trace with
  | [] => None
  | e :: rest => if p e then Some 0%nat else S <$> first_index p rest
  end.


(** The write path that [storeCredential] and [storeSSHKey] share: seal
    the payload, load or create the context, put the decorated envelope
    under [key] in [map], stamp [updated_at], persist, audit, invalidate. *)
Definition write_path (P : Platform) (encryption : EncryptionService P)
    (workspaceId userId map key plaintext : string) (expiresAt : option Z)
    (decorate : obj -> obj) (logData : AuditLogData) : M unit :=
  (e <- encrypt P encryption plaintext expiresAt;;
   loaded <- getSecretContext P workspaceId userId;;
   secretContext <-
     (if truthy loaded then ret loaded
      else createEmptySecretContext P workspaceId userId);;
   secretContext <- lift (assign_entry secretContext map key (JObj (decorate e)));;
   now <- Date_new P;;
   secretContext <- lift (assign secretContext "updated_at" (JStr (toISOString P now)));;
   saveSecretContext P encryption secretContext;;
   createAuditLog P logData;;
   cacheDelete (generateCacheKey "secret_context" [workspaceId; userId]))%M.

(** The fields [storeCredential] and [storeSSHKey] add to the envelope. *)
Definition credential_entry (userId key credentialType provider : string)
    (e : obj) : obj :=
  obj_set
    (obj_set (obj_set e "credential_type" (JStr credentialType))
             "provider" (JStr provider))
    "metadata"
    (JObj [ ("created_by", JStr userId);
            ("provider", JStr provider);
            ("key_name", JStr key) ]).

Definition ssh_key_entry (P : Platform) (encryption : EncryptionService P)
    (publicKey keyType : string) (metadata : option json) (e : obj) : obj :=
  obj_set
    (obj_set
       (obj_set (obj_set e "key_type" (JStr keyType))
                "public_key" (JStr publicKey))
       "fingerprint" (JStr (generateSSHFingerprint P publicKey)))
    "metadata"
    (match metadata with
     | Some m => if truthy m then m else JObj []
     | None => JObj []
     end).

(** The audit data of the two write operations. *)
Definition credential_log (P : Platform) (workspaceId userId key value : string)
  : AuditLogData :=
  {| log_workspace_id := workspaceId; log_user_id := userId;
     log_operation := "store_credential"; log_resource_key := key;
     log_status := "success"; log_old_value_hash := None;
     log_new_value_hash := Some (hash P value);
     log_error_message := None |}.

Definition ssh_key_log (workspaceId userId keyName : string) : AuditLogData :=
  {| log_workspace_id := workspaceId; log_user_id := userId;
     log_operation := "store_ssh_key"; log_resource_key := keyName;
     log_status := "success"; log_old_value_hash := None;
     log_new_value_hash := None; log_error_message := None |}.

(** The property names of an envelope without expiry. *)
Definition envelope_fields : list string :=
  ["encrypted_data"; "algorithm"; "iv"; "created_at"; "auth_tag"; "key_version"].

(** The three maps [saveSecretContext] seals. *)
Definition sealed_maps : list string := ["credentials"; "ssh_keys"; "certificates"].

(** The cache backend is failing: the client talks to Redis and Redis
    rejects every command. *)
Definition cache_down (w : World) : Prop :=
  w_useInMemoryCache w = false /\
  exists r msg, w_redis w = Some r /\ redis_error r = Some msg.

(** A computation that cannot tell a failing cache backend from no cache
    at all: run with the backend failing, it returns what it returns
    without a cache and does to the rest of the world what it does without
    a cache. *)
Definition cache_blind {A} (m : M A) : Prop :=
  forall w,
    cache_down w ->
    m w = (fst (m (set_redis None w)),
           set_redis (w_redis w) (snd (m (set_redis None w)))) /\
    w_useInMemoryCache (snd (m (set_redis None w))) = false /\
    w_redis (snd (m (set_redis None w))) = None.

(** A computation that does not touch the cache at all. *)
Definition cache_free {A} (m : M A) : Prop :=
  forall w r,
    m (set_redis r w) = (fst (m w), set_redis r (snd (m w))) /\
    w_useInMemoryCache (snd (m w)) = w_useInMemoryCache w /\
    w_redis (snd (m w)) = w_redis w.

(** [crypto.randomBytes(n)] returns [n] bytes. *)
Class RandomLength (P : Platform) : Prop :=
  randomBytes_length : forall i n, length (randomBytes P i n) = n.

(** The properties of an envelope that [decrypt] reads. *)
Definition cipher_fields : list string :=
  ["expires_at"; "iv"; "auth_tag"; "algorithm"; "encrypted_data"].

(** [w'] is [w] but for the number of values drawn from the runtime. *)
Definition drawn (w w' : World) : Prop := exists n, w' = set_calls n w.


(** The cache backend answers: the in-memory map, or a Redis that is not
    in error. *)
Definition cache_up (w : World) : Prop :=
  w_useInMemoryCache w = true \/
  exists r, w_redis w = Some r /\ redis_error r = None.

(** No character of the text is a colon. *)
Definition colon_free (s : string) : bool :=
  forallb (fun c => negb (Ascii.eqb c ":")) (list_ascii_of_string s).

(** Every run of [m], whether it returns or throws, leaves a world that
    [R] relates to the one it started in. *)
Definition keeps {A} (R : World -> World -> Prop) (m : M A) : Prop :=
  forall w, R w (snd (m w)).

(** No table is written and the store is in the mode it was in. *)
Definition store_kept (w w' : World) : Prop := store_of w' = store_of w.

(** No table but the audit log is written. *)
Definition audit_only (w w' : World) : Prop :=
  w_db_error w' = w_db_error w /\
  forall t, t <> "audit_logs" -> table w' t = table w t.

(** Run in [w], [m] writes no table and returns, if it returns, a result
    that is [allowed]. *)
Definition declines {A} (allowed : A -> Prop) (m : M A) (w : World) : Prop :=
  store_of (snd (m w)) = store_of w /\
  forall a, fst (m w) = inr a -> allowed a.

(** The audit data of the two read operations. *)
Definition get_credential_log (workspaceId userId key status : string)
    (error : option string) : AuditLogData :=
  {| log_workspace_id := workspaceId; log_user_id := userId;
     log_operation := "get_credential"; log_resource_key := key;
     log_status := status; log_old_value_hash := None;
     log_new_value_hash := None; log_error_message := error |}.

Definition get_ssh_key_log (workspaceId userId keyName status : string)
    (error : option string) : AuditLogData :=
  {| log_workspace_id := workspaceId; log_user_id := userId;
     log_operation := "get_ssh_key"; log_resource_key := keyName;
     log_status := status; log_old_value_hash := None;
     log_new_value_hash := None; log_error_message := error |}.

(** [item] is the listing of the entry [kv] of a map: an object that
    names the entry's key and has no property outside [allowed]. *)
Definition lists_entry (allowed : list string) (kv : string * json) (item : json)
  : Prop :=
  exists o, item = JObj o /\
            obj_get o "key" = Some (JStr (fst kv)) /\
            forall k, k ∉ allowed -> obj_get o k = None.

(** Worlds and values on which the service is run with the mock runtime. *)
Module Fixtures.

(** The envelope of ["test-data"], marked as expired in 2020. *)
Definition expired_entry : obj :=
  obj_set Mock.test_envelope "expires_at" (JStr "1600000000000").

(** An SSH key entry whose private key is ["test-data"]. *)
Definition ssh_entry : obj :=
  obj_set
    (obj_set
       (obj_set (obj_set Mock.test_envelope "key_type" (JStr "ed25519"))
                "public_key" (JStr "ssh-ed25519 AAAA"))
       "fingerprint" (JStr "0123456789abcdef0123456789abcdef"))
    "metadata" (JObj []).

(** A context of the identity ["W"], ["U"] with a valid and an expired
    credential and one SSH key. *)
Definition context : obj :=
  [ ("id", JStr "ctx-2");
    ("workspace_id", JStr "W");
    ("user_id", JStr "U");
    ("api_keys", JObj []);
    ("credentials",
     JObj [ ("openai_key",
             JObj (obj_set (obj_set Mock.test_envelope "credential_type"
                              (JStr "api_key")) "provider" (JStr "openai")));
            ("old_key", JObj expired_entry) ]);
    ("ssh_keys", JObj [ ("deploy", JObj ssh_entry) ]);
    ("certificates", JObj []);
    ("created_at", JStr "1700000000000");
    ("updated_at", JStr "1700000000000") ].

Definition world : World :=
  {| w_calls := 0; w_tables := {[ "secret_contexts" := [context] ]};
     w_db_error := ∅;
     w_useInMemoryCache := true; w_inMemoryCache := ∅; w_redis := None;
     w_trace := [] |}.

(** The world of the stored context, with the row store rejecting
    requests on [secret_contexts]. *)
Definition world_store_down : World :=
  {| w_calls := 0; w_tables := {[ "secret_contexts" := [context] ]};
     w_db_error := {[ "secret_contexts" := "connection refused" ]};
     w_useInMemoryCache := true; w_inMemoryCache := ∅; w_redis := None;
     w_trace := [] |}.


Definition user : JwtUser := {| jwt_user_id := "U"; jwt_workspace_id := "W" |}.

End Fixtures.

(* ===================================================================== *)
(** * Objects, buffers and the monad: basic facts                         *)
(* ===================================================================== *)

Section ObjectFacts.

Implicit Types (o : obj) (k : string) (v : json).

Lemma obj_get_set_eq o k v : obj_get (obj_set o k v) k = Some v.
Proof.
  induction o as [|[k' v'] o IH]; cbn.
  - by rewrite String.eqb_refl.
  - destruct (String.eqb k k') eqn:E; cbn; rewrite E; [done | exact IH].
Qed.

Lemma obj_get_set_ne o k k' v :
  k <> k' -> obj_get (obj_set o k v) k' = obj_get o k'.
Proof.
  intros Hne. induction o as [|[k0 v0] o IH]; cbn.
  - destruct (String.eqb k' k) eqn:E; [|done].
    apply String.eqb_eq in E. congruence.
  - destruct (String.eqb k k0) eqn:E; cbn; [|by rewrite IH].
    apply String.eqb_eq in E. subst k0.
    destruct (String.eqb k' k) eqn:E'; [|done].
    apply String.eqb_eq in E'. congruence.
Qed.



Lemma obj_get_None_keys o k : obj_get o k = None <-> k ∉ o.*1.
Proof.
  induction o as [|[k' v'] o IH]; cbn.
  - split; [intros _; apply not_elem_of_nil | done].
  - rewrite not_elem_of_cons. destruct (String.eqb k k') eqn:E.
    + apply String.eqb_eq in E. split; [done | intros [? _]; done].
    + apply String.eqb_neq in E. rewrite IH. tauto.
Qed.

Lemma obj_delete_absent o k : obj_get o k = None -> obj_delete o k = o.
Proof.
  induction o as [|[k' v'] o IH]; cbn; [done|].
  destruct (String.eqb k k'); [done|]. intros H. by rewrite IH.
Qed.

Lemma obj_set_app_l o o' k v :
  k ∈ o.*1 -> obj_set (o ++ o') k v = obj_set o k v ++ o'.
Proof.
  induction o as [|[k' v'] o IH]; cbn; [by intros ?%elem_of_nil|].
  destruct (String.eqb k k') eqn:E; [done|].
  apply String.eqb_neq in E. rewrite elem_of_cons.
  intros [?|Hin]; [done|]. by rewrite IH.
Qed.

Lemma obj_set_app_r o o' k v :
  k ∉ o.*1 -> obj_set (o ++ o') k v = o ++ obj_set o' k v.
Proof.
  induction o as [|[k' v'] o IH]; cbn; [done|].
  rewrite not_elem_of_cons. intros [Hne Hin].
  apply String.eqb_neq in Hne. rewrite Hne. by rewrite IH.
Qed.

Lemma obj_get_app o o' k :
  obj_get (o ++ o') k =
  match obj_get o k with Some v => Some v | None => obj_get o' k end.
Proof.
  induction o as [|[k' v'] o IH]; cbn; [done|].
  by destruct (String.eqb k k').
Qed.

Lemma obj_delete_app o o' k :
  obj_delete (o ++ o') k = obj_delete o k ++ obj_delete o' k.
Proof.
  induction o as [|[k' v'] o IH]; cbn; [done|].
  destruct (String.eqb k k'); cbn; by rewrite IH.
Qed.

Lemma obj_set_keys o k v : k ∈ o.*1 -> (obj_set o k v).*1 = o.*1.
Proof.
  induction o as [|[k' v'] o IH]; cbn; [by intros ?%elem_of_nil|].
  destruct (String.eqb k k') eqn:E; cbn; [done|].
  apply String.eqb_neq in E. rewrite elem_of_cons.
  intros [?|Hin]; [done|]. by rewrite IH.
Qed.

End ObjectFacts.

Lemma hex_byte_roundtrip (b : byte) :
  hex_value (hex_digit (Byte.to_N b / 16)) = Some (Byte.to_N b / 16)%N /\
  hex_value (hex_digit (Byte.to_N b mod 16)) = Some (Byte.to_N b mod 16)%N /\
  Byte.of_N (16 * (Byte.to_N b / 16) + Byte.to_N b mod 16) = Some b.
Proof. destruct b; vm_compute; auto. Qed.

(** [Buffer.from(buf.toString('hex'), 'hex')] is [buf]. *)
Lemma hex_decode_encode (bs : list byte) : hex_decode (hex_encode bs) = bs.
Proof.
  induction bs as [|b bs IH]; [reflexivity|].
  cbn [hex_encode hex_decode].
  destruct (hex_byte_roundtrip b) as (-> & -> & ->).
  by rewrite IH.
Qed.

Lemma hex_encode_nonempty (bs : list byte) :
  bs <> [] -> String.eqb (hex_encode bs) EmptyString = false.
Proof. destruct bs; [done | reflexivity]. Qed.

(** Inversion of a successful [bind]. *)
Lemma bind_inr {A B} (m : M A) (k : A -> M B) w b w' :
  bind m k w = (inr b, w') ->
  exists a w1, m w = (inr a, w1) /\ k a w1 = (inr b, w').
Proof.
  unfold bind. destruct (m w) as [[e|a] w1]; [done|]. eauto.
Qed.

Lemma bind_eq {A B} (m : M A) (k : A -> M B) w a w1 :
  m w = (inr a, w1) -> bind m k w = k a w1.
Proof. unfold bind. by intros ->. Qed.

Lemma bind_throw {A B} (m : M A) (k : A -> M B) w e w1 :
  m w = (inl e, w1) -> bind m k w = (inl e, w1).
Proof. unfold bind. by intros ->. Qed.

(* ===================================================================== *)
(** * The mock runtime satisfies the assumptions                          *)
(* ===================================================================== *)

Module MockFacts.
Import Mock.

Lemma of_N_small (x : N) :
  (x < 256)%N -> exists b, Byte.of_N x = Some b /\ Byte.to_N b = x.
Proof.
  intros Hx. destruct (Byte.of_N x) as [b|] eqn:E.
  - exists b. split; [done|]. by apply Byte.to_of_N.
  - apply Byte.of_N_None_iff in E. lia.
Qed.

Lemma to_N_byte_add a k :
  Byte.to_N (byte_add a k) = ((Byte.to_N a + Byte.to_N k) mod 256)%N.
Proof.
  unfold byte_add.
  destruct (of_N_small ((Byte.to_N a + Byte.to_N k) mod 256)) as (b & -> & Hb);
    [by apply N.mod_lt | done].
Qed.

Lemma to_N_byte_sub a k :
  Byte.to_N (byte_sub a k) = ((Byte.to_N a + 256 - Byte.to_N k) mod 256)%N.
Proof.
  unfold byte_sub.
  destruct (of_N_small ((Byte.to_N a + 256 - Byte.to_N k) mod 256)) as (b & -> & Hb);
    [by apply N.mod_lt | done].
Qed.

Lemma mod_256_wrap (x : N) : (256 <= x < 512)%N -> (x mod 256 = x - 256)%N.
Proof.
  intros Hx. replace x with ((x - 256) + 1 * 256)%N at 1 by lia.
  rewrite N.Div0.mod_add. apply N.mod_small. lia.
Qed.

Lemma to_N_inj (a b : byte) : Byte.to_N a = Byte.to_N b -> a = b.
Proof.
  intros H. apply (f_equal Byte.of_N) in H.
  rewrite !Byte.of_to_N in H. congruence.
Qed.

Lemma byte_sub_add a k : byte_sub (byte_add a k) k = a.
Proof.
  apply to_N_inj. rewrite to_N_byte_sub, to_N_byte_add.
  pose proof (Byte.to_N_bounded a). pose proof (Byte.to_N_bounded k).
  destruct (N.lt_ge_cases (Byte.to_N a + Byte.to_N k) 256).
  - rewrite (N.mod_small (_ + _)) by done.
    rewrite mod_256_wrap by lia. lia.
  - rewrite (mod_256_wrap (_ + _)) by lia.
    replace (Byte.to_N a + Byte.to_N k - 256 + 256 - Byte.to_N k)%N
      with (Byte.to_N a) by lia.
    apply N.mod_small. lia.
Qed.


Lemma bytes_eqb_eq a b : bytes_eqb a b = true <-> a = b.
Proof.
  revert b. induction a as [|x a IH]; intros [|y b]; cbn; try done.
  rewrite andb_true_iff, IH. split.
  - intros [Hxy ->]. by apply Byte.byte_dec_bl in Hxy as ->.
  - intros [= -> ->]. split; [by apply Byte.byte_dec_lb | done].
Qed.

Lemma unshift_shift k (p : list byte) :
  List.map (fun b => byte_sub b k) (List.map (fun b => byte_add b k) p) = p.
Proof.
  induction p as [|b p IH]; cbn; [done|]. by rewrite byte_sub_add, IH.
Qed.



#[export] Instance cipher_correct : CipherCorrect platform.
Proof.
  split.
  - intros k iv p c t [= <- <-].
    change (open algorithm k iv
              (Some (mac k iv (List.map (fun b => byte_add b (pad k iv)) p)))
              (List.map (fun b => byte_add b (pad k iv)) p) = Some p).
    unfold open, algorithm. rewrite String.eqb_refl.
    rewrite (proj2 (bytes_eqb_eq _ _) eq_refl).
    by rewrite unshift_shift.
  - intros k iv p c t [= <- <-]. reflexivity.
Qed.


End MockFacts.

(* ===================================================================== *)
(** * The encryption engine                                               *)
(* ===================================================================== *)

Section EngineFacts.

Context (P : Platform) (this : EncryptionService P).

Lemma encrypt_eq (plaintext : string) (expiresAt : option Z) (w : World) :
  encrypt P this plaintext expiresAt w =
  let iv := randomBytes P (w_calls w) 12 in
  let ct := cipher P algorithm (key P this) iv (list_byte_of_string plaintext) in
  (inr (envelope P this iv (fst ct) (snd ct) (Date_now P (S (w_calls w))) expiresAt),
   set_calls (S (S (w_calls w))) w).
Proof.
  unfold encrypt, crypto_randomBytes, Date_new, draw, bind, ret. cbn.
  by destruct (cipher P algorithm _ _ _).
Qed.

End EngineFacts.

Arguments hex_encode : simpl never.
Arguments hex_decode : simpl never.

Section Roundtrip.

Context (P : Platform) `{!CipherCorrect P} (this : EncryptionService P).

(** The cryptographic unwrap of an envelope that the cipher produced. *)
Lemma unwrap_envelope (plaintext : string) (iv c t : list byte) (created : Z)
    (expiresAt : option Z) (w : World) :
  cipher P algorithm (key P this) iv (list_byte_of_string plaintext) = (c, t) ->
  unwrap P this (JObj (envelope P this iv c t created expiresAt)) w
  = (inr plaintext, w).
Proof.
  intros Hc. pose proof (cipher_tag_length _ _ _ _ _ Hc) as Ht.
  assert (String.eqb (hex_encode t) EmptyString = false) as Hne
    by (apply hex_encode_nonempty; by destruct t).
  unfold unwrap, bind.
  destruct expiresAt; cbn; rewrite Hne; cbn;
    repeat rewrite hex_decode_encode; rewrite Ht; cbn;
    rewrite (decipher_cipher _ _ _ _ _ Hc);
    by rewrite string_of_list_byte_of_string.
Qed.

Lemma is_expired_valid (e : Z) (w : World) :
  still_valid P (Some e) w ->
  exists w', is_expired P (Some (JStr (toISOString P e))) w = (inr false, w').
Proof.
  intros [Hdate Hnow]. unfold is_expired.
  destruct (truthy_opt _); [|by eexists].
  unfold Date_new, draw, bind, ret. cbn. rewrite Hdate.
  assert ((e <? Date_now P (w_calls w)) = false) as -> by lia. by eexists.
Qed.

(** Decrypting an envelope that the cipher produced, while it is valid. *)
Lemma decrypt_envelope (plaintext : string) (iv c t : list byte) (created : Z)
    (expiresAt : option Z) (w : World) :
  cipher P algorithm (key P this) iv (list_byte_of_string plaintext) = (c, t) ->
  still_valid P expiresAt w ->
  exists w', decrypt P this (JObj (envelope P this iv c t created expiresAt)) w
             = (inr plaintext, w').
Proof.
  intros Hc Hvalid. unfold decrypt.
  destruct expiresAt as [e|].
  - destruct (is_expired_valid e w Hvalid) as [w' Hexp].
    exists w'. erewrite bind_eq by reflexivity.
    erewrite bind_eq by exact Hexp. by apply unwrap_envelope.
  - exists w. erewrite bind_eq by reflexivity.
    erewrite bind_eq by reflexivity. by apply unwrap_envelope.
Qed.

(** C2 — round trip: for every plaintext, encrypted with no expiry or with
    an expiry that has not passed when the envelope is decrypted,
    [decrypt] on the same engine returns exactly the plaintext that was
    given to [encrypt].  The decryption may happen in any later world. *)
Theorem C2_decrypt_encrypt (plaintext : string) (expiresAt : option Z)
    (w w2 : World) :
  still_valid P expiresAt w2 ->
  exists E w1 w3,
    encrypt P this plaintext expiresAt w = (inr E, w1) /\
    decrypt P this (JObj E) w2 = (inr plaintext, w3).
Proof.
  intros Hvalid. rewrite encrypt_eq. cbn zeta.
  destruct (cipher P algorithm (key P this) (randomBytes P (w_calls w) 12)
              (list_byte_of_string plaintext)) as [c t] eqn:Hc.
  destruct (decrypt_envelope plaintext _ c t (Date_now P (S (w_calls w)))
              expiresAt w2 Hc Hvalid) as [w3 Hdec].
  eexists _, _, w3. split; [reflexivity | exact Hdec].
Qed.

End Roundtrip.

Section Expiry.

Context (P : Platform) (this : EncryptionService P).

Lemma is_expired_eq (x : option json) (w : World) :
  is_expired P x w =
  if truthy_opt x then
    (inr (match new_Date P (or_null x) with
          | Some t => t <? Date_now P (w_calls w)
          | None => false
          end), set_calls (S (w_calls w)) w)
  else (inr false, w).
Proof. unfold is_expired. by destruct (truthy_opt x). Qed.

Lemma get_prop_throws (v : json) (k : string) (e : exn) :
  get_prop v k = inl e -> exn_name e = "TypeError".
Proof. destruct v; cbn; by intros [= <-]. Qed.

Lemma unwrap_not_expired (encryptedValue : json) (w : World) :
  fst (unwrap P this encryptedValue w) <> inl ExpiredError.
Proof.
  unfold unwrap, bind, lift, string_field, Buffer_from_hex, throw, ret.
  repeat (case_match; simplify_eq/=; try done);
    match goal with
    | H : get_prop _ _ = inl _ |- _ =>
        apply get_prop_throws in H; intros [= ->]; discriminate H
    end.
Qed.

(** C5 — expiry is checked first: an envelope whose [expires_at] is set
    (truthy, as the code tests it) and lies strictly before the current
    time makes [decrypt] throw the expiry error, whatever the ciphertext,
    the tag and the behaviour of the decipher — nothing but the clock is
    used; an envelope without [expires_at], or with one that is not before
    the current time, never makes [decrypt] throw the expiry error. *)
Theorem C5_expiry_before_unwrap (encryptedValue : json) (w : World) :
  (forall x t,
      get_prop encryptedValue "expires_at" = inr (Some x) ->
      truthy x = true ->
      new_Date P x = Some t ->
      t < Date_now P (w_calls w) ->
      decrypt P this encryptedValue w
      = (inl ExpiredError, set_calls (S (w_calls w)) w)) /\
  (get_prop encryptedValue "expires_at" = inr None ->
   fst (decrypt P this encryptedValue w) <> inl ExpiredError) /\
  (forall x t,
      get_prop encryptedValue "expires_at" = inr (Some x) ->
      new_Date P x = Some t ->
      Date_now P (w_calls w) <= t ->
      fst (decrypt P this encryptedValue w) <> inl ExpiredError).
Proof.
  split; [|split].
  - intros x t Hget Htruthy Hdate Hpast. unfold decrypt.
    rewrite Hget. erewrite bind_eq by reflexivity.
    unfold bind. rewrite is_expired_eq.
    cbn [truthy_opt or_null]. rewrite Htruthy, Hdate.
    by assert ((t <? Date_now P (w_calls w)) = true) as -> by lia.
  - intros Hget. unfold decrypt. rewrite Hget.
    erewrite bind_eq by reflexivity. erewrite bind_eq by reflexivity.
    apply unwrap_not_expired.
  - intros x t Hget Hdate Hfuture. unfold decrypt. rewrite Hget.
    erewrite bind_eq by reflexivity.
    unfold bind. rewrite is_expired_eq.
    cbn [truthy_opt or_null]. rewrite Hdate.
    assert ((t <? Date_now P (w_calls w)) = false) as -> by lia.
    destruct (truthy x); apply unwrap_not_expired.
Qed.

End Expiry.

Section Tamper.

Context (P : Platform) `{!CipherCorrect P} `{!DecipherChecksTag P}
        (this : EncryptionService P).

Lemma hex_decode_nonempty (s : string) : hex_decode s <> [] -> s <> EmptyString.
Proof. by intros H ->. Qed.

Lemma decrypt_no_expiry (encryptedValue : json) (w : World) :
  get_prop encryptedValue "expires_at" = inr None ->
  decrypt P this encryptedValue w = unwrap P this encryptedValue w.
Proof.
  intros Hget. unfold decrypt. rewrite Hget.
  erewrite bind_eq by reflexivity. by erewrite bind_eq by reflexivity.
Qed.

Lemma verify_eq (encryptedValue : json) (w : World) :
  verify P this encryptedValue w =
  match decrypt P this encryptedValue w with
  | (inr _, w') => (inr true, w')
  | (inl _, w') => (inr false, w')
  end.
Proof.
  unfold verify, try_catch, bind.
  by destruct (decrypt P this encryptedValue w) as [[e|s] w'].
Qed.



End Tamper.

Section OverlayFacts.

Implicit Types (o : obj) (σ : gmap string json).

Lemma overlay_cons k v o σ :
  overlay ((k, v) :: o) σ = (k, default v (σ !! k)) :: overlay o σ.
Proof. reflexivity. Qed.

Lemma overlay_keys o σ : (overlay o σ).*1 = o.*1.
Proof.
  induction o as [|[k v] o IH]; [done|].
  rewrite overlay_cons. cbn. by rewrite IH.
Qed.

Lemma overlay_get o σ k :
  obj_get (overlay o σ) k = (fun v => default v (σ !! k)) <$> obj_get o k.
Proof.
  induction o as [|[k' v'] o IH]; [done|].
  rewrite overlay_cons. cbn.
  destruct (String.eqb k k') eqn:E; [|exact IH].
  apply String.eqb_eq in E. by subst.
Qed.

Lemma overlay_insert_absent o σ k v :
  k ∉ o.*1 -> overlay o (<[k:=v]> σ) = overlay o σ.
Proof.
  induction o as [|[k' v'] o IH]; [done|].
  rewrite !overlay_cons. cbn. rewrite not_elem_of_cons. intros [Hne Hin].
  rewrite lookup_insert_ne by done. by rewrite IH.
Qed.

Lemma overlay_set o σ k v :
  NoDup o.*1 -> k ∈ o.*1 -> obj_set (overlay o σ) k v = overlay o (<[k:=v]> σ).
Proof.
  induction o as [|[k' v'] o IH]; [by intros _ ?%elem_of_nil|].
  rewrite !overlay_cons. cbn.
  rewrite NoDup_cons, elem_of_cons. intros [Hk' Hnd] Hin.
  destruct (String.eqb k k') eqn:E.
  - apply String.eqb_eq in E. subst k'.
    rewrite lookup_insert_eq. cbn. by rewrite overlay_insert_absent.
  - apply String.eqb_neq in E. destruct Hin as [?|Hin]; [done|].
    rewrite lookup_insert_ne by done. by rewrite IH.
Qed.

Lemma obj_get_elem_of o k v : NoDup o.*1 -> (k, v) ∈ o -> obj_get o k = Some v.
Proof.
  induction o as [|[k' v'] o IH]; cbn; [by intros _ ?%elem_of_nil|].
  rewrite NoDup_cons, elem_of_cons. intros [Hk' Hnd] [[= -> ->]|Hin].
  - by rewrite String.eqb_refl.
  - destruct (String.eqb k k') eqn:E; [|by apply IH].
    apply String.eqb_eq in E. subst k'. exfalso. apply Hk'.
    apply list_elem_of_fmap. by exists (k, v).
Qed.

(** An overlay that only repeats what the object already holds changes
    nothing. *)
Lemma overlay_id o σ :
  NoDup o.*1 ->
  (forall k v, σ !! k = Some v -> k ∈ o.*1 -> obj_get o k = Some v) ->
  overlay o σ = o.
Proof.
  induction o as [|[k v] o IH]; [done|].
  rewrite overlay_cons. cbn. rewrite NoDup_cons. intros [Hk Hnd] Hσ.
  f_equal.
  - destruct (σ !! k) as [v'|] eqn:E; [|done]. cbn.
    specialize (Hσ k v' E). cbn in Hσ. rewrite String.eqb_refl in Hσ.
    f_equal. symmetry. apply (inj Some). apply Hσ. apply elem_of_cons. by left.
  - apply IH; [done|]. intros k0 v0 E Hin.
    specialize (Hσ k0 v0 E). cbn in Hσ.
    destruct (String.eqb k0 k) eqn:E0.
    + apply String.eqb_eq in E0. by subst.
    + apply Hσ. apply elem_of_cons. by right.
Qed.

Lemma obj_set_absent o k v : obj_get o k = None -> obj_set o k v = o ++ [(k, v)].
Proof.
  induction o as [|[k' v'] o IH]; cbn; [done|].
  destruct (String.eqb k k'); [done|]. intros H. by rewrite IH.
Qed.

Lemma obj_get_Some_keys o k v : obj_get o k = Some v -> k ∈ o.*1.
Proof.
  intros H. destruct (decide (k ∈ o.*1)) as [|Hn]; [done|].
  apply obj_get_None_keys in Hn. congruence.
Qed.

End OverlayFacts.

Arguments overlay : simpl never.

Section FieldEncryption.

Context (P : Platform) `{!CipherCorrect P} (this : EncryptionService P).

Abbreviation ef := "_encrypted_fields".

Lemma sealed_decrypt (plaintext : string) (e : obj) (w : World) :
  sealed P this plaintext e ->
  decrypt P this (JObj e) w = (inr plaintext, w) /\
  obj_has e "encrypted_data" = true.
Proof.
  intros (iv & c & t & created & Hc & ->). split; [|done].
  rewrite decrypt_no_expiry by reflexivity. by apply unwrap_envelope.
Qed.

Lemma encrypt_sealed (plaintext : string) (w : World) :
  exists e w', encrypt P this plaintext None w = (inr e, w') /\
               sealed P this plaintext e.
Proof.
  rewrite encrypt_eq. cbn zeta.
  destruct (cipher P algorithm (key P this) (randomBytes P (w_calls w) 12)
              (list_byte_of_string plaintext)) as [c t] eqn:Hc.
  eexists _, _. split; [reflexivity|]. by eexists _, _, _, _.
Qed.

(** The loop of [encryptObject] over fields that are present and not
    [null]: it replaces exactly these by envelopes of their plaintexts and
    records their names. *)
Lemma encryptObject_loop_overlay (o : obj) (fields : list string)
    (σ : gmap string json) (names : list json) (w : World) :
  NoDup o.*1 ->
  obj_get o ef = None ->
  (forall f, f ∈ fields -> exists v, obj_get o f = Some v /\ v <> JNull) ->
  exists σ' w',
    encryptObject_loop P this o fields None (overlay o σ ++ [(ef, JArr names)]) w
    = (inr (overlay o σ' ++ [(ef, JArr (names ++ List.map JStr fields))]), w') /\
    (forall k, k ∉ fields -> σ' !! k = σ !! k) /\
    (forall f, f ∈ fields ->
       exists e, σ' !! f = Some (JObj e) /\
                 sealed P this (field_plaintext P (or_null (obj_get o f))) e).
Proof.
  intros Hnd Hef. revert σ names w.
  induction fields as [|f fields IH]; intros σ names w Hpresent.
  - exists σ, w. cbn. rewrite app_nil_r. split; [done|]. split; [done|].
    by intros f ?%elem_of_nil.
  - destruct (Hpresent f) as (v & Hv & Hnull); [apply elem_of_cons; by left|].
    cbn [encryptObject_loop]. rewrite Hv.
    assert (defined_and_not_null (Some v) = true) as -> by by destruct v.
    destruct (encrypt_sealed (field_plaintext P (or_null (Some v))) w)
      as (e & w1 & Henc & Hsealed).
    erewrite bind_eq by exact Henc.
    assert (f ∈ o.*1) as Hf by by eapply obj_get_Some_keys.
    assert (ef ∉ o.*1) as Hefk by by apply obj_get_None_keys.
    rewrite obj_set_app_l by by rewrite overlay_keys.
    rewrite overlay_set by done.
    unfold push_field. rewrite obj_get_app, overlay_get, Hef. cbn.
    rewrite obj_set_app_r by by rewrite overlay_keys. cbn.
    destruct (IH (<[f:=JObj e]> σ) (names ++ [JStr f]) w1) as (σ' & w' & Hloop & Hout & Hin).
    { intros f' Hf'. apply Hpresent. apply elem_of_cons. by right. }
    exists σ', w'. rewrite Hloop, <- app_assoc. split; [done|]. split.
    + intros k [Hk1 Hk2]%not_elem_of_cons. rewrite Hout by done.
      by rewrite lookup_insert_ne.
    + intros f' Hf'. destruct (decide (f' ∈ fields)) as [|Hnot]; [by apply Hin|].
      apply elem_of_cons in Hf' as [->|]; [|done].
      exists e. rewrite Hout by done. rewrite lookup_insert_eq, Hv. done.
Qed.

(** The loop of [decryptObject] over recorded names whose properties
    hold envelopes of restorable values: it puts the values back. *)
Lemma decryptObject_loop_overlay (o : obj) (fields : list string)
    (σ : gmap string json) (recorded : json) (w : World) :
  NoDup o.*1 ->
  obj_get o ef = None ->
  NoDup fields ->
  (forall f, f ∈ fields ->
     exists v e, obj_get o f = Some v /\ restorable P v /\
                 σ !! f = Some (JObj e) /\
                 sealed P this (field_plaintext P v) e) ->
  exists σ',
    decryptObject_loop P this (List.map JStr fields)
      (overlay o σ ++ [(ef, recorded)]) w
    = (inr (overlay o σ' ++ [(ef, recorded)]), w) /\
    (forall k, k ∉ fields -> σ' !! k = σ !! k) /\
    (forall f, f ∈ fields -> σ' !! f = obj_get o f).
Proof.
  intros Hnd Hef. revert σ.
  induction fields as [|f fields IH]; intros σ Hndf Hsealed.
  - exists σ. cbn. split; [done|]. split; [done|]. by intros f ?%elem_of_nil.
  - apply NoDup_cons in Hndf as [Hf Hndf].
    destruct (Hsealed f) as (v & e & Hv & Hrest & Hσ & He);
      [apply elem_of_cons; by left|].
    apply (sealed_decrypt _ _ w) in He as [Hdec Hhas].
    cbn [List.map decryptObject_loop property_key].
    assert (f ∈ o.*1) as Hfk by by eapply obj_get_Some_keys.
    assert (decrypt_field P this (overlay o σ ++ [(ef, recorded)]) f w
            = (inr (overlay o (<[f:=v]> σ) ++ [(ef, recorded)]), w)) as Hfield.
    { unfold decrypt_field. rewrite obj_get_app, overlay_get, Hv. cbn.
      rewrite Hσ. cbn. rewrite Hhas. unfold try_catch.
      erewrite bind_eq by exact Hdec. cbn.
      rewrite obj_set_app_l by by rewrite overlay_keys.
      rewrite overlay_set by done.
      assert (match JSON_parse P (field_plaintext P v) with
              | Some v0 => v0
              | None => JStr (field_plaintext P v)
              end = v) as ->; [|done].
      destruct v; cbn in Hrest |- *; by rewrite Hrest. }
    erewrite bind_eq by exact Hfield.
    destruct (IH (<[f:=v]> σ) Hndf) as (σ' & Hloop & Hout & Hin).
    { intros f' Hf'. destruct (Hsealed f') as (v' & e' & ? & ? & ? & ?);
        [apply elem_of_cons; by right|].
      exists v', e'. repeat split; try done.
      rewrite lookup_insert_ne; [done|]. by intros ->. }
    exists σ'. split; [exact Hloop|]. split.
    + intros k [Hk1 Hk2]%not_elem_of_cons. rewrite Hout by done.
      by rewrite lookup_insert_ne.
    + intros f' [->|Hf']%elem_of_cons; [|by apply Hin].
      rewrite Hout by done. by rewrite lookup_insert_eq.
Qed.

(** C7 — field-selective encryption, as the code provides it.  For a
    document without a property named [_encrypted_fields] and a
    duplicate-free list of field names, each present, not [null] and
    restorable (a string that is not itself JSON text, or a structured
    value that JSON round-trips): [encryptObject] leaves every other
    property of the document as it was, replaces each named property by an
    envelope and records the names; [decryptObject] applied to the result
    returns exactly the document. *)
Theorem C7_decryptObject_encryptObject (doc : obj) (fields : list string)
    (w w2 : World) :
  NoDup doc.*1 ->
  obj_get doc ef = None ->
  NoDup fields ->
  (forall f, f ∈ fields ->
     exists v, obj_get doc f = Some v /\ v <> JNull /\ restorable P v) ->
  exists enc w1,
    encryptObject P this doc fields None w = (inr enc, w1) /\
    (forall k, k ∉ fields -> k <> ef -> obj_get enc k = obj_get doc k) /\
    (forall f, f ∈ fields ->
       exists e, obj_get enc f = Some (JObj e) /\ obj_has e "encrypted_data" = true) /\
    obj_get enc ef = Some (JArr (List.map JStr fields)) /\
    decryptObject P this enc w2 = (inr doc, w2).
Proof.
  intros Hnd Hef Hndf Hfields.
  assert (ef ∉ doc.*1) as Hefk by by apply obj_get_None_keys.
  assert (overlay doc ∅ = doc) as Hid by (by apply overlay_id).
  destruct (encryptObject_loop_overlay doc fields ∅ [] w Hnd Hef)
    as (σ & w1 & Hloop & Hout & Hin).
  { intros f Hf. destruct (Hfields f Hf) as (v & ? & ? & _). by exists v. }
  exists (overlay doc σ ++ [(ef, JArr (List.map JStr fields))]), w1.
  split; [|split; [|split; [|split]]].
  - unfold encryptObject. rewrite obj_set_absent by done.
    rewrite <- Hid at 2. exact Hloop.
  - intros k Hk Hne. rewrite obj_get_app, overlay_get, Hout by done.
    rewrite lookup_empty. destruct (obj_get doc k); cbn; [done|].
    by apply String.eqb_neq in Hne as ->.
  - intros f Hf. destruct (Hin f Hf) as (e & Hσ & He).
    destruct (Hfields f Hf) as (v & Hv & _).
    exists e. rewrite obj_get_app, overlay_get, Hv. cbn. rewrite Hσ. split; [done|].
    by destruct He as (? & ? & ? & ? & _ & ->).
  - rewrite obj_get_app, overlay_get, Hef. reflexivity.
  - unfold decryptObject.
    rewrite obj_get_app, overlay_get, Hef. cbn [fmap option_fmap option_map obj_get].
    rewrite String.eqb_refl. cbn [truthy_opt truthy or_null iterate].
    erewrite bind_eq by reflexivity.
    destruct (decryptObject_loop_overlay doc fields σ
                (JArr (List.map JStr fields)) w2 Hnd Hef Hndf)
      as (σ' & Hdec & Hout' & Hin').
    { intros f Hf. destruct (Hfields f Hf) as (v & Hv & _ & Hrest).
      destruct (Hin f Hf) as (e & Hσ & He). rewrite Hv in He.
      by exists v, e. }
    erewrite bind_eq by exact Hdec. unfold ret. f_equal. f_equal.
    rewrite obj_delete_app. cbn. rewrite app_nil_r.
    rewrite obj_delete_absent by (rewrite overlay_get, Hef; done).
    apply overlay_id; [done|]. intros k v Hσ' Hk.
    destruct (decide (k ∈ fields)) as [Hkf|Hkf].
    + by rewrite <- Hin'.
    + rewrite Hout', Hout, lookup_empty in Hσ' by done. done.
Qed.

End FieldEncryption.

(** C7, as stated, fails on a string field whose text is JSON: the field
    comes back as the parsed value, here the number [42] for the string
    ["42"]. *)
Lemma C7_counterexample_numeric_string :
  fst ((enc <- encryptObject Mock.platform Mock.engine
                 [("public", JStr "p"); ("secretA", JStr "42")] ["secretA"] None;;
        decryptObject Mock.platform Mock.engine enc)%M Mock.world0)
  = inr [("public", JStr "p"); ("secretA", JNum 42)].
Proof. vm_compute. reflexivity. Qed.

(* ===================================================================== *)
(** * The engine on concrete inputs                                       *)
(* ===================================================================== *)

(** C2 on the mock runtime: a plaintext with multi-byte characters and an
    expiry a hundred seconds ahead of the clock. *)
Lemma C2_witness :
  still_valid Mock.platform (Some 1700000100000) Mock.world0 /\
  exists E w1 w3,
    encrypt Mock.platform Mock.engine "🔐 中文" (Some 1700000100000) Mock.world0
    = (inr E, w1) /\
    decrypt Mock.platform Mock.engine (JObj E) Mock.world0 = (inr "🔐 中文", w3).
Proof.
  assert (still_valid Mock.platform (Some 1700000100000) Mock.world0) as Hvalid
    by (split; [vm_compute; reflexivity | vm_compute; discriminate]).
  split; [exact Hvalid|].
  exact (@C2_decrypt_encrypt Mock.platform MockFacts.cipher_correct Mock.engine "🔐 中文"
           (Some 1700000100000) Mock.world0 Mock.world0 Hvalid).
Defined.

(** C5 on the mock runtime: an envelope that expired long ago and carries
    no valid ciphertext, and one without expiry. *)
Lemma C5_witness :
  decrypt Mock.platform Mock.engine
    (JObj [("encrypted_data", JStr "zz"); ("expires_at", JStr "1600000000000")])
    Mock.world0
  = (inl ExpiredError, set_calls 1 Mock.world0) /\
  fst (decrypt Mock.platform Mock.engine
         (JObj [("encrypted_data", JStr "zz")]) Mock.world0)
  <> inl ExpiredError.
Proof.
  split.
  - apply (proj1 (C5_expiry_before_unwrap Mock.platform Mock.engine
                    (JObj [("encrypted_data", JStr "zz");
                           ("expires_at", JStr "1600000000000")]) Mock.world0)
             (JStr "1600000000000") 1600000000000);
      [reflexivity | reflexivity | vm_compute; reflexivity | vm_compute; reflexivity].
  - apply (proj1 (proj2 (C5_expiry_before_unwrap Mock.platform Mock.engine
                           (JObj [("encrypted_data", JStr "zz")]) Mock.world0))).
    reflexivity.
Defined.



(** C7 on the mock runtime: the document of the specification. *)
Lemma C7_witness :
  let doc := [ ("public", JStr "p"); ("secretA", JStr "a");
               ("secretB", JStr "b"); ("n", JNum 42) ] in
  exists enc w1,
    encryptObject Mock.platform Mock.engine doc ["secretA"; "secretB"] None Mock.world0
    = (inr enc, w1) /\
    (forall k, k ∉ ["secretA"; "secretB"] -> k <> "_encrypted_fields" ->
               obj_get enc k = obj_get doc k) /\
    (forall f, f ∈ ["secretA"; "secretB"] ->
       exists e, obj_get enc f = Some (JObj e) /\ obj_has e "encrypted_data" = true) /\
    obj_get enc "_encrypted_fields" = Some (JArr [JStr "secretA"; JStr "secretB"]) /\
    decryptObject Mock.platform Mock.engine enc Mock.world0 = (inr doc, Mock.world0).
Proof.
  intros doc.
  apply (@C7_decryptObject_encryptObject Mock.platform MockFacts.cipher_correct
           Mock.engine doc
           ["secretA"; "secretB"] Mock.world0 Mock.world0).
  - apply (bool_decide_unpack _). vm_compute. reflexivity.
  - reflexivity.
  - apply (bool_decide_unpack _). vm_compute. reflexivity.
  - intros f [->|[->|[]%elem_of_nil]%elem_of_cons]%elem_of_cons.
    + exists (JStr "a"). split; [reflexivity|]. split; [discriminate|].
      vm_compute. reflexivity.
    + exists (JStr "b"). split; [reflexivity|]. split; [discriminate|].
      vm_compute. reflexivity.
Defined.

(* ===================================================================== *)
(** * [DatabaseClient]: what each method does to the world                *)
(* ===================================================================== *)

Section ClientFacts.

Context (P : Platform).

Lemma log_eq (e : event) (w : World) :
  log e w = (inr tt, set_trace (w_trace w ++ [e]) w).
Proof. reflexivity. Qed.

Lemma set_redis_same (w : World) (r : Redis) :
  w_redis w = Some r ->
  redis_error r = None ->
  set_redis (Some {| redis_data := redis_data r; redis_error := None |}) w = w.
Proof. destruct w, r; cbn. by intros [= ->] ->. Qed.

Lemma cacheGet_eq (key : string) (w : World) :
  cacheGet P key w
  = (inr (cached_value P w key), set_trace (w_trace w ++ [EvCacheGet key]) w).
Proof.
  unfold cacheGet, cached_value, cache_lookup, try_catch, bind, log,
    JSON_parse_or_throw, redis_command, ret, throw. cbn.
  destruct (w_useInMemoryCache w).
  - destruct (w_inMemoryCache w !! key) as [s|]; [|done].
    destruct (String.eqb s EmptyString); [done|].
    by destruct (JSON_parse P s).
  - destruct (w_redis w) as [r|] eqn:Hr; [|done]. cbn.
    destruct (redis_error r) eqn:He; [done|]. cbn.
    assert (set_redis (Some {| redis_data := redis_data r; redis_error := None |})
              (set_trace (w_trace w ++ [EvCacheGet key]) w)
            = set_trace (w_trace w ++ [EvCacheGet key]) w) as ->
      by by apply set_redis_same.
    destruct (redis_data r !! key) as [s|]; [|done].
    destruct (String.eqb s EmptyString); [done|].
    by destruct (JSON_parse P s).
Qed.

Lemma cacheSet_eq (key : string) (value : json) (ttl : option nat) (w : World) :
  cacheSet P key value ttl w
  = (inr tt, cache_write (base.insert key (JSON_stringify P value))
               (set_trace (w_trace w ++ [EvCacheSet key]) w)).
Proof.
  unfold cacheSet, cache_write, try_catch, bind, log, redis_command, ret. cbn.
  destruct (w_useInMemoryCache w); [done|].
  destruct (w_redis w) as [r|]; [|done]. cbn.
  by destruct (redis_error r).
Qed.

Lemma cacheDelete_eq (key : string) (w : World) :
  cacheDelete key w
  = (inr tt, cache_write (delete key)
               (set_trace (w_trace w ++ [EvCacheDelete key]) w)).
Proof.
  unfold cacheDelete, cache_write, try_catch, bind, log, redis_command, ret. cbn.
  destruct (w_useInMemoryCache w); [done|].
  destruct (w_redis w) as [r|]; [|done]. cbn.
  by destruct (redis_error r).
Qed.

Lemma cache_lookup_delete (key : string) (w : World) :
  cache_lookup (cache_write (delete key) w) key = None.
Proof.
  unfold cache_lookup, cache_write.
  destruct (w_useInMemoryCache w) eqn:Hm; cbn.
  - rewrite Hm. apply lookup_delete_eq.
  - destruct (w_redis w) as [r|] eqn:Hr; cbn; rewrite ?Hm, ?Hr; [|done].
    destruct (redis_error r) eqn:He; cbn; rewrite ?Hm, ?Hr, ?He; cbn; [done|].
    apply lookup_delete_eq.
Qed.

Lemma insert_eq (tbl : string) (data : obj) (w : World) :
  insert tbl data w =
  match w_db_error w !! tbl with
  | Some msg =>
      (inl (DatabaseError ("Insert failed: " +:+ msg)),
       set_trace (w_trace w ++ [EvDbInsert tbl data]) w)
  | None =>
      (inr data,
       set_tables (<[tbl := table w tbl ++ [data]]> (w_tables w))
         (set_trace (w_trace w ++ [EvDbInsert tbl data]) w))
  end.
Proof.
  unfold insert, bind, log, supabase. cbn. by destruct (w_db_error w !! tbl).
Qed.

Lemma findById_eq (tbl id : string) (w : World) :
  findById tbl id w =
  match w_db_error w !! tbl with
  | Some msg =>
      (inl (DatabaseError ("FindById failed: " +:+ msg)),
       set_trace (w_trace w ++ [EvDbSelect tbl]) w)
  | None =>
      (inr (match List.filter (eq_filter "id" id) (table w tbl) with
            | [row] => Some row
            | _ => None
            end),
       set_trace (w_trace w ++ [EvDbSelect tbl]) w)
  end.
Proof.
  unfold findById, bind, log, supabase. cbn.
  destruct (w_db_error w !! tbl); [done|].
  change (table (set_trace (w_trace w ++ [EvDbSelect tbl]) w) tbl) with (table w tbl).
  by destruct (List.filter _ _) as [|? [|? ?]].
Qed.

Lemma findByUserAndWorkspace_eq (tbl userId workspaceId : string) (w : World) :
  findByUserAndWorkspace tbl userId workspaceId w =
  match w_db_error w !! tbl with
  | Some msg =>
      (inl (DatabaseError ("FindByUserAndWorkspace failed: " +:+ msg)),
       set_trace (w_trace w ++ [EvDbSelect tbl]) w)
  | None =>
      (inr (List.filter
              (fun r => eq_filter "user_id" userId r
                        && eq_filter "workspace_id" workspaceId r)
              (table w tbl)),
       set_trace (w_trace w ++ [EvDbSelect tbl]) w)
  end.
Proof.
  unfold findByUserAndWorkspace, bind, log, supabase. cbn.
  by destruct (w_db_error w !! tbl).
Qed.

(** A successful [update] touched exactly one row. *)
Lemma update_inr (tbl id : string) (data row' : obj) (w w' : World) :
  update tbl id data w = (inr row', w') ->
  w_db_error w !! tbl = None /\
  w' = set_tables
         (<[tbl := List.map (fun r => if eq_filter "id" id r
                                      then merge_row r data else r)
                            (table w tbl)]> (w_tables w))
         (set_trace (w_trace w ++ [EvDbUpdate tbl id data]) w).
Proof.
  unfold update, bind, log, supabase. cbn.
  destruct (w_db_error w !! tbl); [done|].
  change (table (set_trace (w_trace w ++ [EvDbUpdate tbl id data]) w) tbl)
    with (table w tbl).
  destruct (List.filter _ _) as [|? [|? ?]]; [done| |done].
  by intros [= <- <-].
Qed.

End ClientFacts.

Arguments cacheGet : simpl never.
Arguments cacheSet : simpl never.
Arguments cacheDelete : simpl never.
Arguments insert : simpl never.
Arguments update : simpl never.
Arguments findById : simpl never.
Arguments findByUserAndWorkspace : simpl never.
Arguments encrypt : simpl never.
Arguments decrypt : simpl never.
Arguments encryptObject : simpl never.
Arguments getSecretContext : simpl never.
Arguments saveSecretContext : simpl never.
Arguments createAuditLog : simpl never.
Arguments createEmptySecretContext : simpl never.

Section ServiceFacts.

Context (P : Platform) (encryption : EncryptionService P).

Lemma getSecretContext_eq (workspaceId userId : string) (w : World) :
  getSecretContext P workspaceId userId w =
  let key := context_key workspaceId userId in
  if truthy (cached_value P w key) then
    (inr (cached_value P w key), set_trace (w_trace w ++ [EvCacheGet key]) w)
  else
    match w_db_error w !! "secret_contexts" with
    | Some msg =>
        (inl (DatabaseError ("FindByUserAndWorkspace failed: " +:+ msg)),
         set_trace ((w_trace w ++ [EvCacheGet key]) ++ [EvDbSelect "secret_contexts"]) w)
    | None =>
        match context_rows w workspaceId userId with
        | row :: _ =>
            (inr (JObj row),
             cache_write (base.insert key (JSON_stringify P (JObj row)))
               (set_trace (((w_trace w ++ [EvCacheGet key])
                            ++ [EvDbSelect "secret_contexts"])
                           ++ [EvCacheSet key]) w))
        | [] =>
            (inr JNull,
             set_trace ((w_trace w ++ [EvCacheGet key])
                        ++ [EvDbSelect "secret_contexts"]) w)
        end
    end.
Proof.
  unfold getSecretContext. fold (context_key workspaceId userId).
  erewrite bind_eq by apply cacheGet_eq. cbn zeta.
  destruct (truthy (cached_value P w _)); [done|].
  unfold bind at 1. rewrite findByUserAndWorkspace_eq. cbn.
  destruct (w_db_error w !! "secret_contexts"); [done|].
  unfold context_rows.
  change (table (set_trace (w_trace w ++ [EvCacheGet (context_key workspaceId userId)]) w)
            "secret_contexts") with (table w "secret_contexts").
  destruct (List.filter _ _) as [|row rows]; [done|].
  by erewrite bind_eq by apply cacheSet_eq.
Qed.

(** A successful [getSecretContext] returns [lookup_context], draws
    nothing, leaves the row store alone, issues look-up calls only and
    changes the cache at most by filling the entry of the identity with
    the stored row. *)
Lemma getSecretContext_inr (workspaceId userId : string) (ctx : json)
    (w w' : World) :
  getSecretContext P workspaceId userId w = (inr ctx, w') ->
  ctx = lookup_context P w workspaceId userId /\
  w_calls w' = w_calls w /\
  store_of w' = store_of w /\
  (exists pre, w_trace w' = w_trace w ++ pre /\ forallb is_lookup pre = true) /\
  (cache_of w' = cache_of w \/
   exists row,
     ctx = JObj row /\
     truthy (cached_value P w (context_key workspaceId userId)) = false /\
     context_rows w workspaceId userId !! 0%nat = Some row /\
     cache_of w' = cache_of (cache_write
                               (base.insert (context_key workspaceId userId)
                                            (JSON_stringify P (JObj row))) w)).
Proof.
  rewrite getSecretContext_eq. unfold lookup_context. cbn zeta.
  destruct (truthy (cached_value P w _)) eqn:Hc.
  - intros [= <- <-]. repeat split; try done; [|by left].
    by exists [EvCacheGet (context_key workspaceId userId)].
  - destruct (w_db_error w !! "secret_contexts") eqn:Hdb; [done|].
    destruct (context_rows w workspaceId userId) as [|row rows] eqn:Hrows.
    + intros [= <- <-]. repeat split; try done; [|by left].
      exists [EvCacheGet (context_key workspaceId userId); EvDbSelect "secret_contexts"].
      cbn. by rewrite <- app_assoc.
    + intros [= <- <-]. split; [done|].
      assert (forall f w0, store_of (cache_write f w0) = store_of w0
                           /\ w_calls (cache_write f w0) = w_calls w0
                           /\ w_trace (cache_write f w0) = w_trace w0) as Hcw.
      { intros f w0. unfold cache_write.
        destruct (w_useInMemoryCache w0); [done|].
        destruct (w_redis w0) as [r|]; [|done]. by destruct (redis_error r). }
      destruct (Hcw (base.insert (context_key workspaceId userId)
                       (JSON_stringify P (JObj row)))
                  (set_trace (((w_trace w ++ [EvCacheGet (context_key workspaceId userId)])
                               ++ [EvDbSelect "secret_contexts"])
                              ++ [EvCacheSet (context_key workspaceId userId)]) w))
        as (Hs & Hn & Ht).
      rewrite Hs, Hn, Ht. repeat split; try done.
      * exists [EvCacheGet (context_key workspaceId userId);
                EvDbSelect "secret_contexts";
                EvCacheSet (context_key workspaceId userId)].
        cbn. by rewrite <- !app_assoc.
      * right. exists row. repeat split; try done.
        unfold cache_of, cache_write. cbn.
        destruct (w_useInMemoryCache w); [done|].
        destruct (w_redis w) as [r|]; [|done]. by destruct (redis_error r).
Qed.

End ServiceFacts.

Section PersistFacts.

Context (P : Platform) (encryption : EncryptionService P).

Abbreviation ef := "_encrypted_fields".
Abbreviation sc := "secret_contexts".

Lemma encrypt_inr (plaintext : string) (expiresAt : option Z) (w : World) :
  exists e,
    encrypt P encryption plaintext expiresAt w
    = (inr e, set_calls (S (S (w_calls w))) w) /\
    (expiresAt = None -> sealed P encryption plaintext e) /\
    obj_get e "credential_type" = None /\ obj_get e "provider" = None /\
    obj_get e "metadata" = None.
Proof.
  rewrite encrypt_eq. cbn zeta.
  destruct (cipher P algorithm (key P encryption) (randomBytes P (w_calls w) 12)
              (list_byte_of_string plaintext)) as [c t] eqn:Hc.
  eexists. split; [reflexivity|]. split.
  - intros ->. by eexists _, _, _, _.
  - by destruct expiresAt.
Qed.

(** [encryptObject] on any object, for field names other than the
    bookkeeping one: it never throws, only draws from the runtime, leaves
    the properties it was not asked to encrypt as they are and seals the
    plaintext of each named property that is present and not [null]. *)
Lemma encryptObject_loop_get (o : obj) (fields : list string) (result : obj)
    (names : list json) (w : World) :
  ef ∉ fields ->
  obj_get result ef = Some (JArr names) ->
  exists result' names' n,
    encryptObject_loop P encryption o fields None result w
    = (inr result', set_calls (n + w_calls w) w) /\
    obj_get result' ef = Some (JArr names') /\
    (forall k, k ∉ fields -> k <> ef -> obj_get result' k = obj_get result k) /\
    (forall f, f ∈ fields ->
       if defined_and_not_null (obj_get o f)
       then exists e, obj_get result' f = Some (JObj e) /\
                      sealed P encryption (field_plaintext P (or_null (obj_get o f))) e
       else obj_get result' f = obj_get result f).
Proof.
  revert result names w.
  induction fields as [|f fields IH]; intros result names w Hef Hnames.
  - exists result, names, 0%nat. split; [by destruct w|]. split; [done|].
    split; [done|]. by intros f ?%elem_of_nil.
  - apply not_elem_of_cons in Hef as [Hne Hef].
    cbn [encryptObject_loop].
    destruct (defined_and_not_null (obj_get o f)) eqn:Hdef.
    + destruct (encrypt_inr (field_plaintext P (or_null (obj_get o f))) None w)
        as (e & Henc & Hsealed & _).
      specialize (Hsealed eq_refl).
      erewrite bind_eq by exact Henc.
      unfold push_field. rewrite obj_get_set_ne by done. rewrite Hnames.
      erewrite bind_eq by reflexivity.
      destruct (IH (obj_set (obj_set result f (JObj e)) ef (JArr (names ++ [JStr f])))
                  (names ++ [JStr f]) (set_calls (S (S (w_calls w))) w) Hef)
        as (result' & names' & n & Hloop & Hnames' & Hout & Hin).
      { apply obj_get_set_eq. }
      exists result', names', (n + 2)%nat. split.
      { rewrite Hloop. f_equal. cbn. unfold set_calls. cbn. f_equal. lia. }
      split; [done|]. split.
      * intros k [Hk1 Hk2]%not_elem_of_cons Hk3. rewrite Hout by done.
        rewrite obj_get_set_ne by done. by rewrite obj_get_set_ne.
      * intros f' Hf'. destruct (decide (f' ∈ fields)) as [Hrest|Hrest].
        -- specialize (Hin f' Hrest).
           destruct (defined_and_not_null (obj_get o f')) eqn:Hdef'; [done|].
           rewrite Hin. assert (f' <> f) as Hff by (intros ->; congruence).
           assert (f' <> ef) as Hfe by (intros ->; done).
           rewrite obj_get_set_ne by done. by rewrite obj_get_set_ne.
        -- apply elem_of_cons in Hf' as [->|]; [|done]. rewrite Hdef.
           exists e. split; [|done]. rewrite Hout by done.
           rewrite obj_get_set_ne by done. apply obj_get_set_eq.
    + destruct (IH result names w Hef Hnames)
        as (result' & names' & n & Hloop & Hnames' & Hout & Hin).
      exists result', names', n. split; [done|]. split; [done|]. split.
      * intros k [Hk1 Hk2]%not_elem_of_cons Hk3. by apply Hout.
      * intros f' Hf'. destruct (decide (f' ∈ fields)) as [Hrest|Hrest];
          [by apply Hin|].
        apply elem_of_cons in Hf' as [->|]; [|done]. rewrite Hdef.
        apply Hout; [done|]. by intros ->.
Qed.

Lemma encryptObject_inr (o : obj) (fields : list string) (w : World) :
  ef ∉ fields ->
  exists enc n,
    encryptObject P encryption o fields None w
    = (inr enc, set_calls (n + w_calls w) w) /\
    (forall k, k ∉ fields -> k <> ef -> obj_get enc k = obj_get o k) /\
    (forall f, f ∈ fields ->
       if defined_and_not_null (obj_get o f)
       then exists e, obj_get enc f = Some (JObj e) /\
                      sealed P encryption (field_plaintext P (or_null (obj_get o f))) e
       else obj_get enc f = obj_get o f).
Proof.
  intros Hef. unfold encryptObject.
  destruct (encryptObject_loop_get o fields (obj_set o ef (JArr [])) [] w Hef)
    as (enc & names & n & Hloop & _ & Hout & Hin); [apply obj_get_set_eq|].
  exists enc, n. split; [done|]. split.
  - intros k Hk Hne. rewrite Hout by done. by apply obj_get_set_ne.
  - intros f Hf. specialize (Hin f Hf).
    destruct (defined_and_not_null (obj_get o f)); [done|].
    rewrite Hin. apply obj_get_set_ne. by intros <-.
Qed.

Lemma createEmptySecretContext_eq (workspaceId userId : string) (w : World) :
  createEmptySecretContext P workspaceId userId w
  = (inr (JObj (empty_context P (randomUUID P (w_calls w)) workspaceId userId
                  (Date_now P (S (w_calls w))) (Date_now P (S (S (w_calls w)))))),
     set_calls (S (S (S (w_calls w)))) w).
Proof. reflexivity. Qed.

Lemma Date_new_eq (w : World) :
  Date_new P w = (inr (Date_now P (w_calls w)), set_calls (S (w_calls w)) w).
Proof. reflexivity. Qed.

(** [createAuditLog] never throws: it draws an id and a timestamp, calls
    the row store and appends the entry unless the store rejects it. *)
Lemma createAuditLog_eq (logData : AuditLogData) (w : World) :
  createAuditLog P logData w =
  let row := auditLog_of P logData (randomUUID P (w_calls w))
                         (Date_now P (S (w_calls w))) in
  let w1 := set_trace (w_trace w ++ [EvDbInsert "audit_logs" row])
                      (set_calls (S (S (w_calls w))) w) in
  (inr tt,
   match w_db_error w !! "audit_logs" with
   | Some _ => w1
   | None => set_tables (<["audit_logs" := table w "audit_logs" ++ [row]]> (w_tables w)) w1
   end).
Proof.
  unfold createAuditLog, crypto_randomUUID, Date_new, draw, bind at 1 2 3 4, ret.
  cbn. unfold try_catch, bind. rewrite insert_eq. cbn.
  by destruct (w_db_error w !! "audit_logs").
Qed.

(** A successful [saveSecretContext]: the context is an object with a
    string id; the document handed to the row store is its
    [encryptObject]; it is inserted when no single row has the id and
    merged into that row otherwise. *)
Lemma saveSecretContext_inr (secretContext : json) (w w' : World) :
  saveSecretContext P encryption secretContext w = (inr tt, w') ->
  exists c id enc n,
    secretContext = JObj c /\
    obj_get c "id" = Some (JStr id) /\
    encryptObject P encryption c ["credentials"; "ssh_keys"; "certificates"] None w
    = (inr enc, set_calls (n + w_calls w) w) /\
    w_db_error w !! sc = None /\
    ((w' = set_tables (<[sc := table w sc ++ [enc]]> (w_tables w))
             (set_trace ((w_trace w ++ [EvDbSelect sc]) ++ [EvDbInsert sc enc])
                (set_calls (n + w_calls w) w))) \/
     ((exists row, List.filter (eq_filter "id" id) (table w sc) = [row]) /\
      w' = set_tables
             (<[sc := List.map (fun r => if eq_filter "id" id r
                                         then merge_row r enc else r)
                               (table w sc)]> (w_tables w))
             (set_trace ((w_trace w ++ [EvDbSelect sc]) ++ [EvDbUpdate sc id enc])
                (set_calls (n + w_calls w) w)))).
Proof.
  unfold saveSecretContext. destruct secretContext as [| | | | |c]; try done.
  destruct (encryptObject_inr c ["credentials"; "ssh_keys"; "certificates"] w)
    as (enc & n & Henc & _).
  { rewrite !not_elem_of_cons. repeat split; try done. apply not_elem_of_nil. }
  erewrite bind_eq by exact Henc.
  unfold row_id. destruct (obj_get c "id") as [[| | |id| |]|] eqn:Hid; try done.
  erewrite bind_eq by reflexivity.
  unfold bind at 1. rewrite findById_eq. cbn.
  destruct (w_db_error w !! sc) eqn:Hdb; [done|].
  change (table (set_calls (n + w_calls w) w) sc) with (table w sc).
  intros Hsave. exists c, id, enc, n. repeat split; try done.
  destruct (match List.filter (eq_filter "id" id) (table w sc) with
            | [row] => Some row
            | _ => None
            end) as [row|] eqn:Hfound.
  - right. apply bind_inr in Hsave as (row' & w1 & Hup & [= <-]).
    apply update_inr in Hup as [_ ->]. split; [|done].
    destruct (List.filter (eq_filter "id" id) (table w sc)) as [|r [|? ?]];
      try done. by exists r.
  - left. apply bind_inr in Hsave as (row' & w1 & Hins & [= <-]).
    rewrite insert_eq in Hins. cbn in Hins. rewrite Hdb in Hins.
    by injection Hins as _ <-.
Qed.

End PersistFacts.

Section WritePath.

Context (P : Platform) (encryption : EncryptionService P).

Abbreviation ef := "_encrypted_fields".
Abbreviation sc := "secret_contexts".

Lemma storeCredential_write_path
    (workspaceId userId key value credentialType provider : string)
    (expiresAt : option Z) :
  storeCredential P encryption workspaceId userId key value credentialType
    provider expiresAt
  = write_path P encryption workspaceId userId "credentials" key value expiresAt
      (credential_entry userId key credentialType provider)
      (credential_log P workspaceId userId key value).
Proof. reflexivity. Qed.

Lemma storeSSHKey_write_path
    (workspaceId userId keyName privateKey publicKey keyType : string)
    (metadata : option json) :
  storeSSHKey P encryption workspaceId userId keyName privateKey publicKey
    keyType metadata
  = write_path P encryption workspaceId userId "ssh_keys" keyName privateKey None
      (ssh_key_entry P encryption publicKey keyType metadata)
      (ssh_key_log workspaceId userId keyName).
Proof. reflexivity. Qed.

Lemma cache_write_frame (f : gmap string string -> gmap string string) (w : World) :
  store_of (cache_write f w) = store_of w /\
  w_calls (cache_write f w) = w_calls w /\
  w_trace (cache_write f w) = w_trace w.
Proof.
  unfold cache_write. destruct (w_useInMemoryCache w); [done|].
  destruct (w_redis w) as [r|]; [|done]. by destruct (redis_error r).
Qed.

Lemma table_store_of (w w' : World) (tbl : string) :
  store_of w' = store_of w -> table w' tbl = table w tbl.
Proof. unfold store_of, table. by intros [= -> _]. Qed.

(** The common end of every mutation: persist the context, audit,
    invalidate. *)
Lemma persist_audit_invalidate (secretContext : json) (logData : AuditLogData)
    (key : string) (w w1 w2 w' : World) :
  saveSecretContext P encryption secretContext w = (inr tt, w1) ->
  createAuditLog P logData w1 = (inr tt, w2) ->
  cacheDelete key w2 = (inr tt, w') ->
  exists (c enc auditLog : obj) (id : string) (write : event),
    secretContext = JObj c /\
    obj_get c "id" = Some (JStr id) /\
    (forall k, k ∉ sealed_maps -> k <> ef -> obj_get enc k = obj_get c k) /\
    (forall f, f ∈ sealed_maps ->
       if defined_and_not_null (obj_get c f)
       then exists s, obj_get enc f = Some (JObj s) /\
                      sealed P encryption (field_plaintext P (or_null (obj_get c f))) s
       else obj_get enc f = obj_get c f) /\
    w_db_error w !! sc = None /\
    (write = EvDbInsert sc enc /\ table w' sc = table w sc ++ [enc] \/
     write = EvDbUpdate sc id enc /\
     (exists row, List.filter (eq_filter "id" id) (table w sc) = [row]) /\
     table w' sc = List.map (fun r => if eq_filter "id" id r
                                      then merge_row r enc else r) (table w sc)) /\
    w_trace w' = w_trace w
                 ++ [EvDbSelect sc; write; EvDbInsert "audit_logs" auditLog;
                     EvCacheDelete key] /\
    (exists id1 at1, auditLog = auditLog_of P logData id1 at1) /\
    (w_db_error w !! "audit_logs" = None ->
     table w' "audit_logs" = table w "audit_logs" ++ [auditLog]) /\
    w_db_error w' = w_db_error w /\
    cache_lookup w' key = None.
Proof.
  intros Hsave Haudit Hdel.
  apply saveSecretContext_inr in Hsave
    as (c & id & enc & n & -> & Hid & Henc & Hdb & Hw1).
  destruct (encryptObject_inr P encryption c sealed_maps w)
    as (enc' & n' & Henc' & Hout & Hin).
  { unfold sealed_maps. rewrite !not_elem_of_cons. repeat split; try done.
    apply not_elem_of_nil. }
  unfold sealed_maps in Henc' at 1. rewrite Henc in Henc'. injection Henc' as <- _.
  rewrite createAuditLog_eq in Haudit. injection Haudit as <-.
  rewrite cacheDelete_eq in Hdel. injection Hdel as <-.
  pose proof (cache_write_frame (delete key)) as Hcw.
  destruct Hw1 as [-> | [Hrow ->]];
    [ exists c, enc,
        (auditLog_of P logData (randomUUID P (n + w_calls w))
           (Date_now P (S (n + w_calls w)))), id, (EvDbInsert sc enc)
    | exists c, enc,
        (auditLog_of P logData (randomUUID P (n + w_calls w))
           (Date_now P (S (n + w_calls w)))), id, (EvDbUpdate sc id enc) ];
    (split; [done|]; split; [done|]; split; [done|]; split; [done|];
     split; [done|]; cbn; split;
     [ first [left; split; [done|] | right; split; [done|]; split; [done|]];
       match goal with |- table (cache_write ?f ?w0) _ = _ =>
         rewrite (table_store_of _ _ sc (proj1 (Hcw w0))) end;
       unfold table at 1; cbn;
       destruct (w_db_error w !! "audit_logs");
       cbn; rewrite ?lookup_insert_ne by done; by rewrite lookup_insert_eq
     | split;
       [ match goal with |- w_trace (cache_write ?f ?w0) = _ =>
           rewrite (proj2 (proj2 (Hcw w0))) end;
         cbn; destruct (w_db_error w !! "audit_logs"); cbn;
         by rewrite <- !app_assoc
       | split; [by eexists _, _|];
         split;
         [ intros Haud;
           match goal with |- table (cache_write ?f ?w0) _ = _ =>
             rewrite (table_store_of _ _ "audit_logs" (proj1 (Hcw w0))) end;
           rewrite Haud; unfold table at 1; cbn; rewrite lookup_insert_eq; cbn;
           f_equal; unfold table; cbn; by rewrite lookup_insert_ne
         | split;
           [ match goal with |- w_db_error (cache_write ?f ?w0) = _ =>
               pose proof (proj1 (Hcw w0)) as Hs end;
             injection Hs as _ ->; by destruct (w_db_error w !! "audit_logs")
           | apply cache_lookup_delete ] ] ] ]).
Qed.

(** Everything a successful run of the write path did. *)
Lemma write_path_inr (workspaceId userId map key plaintext : string)
    (expiresAt : option Z) (decorate : obj -> obj) (logData : AuditLogData)
    (w w' : World) :
  write_path P encryption workspaceId userId map key plaintext expiresAt
    decorate logData w = (inr tt, w') ->
  exists (e c m c' enc auditLog : obj) (id : string) (now : Z)
         (pre : list event) (write : event),
    (* the envelope of the payload *)
    fst (encrypt P encryption plaintext expiresAt w) = inr e /\
    (* the context: the one found, or a fresh one *)
    (if truthy (lookup_context P w workspaceId userId)
     then lookup_context P w workspaceId userId = JObj c
     else exists created updated,
            c = empty_context P (randomUUID P (S (S (w_calls w))))
                  workspaceId userId created updated) /\
    obj_get c map = Some (JObj m) /\
    c' = obj_set (obj_set c map (JObj (obj_set m key (JObj (decorate e)))))
           "updated_at" (JStr (toISOString P now)) /\
    (* the document handed to the row store *)
    obj_get c' "id" = Some (JStr id) /\
    (forall k, k ∉ sealed_maps -> k <> ef -> obj_get enc k = obj_get c' k) /\
    (forall f, f ∈ sealed_maps ->
       if defined_and_not_null (obj_get c' f)
       then exists s, obj_get enc f = Some (JObj s) /\
                      sealed P encryption (field_plaintext P (or_null (obj_get c' f))) s
       else obj_get enc f = obj_get c' f) /\
    w_db_error w !! sc = None /\
    (write = EvDbInsert sc enc /\ table w' sc = table w sc ++ [enc] \/
     write = EvDbUpdate sc id enc /\
     (exists row, List.filter (eq_filter "id" id) (table w sc) = [row]) /\
     table w' sc = List.map (fun r => if eq_filter "id" id r
                                      then merge_row r enc else r) (table w sc)) /\
    (* the calls, in order *)
    w_trace w' = w_trace w ++ pre
                 ++ [write; EvDbInsert "audit_logs" auditLog;
                     EvCacheDelete (context_key workspaceId userId)] /\
    forallb is_lookup pre = true /\
    (* the audit entry *)
    (exists id1 at1, auditLog = auditLog_of P logData id1 at1) /\
    (w_db_error w !! "audit_logs" = None ->
     table w' "audit_logs" = table w "audit_logs" ++ [auditLog]) /\
    (* the row store keeps its mode, the cache entry is gone *)
    w_db_error w' = w_db_error w /\
    cache_lookup w' (context_key workspaceId userId) = None.
Proof.
  unfold write_path. intros H.
  destruct (encrypt_inr P encryption plaintext expiresAt w) as (e & He & _).
  erewrite bind_eq in H by exact He.
  apply bind_inr in H as (loaded & w2 & Hload & H).
  apply getSecretContext_inr in Hload
    as (Hloaded & Hcalls2 & Hstore2 & (pre & Htr2 & Hpre) & _).
  change (lookup_context P (set_calls (S (S (w_calls w))) w) workspaceId userId)
    with (lookup_context P w workspaceId userId) in Hloaded.
  cbn in Hcalls2, Htr2.
  change (store_of (set_calls (S (S (w_calls w))) w)) with (store_of w) in Hstore2.
  apply bind_inr in H as (ctx0 & w3 & Hctx0 & H).
  assert (store_of w3 = store_of w /\ w_trace w3 = w_trace w ++ pre /\
          if truthy (lookup_context P w workspaceId userId)
          then ctx0 = lookup_context P w workspaceId userId
          else exists created updated,
                 ctx0 = JObj (empty_context P (randomUUID P (S (S (w_calls w))))
                                workspaceId userId created updated))
    as (Hstore3 & Htr3 & Hctx).
  { rewrite <- Hloaded. destruct (truthy loaded).
    - by injection Hctx0 as <- <-.
    - rewrite createEmptySecretContext_eq in Hctx0. injection Hctx0 as <- <-.
      repeat split; try done. rewrite Hcalls2. by eexists _, _. }
  clear Hctx0 Hloaded.
  apply bind_inr in H as (ctx1 & w4 & Hassign & H).
  unfold assign_entry in Hassign.
  destruct ctx0 as [| | | | |c]; try done.
  destruct (obj_get c map) as [[| | | | |m]|] eqn:Hmap; try done.
  injection Hassign as <- <-.
  apply bind_inr in H as (now & w5 & Hnow & H).
  rewrite Date_new_eq in Hnow. injection Hnow as <- <-.
  erewrite bind_eq in H by reflexivity.
  apply bind_inr in H as ([] & w7 & Hsave & H).
  apply bind_inr in H as ([] & w8 & Haudit & H).
  fold (context_key workspaceId userId) in H.
  destruct (persist_audit_invalidate _ _ _ _ _ _ _ Hsave Haudit H)
    as (c' & enc & auditLog & id & write & Hc' & Hid & Hout & Hin & Hdb & Hwrite
        & Htrace & Hlog & Haud & Hdb' & Hcache).
  injection Hc' as <-.
  assert (table w3 sc = table w sc) as Htab3 by by apply table_store_of.
  assert (w_db_error w3 = w_db_error w) as Hdb3 by (by injection Hstore3).
  assert (table w3 "audit_logs" = table w "audit_logs") as Haud3
    by by apply table_store_of.
  change (table (set_calls (S (w_calls w3)) w3)) with (table w3) in *.
  cbn [w_db_error w_trace set_calls] in *.
  rewrite Htab3 in Hwrite. rewrite Hdb3 in *. rewrite Haud3 in Haud.
  exists e, c, m,
    (obj_set (obj_set c map (JObj (obj_set m key (JObj (decorate e)))))
       "updated_at" (JStr (toISOString P (Date_now P (w_calls w3))))),
    enc, auditLog, id, (Date_now P (w_calls w3)),
    (pre ++ [EvDbSelect sc]), write.
  split; [by rewrite He|]. split.
  { destruct (truthy (lookup_context P w workspaceId userId)).
    - by rewrite <- Hctx.
    - destruct Hctx as (created & updated & [= ->]). by eexists _, _. }
  split; [done|]. split; [reflexivity|]. split; [done|].
  split; [done|]. split; [done|]. split; [done|]. split; [done|]. split.
  { rewrite Htrace, Htr3, <- !app_assoc. reflexivity. }
  split; [by rewrite forallb_app, Hpre|]. done.
Qed.

End WritePath.

Section WriteClaims.

Context (P : Platform) (encryption : EncryptionService P).

Abbreviation ef := "_encrypted_fields".
Abbreviation sc := "secret_contexts".

(** The fields of an audit entry. *)
Lemma auditLog_of_get (logData : AuditLogData) (id : string) (now : Z) :
  obj_get (auditLog_of P logData id now) "operation"
  = Some (JStr (log_operation logData)) /\
  obj_get (auditLog_of P logData id now) "resource_key"
  = Some (JStr (log_resource_key logData)) /\
  obj_get (auditLog_of P logData id now) "status"
  = Some (JStr (log_status logData)) /\
  obj_get (auditLog_of P logData id now) "old_value_hash"
  = JStr <$> log_old_value_hash logData /\
  obj_get (auditLog_of P logData id now) "new_value_hash"
  = JStr <$> log_new_value_hash logData.
Proof.
  unfold auditLog_of, with_optional.
  by destruct (log_old_value_hash logData), (log_new_value_hash logData),
    (log_error_message logData).
Qed.

(** C3 — the audit entry of the write path.  Every successful
    [storeCredential] appends, when the audit table accepts it, one entry
    whose [new_value_hash] is the hash of the plaintext value; every
    successful [storeSSHKey] appends one entry as well, but that entry has
    no [new_value_hash] at all — the hash of the private key that the
    claim requires is never computed. *)
Theorem C3_audit_entry_of_write_path :
  (forall workspaceId userId key value credentialType provider expiresAt w w',
      storeCredential P encryption workspaceId userId key value credentialType
        provider expiresAt w = (inr tt, w') ->
      w_db_error w !! "audit_logs" = None ->
      exists entry,
        table w' "audit_logs" = table w "audit_logs" ++ [entry] /\
        obj_get entry "operation" = Some (JStr "store_credential") /\
        obj_get entry "resource_key" = Some (JStr key) /\
        obj_get entry "new_value_hash" = Some (JStr (hash P value))) /\
  (forall workspaceId userId keyName privateKey publicKey keyType metadata w w',
      storeSSHKey P encryption workspaceId userId keyName privateKey publicKey
        keyType metadata w = (inr tt, w') ->
      w_db_error w !! "audit_logs" = None ->
      exists entry,
        table w' "audit_logs" = table w "audit_logs" ++ [entry] /\
        obj_get entry "operation" = Some (JStr "store_ssh_key") /\
        obj_get entry "resource_key" = Some (JStr keyName) /\
        obj_get entry "new_value_hash" = None).
Proof.
  split.
  - intros workspaceId userId key value credentialType provider expiresAt w w' H Hdb.
    rewrite storeCredential_write_path in H.
    apply write_path_inr in H
      as (e & c & m & c' & enc & auditLog & id & now & pre & write & _ & _ & _ & _
          & _ & _ & _ & _ & _ & _ & _ & (id1 & at1 & ->) & Haudit & _).
    exists (auditLog_of P (credential_log P workspaceId userId key value) id1 at1).
    split; [by apply Haudit|].
    by destruct (auditLog_of_get (credential_log P workspaceId userId key value)
                   id1 at1) as (-> & -> & _ & _ & ->).
  - intros workspaceId userId keyName privateKey publicKey keyType metadata w w' H Hdb.
    rewrite storeSSHKey_write_path in H.
    apply write_path_inr in H
      as (e & c & m & c' & enc & auditLog & id & now & pre & write & _ & _ & _ & _
          & _ & _ & _ & _ & _ & _ & _ & (id1 & at1 & ->) & Haudit & _).
    exists (auditLog_of P (ssh_key_log workspaceId userId keyName) id1 at1).
    split; [by apply Haudit|].
    by destruct (auditLog_of_get (ssh_key_log workspaceId userId keyName)
                   id1 at1) as (-> & -> & _ & _ & ->).
Qed.

(** C4 — the order of the write path, as the code has it.  Every
    successful [storeCredential] and [storeSSHKey] first only looks the
    context up, then writes the context row, then calls the audit insert,
    and invalidates the cache entry of the identity last. *)
Theorem C4_persist_audit_invalidate :
  (forall workspaceId userId key value credentialType provider expiresAt w w',
      storeCredential P encryption workspaceId userId key value credentialType
        provider expiresAt w = (inr tt, w') ->
      exists pre write auditLog,
        w_trace w' = w_trace w ++ pre
                     ++ [write; EvDbInsert "audit_logs" auditLog;
                         EvCacheDelete (context_key workspaceId userId)] /\
        forallb is_lookup pre = true /\
        is_write_to sc write = true) /\
  (forall workspaceId userId keyName privateKey publicKey keyType metadata w w',
      storeSSHKey P encryption workspaceId userId keyName privateKey publicKey
        keyType metadata w = (inr tt, w') ->
      exists pre write auditLog,
        w_trace w' = w_trace w ++ pre
                     ++ [write; EvDbInsert "audit_logs" auditLog;
                         EvCacheDelete (context_key workspaceId userId)] /\
        forallb is_lookup pre = true /\
        is_write_to sc write = true).
Proof.
  split.
  - intros workspaceId userId key value credentialType provider expiresAt w w' H.
    rewrite storeCredential_write_path in H.
    apply write_path_inr in H
      as (e & c & m & c' & enc & auditLog & id & now & pre & write & _ & _ & _ & _
          & _ & _ & _ & _ & Hwrite & Htrace & Hpre & _).
    exists pre, write, auditLog. repeat split; try done.
    by destruct Hwrite as [[-> _] | [-> _]].
  - intros workspaceId userId keyName privateKey publicKey keyType metadata w w' H.
    rewrite storeSSHKey_write_path in H.
    apply write_path_inr in H
      as (e & c & m & c' & enc & auditLog & id & now & pre & write & _ & _ & _ & _
          & _ & _ & _ & _ & Hwrite & Htrace & Hpre & _).
    exists pre, write, auditLog. repeat split; try done.
    by destruct Hwrite as [[-> _] | [-> _]].
Qed.


(** C1 — first store, then get.  On a store and a cache that work and
    hold no context for the identity, after a successful [storeCredential]
    under a key that is not the name of an envelope field the following
    [getCredential] returns [null], never the value: [getSecretContext]
    hands the persisted document back without undoing [encryptObject], so
    the [credentials] map it looks the key up in is the envelope that
    seals the map. *)
Theorem C1_first_store_then_get_returns_null
    (workspaceId userId key value credentialType provider : string)
    (expiresAt : option Z) (w w' : World) :
  key ∉ envelope_fields ->
  context_rows w workspaceId userId = [] ->
  truthy (cached_value P w (context_key workspaceId userId)) = false ->
  (forall row, row ∈ table w sc ->
               eq_filter "id" (randomUUID P (S (S (w_calls w)))) row = false) ->
  storeCredential P encryption workspaceId userId key value credentialType
    provider expiresAt w = (inr tt, w') ->
  exists w'',
    getCredential P encryption workspaceId userId key w' = (inr None, w'').
Proof.
  intros Hkey Hrows Hmiss Hfresh H. rewrite storeCredential_write_path in H.
  apply write_path_inr in H
    as (e & c & m & c' & enc & auditLog & id & now & pre & write & _ & Hc & Hm
        & Hc' & Hid & Hout & Hin & Hdb & Hwrite & _ & _ & _ & _ & Hdb' & Hcache).
  assert (lookup_context P w workspaceId userId = JNull) as Hlookup.
  { unfold lookup_context. by rewrite Hmiss, Hrows. }
  rewrite Hlookup in Hc. cbn in Hc. destruct Hc as (created & updated & ->).
  cbn in Hm. injection Hm as <-.
  assert (forall f, f <> "credentials" -> f <> "updated_at" ->
                    obj_get c' f
                    = obj_get (empty_context P (randomUUID P (S (S (w_calls w))))
                                 workspaceId userId created updated) f) as Hframe.
  { intros f Hf1 Hf2. rewrite Hc'.
    rewrite obj_get_set_ne by done. by rewrite obj_get_set_ne. }
  rewrite Hframe in Hid by done. cbn in Hid. injection Hid as <-.
  destruct Hwrite as [[_ Htable] | [_ [[row Hrow] _]]].
  2: { assert (row ∈ List.filter (eq_filter "id" (randomUUID P (S (S (w_calls w)))))
                          (table w sc)) as Hin' by (rewrite Hrow; apply elem_of_cons; by left).
       apply list_elem_of_In, filter_In in Hin' as [Hin' Heq].
       apply list_elem_of_In in Hin'. by rewrite (Hfresh row Hin') in Heq. }
  assert (obj_get enc "user_id" = Some (JStr userId)
          /\ obj_get enc "workspace_id" = Some (JStr workspaceId)) as [Hu Hw].
  { unfold sealed_maps in Hout.
    split; (rewrite Hout, Hframe; [reflexivity | done | done | | done]);
      rewrite !not_elem_of_cons; repeat split; try done; apply not_elem_of_nil. }
  assert (exists s, obj_get enc "credentials" = Some (JObj s) /\ obj_get s key = None)
    as (s & Hs & Hskey).
  { specialize (Hin "credentials"). rewrite Hc' in Hin.
    rewrite obj_get_set_ne, obj_get_set_eq in Hin by done.
    destruct Hin as (s & Hs & (iv & ct & t & at0 & _ & ->)).
    { unfold sealed_maps. apply elem_of_cons. by left. }
    exists (envelope P encryption iv ct t at0 None). split; [done|].
    apply obj_get_None_keys. exact Hkey. }
  assert (context_rows w' workspaceId userId = [enc]) as Hrows'.
  { unfold context_rows in *. rewrite Htable, List.filter_app, Hrows. cbn.
    unfold eq_filter. by rewrite Hu, Hw, !String.eqb_refl. }
  assert (exists w1, getSecretContext P workspaceId userId w' = (inr (JObj enc), w1))
    as [w1 Hload].
  { rewrite getSecretContext_eq. cbn zeta. unfold cached_value.
    rewrite Hcache. cbn [truthy]. rewrite Hdb', Hdb, Hrows'. by eexists. }
  unfold getCredential. erewrite bind_eq by exact Hload. cbn [negb truthy].
  unfold entry_of. cbn [get_prop]. rewrite Hs. cbn [get_prop]. rewrite Hskey.
  erewrite bind_eq by reflexivity. cbn. by eexists.
Qed.

End WriteClaims.

Section DeleteClaims.

Context (P : Platform) `{!HashLength P} (encryption : EncryptionService P).

Abbreviation ef := "_encrypted_fields".
Abbreviation sc := "secret_contexts".



End DeleteClaims.

(* ===================================================================== *)
(** * A failing cache backend                                             *)
(* ===================================================================== *)

Section CacheBlind.

Context (P : Platform).

Lemma set_redis_restore (w : World) : set_redis (w_redis w) (set_redis None w) = w.
Proof. by destruct w. Qed.

Lemma set_redis_none (w : World) (r : option Redis) :
  w_redis w = None -> set_redis None (set_redis r w) = w.
Proof. destruct w; cbn. by intros ->. Qed.

Lemma cache_free_blind {A} (m : M A) : cache_free m -> cache_blind m.
Proof.
  intros Hfree w [Hmem _].
  destruct (Hfree (set_redis None w) (w_redis w)) as (Hrun & Hm & Hr).
  rewrite set_redis_restore in Hrun. by rewrite Hrun, Hm, Hr.
Qed.

Lemma blind_ret {A} (a : A) : cache_blind (ret a).
Proof. apply cache_free_blind. by intros w r. Qed.

Lemma blind_throw {A} (e : exn) : cache_blind (throw (A := A) e).
Proof. apply cache_free_blind. by intros w r. Qed.

Lemma blind_lift {A} (r : exn + A) : cache_blind (lift r).
Proof. destruct r; [apply blind_throw | apply blind_ret]. Qed.

Lemma cache_down_set_redis (w w1 : World) :
  cache_down w -> w_useInMemoryCache w1 = false ->
  cache_down (set_redis (w_redis w) w1).
Proof. intros [_ Hr] Hm. by split. Qed.

Lemma blind_bind {A B} (m : M A) (k : A -> M B) :
  cache_blind m -> (forall a, cache_blind (k a)) -> cache_blind (bind m k).
Proof.
  intros Hm Hk w Hdown. destruct (Hm w Hdown) as (Hrun & Hmem & Hred).
  unfold bind. rewrite Hrun.
  destruct (m (set_redis None w)) as [[e|a] w1]; cbn in *; [done|].
  destruct (Hk a (set_redis (w_redis w) w1)) as (Hrun' & Hmem' & Hred');
    [by apply cache_down_set_redis|].
  rewrite set_redis_none in Hrun', Hmem', Hred' by done.
  by rewrite Hrun'.
Qed.

Lemma blind_try_catch {A} (m : M A) (h : exn -> M A) :
  cache_blind m -> (forall e, cache_blind (h e)) -> cache_blind (try_catch m h).
Proof.
  intros Hm Hh w Hdown. destruct (Hm w Hdown) as (Hrun & Hmem & Hred).
  unfold try_catch. rewrite Hrun.
  destruct (m (set_redis None w)) as [[e|a] w1]; cbn in *; [|done].
  destruct (Hh e (set_redis (w_redis w) w1)) as (Hrun' & Hmem' & Hred');
    [by apply cache_down_set_redis|].
  rewrite set_redis_none in Hrun', Hmem', Hred' by done.
  by rewrite Hrun'.
Qed.

Lemma free_draw : cache_free draw.
Proof. by intros w r. Qed.

Lemma free_log (e : event) : cache_free (log e).
Proof. by intros w r. Qed.

Lemma free_insert (tbl : string) (data : obj) : cache_free (insert tbl data).
Proof.
  intros w r. rewrite !insert_eq. cbn.
  by destruct (w_db_error w !! tbl).
Qed.

Lemma free_findById (tbl id : string) : cache_free (findById tbl id).
Proof.
  intros w r. rewrite !findById_eq. cbn.
  by destruct (w_db_error w !! tbl).
Qed.

Lemma free_findByUserAndWorkspace (tbl userId workspaceId : string) :
  cache_free (findByUserAndWorkspace tbl userId workspaceId).
Proof.
  intros w r. rewrite !findByUserAndWorkspace_eq. cbn.
  by destruct (w_db_error w !! tbl).
Qed.

Lemma free_update (tbl id : string) (data : obj) : cache_free (update tbl id data).
Proof.
  intros w r. unfold update, bind, log, supabase. cbn.
  destruct (w_db_error w !! tbl); [done|].
  change (table (set_trace (w_trace w ++ [EvDbUpdate tbl id data]) (set_redis r w)) tbl)
    with (table w tbl).
  change (table (set_trace (w_trace w ++ [EvDbUpdate tbl id data]) w) tbl)
    with (table w tbl).
  by destruct (List.filter _ _) as [|? [|? ?]].
Qed.

Lemma cached_value_down (key : string) (w : World) :
  cache_down w -> cached_value P w key = JNull.
Proof.
  intros [Hm (r & msg & Hr & He)]. unfold cached_value, cache_lookup.
  by rewrite Hm, Hr, He.
Qed.

Lemma cache_write_down (f : gmap string string -> gmap string string) (w : World) :
  cache_down w -> cache_write f w = w.
Proof.
  intros [Hm (r & msg & Hr & He)]. unfold cache_write. by rewrite Hm, Hr, He.
Qed.

Lemma blind_cacheGet (key : string) : cache_blind (cacheGet P key).
Proof.
  intros w Hdown. rewrite !cacheGet_eq, cached_value_down by done.
  destruct Hdown as [Hm _]. unfold cached_value, cache_lookup. cbn.
  rewrite Hm. split; [|done]. f_equal; by destruct w.
Qed.

Lemma blind_cacheSet (key : string) (value : json) (ttl : option nat) :
  cache_blind (cacheSet P key value ttl).
Proof.
  intros w Hdown. rewrite !cacheSet_eq.
  rewrite (cache_write_down _ (set_trace _ w)) by done.
  destruct Hdown as [Hm _]. unfold cache_write. cbn. rewrite Hm. cbn.
  split; [|done]. f_equal; by destruct w.
Qed.

Lemma blind_cacheDelete (key : string) : cache_blind (cacheDelete key).
Proof.
  intros w Hdown. rewrite !cacheDelete_eq.
  rewrite (cache_write_down _ (set_trace _ w)) by done.
  destruct Hdown as [Hm _]. unfold cache_write. cbn. rewrite Hm. cbn.
  split; [|done]. f_equal; by destruct w.
Qed.

End CacheBlind.

Section BlindOperations.

Context (P : Platform) (encryption : EncryptionService P).

Ltac blind_step :=
  match goal with
  | |- cache_blind (bind _ _) => apply blind_bind; [|intros ?]
  | |- cache_blind (ret _) => apply blind_ret
  | |- cache_blind (throw _) => apply blind_throw
  | |- cache_blind (lift _) => apply blind_lift
  | |- cache_blind (try_catch _ _) => apply blind_try_catch; [|intros ?]
  | |- cache_blind draw => apply cache_free_blind, free_draw
  | |- cache_blind (log _) => apply cache_free_blind, free_log
  | |- cache_blind (insert _ _) => apply cache_free_blind, free_insert
  | |- cache_blind (update _ _ _) => apply cache_free_blind, free_update
  | |- cache_blind (findById _ _) => apply cache_free_blind, free_findById
  | |- cache_blind (findByUserAndWorkspace _ _ _) =>
      apply cache_free_blind, free_findByUserAndWorkspace
  | |- cache_blind (cacheGet _ _) => apply blind_cacheGet
  | |- cache_blind (cacheSet _ _ _ _) => apply blind_cacheSet
  | |- cache_blind (cacheDelete _) => apply blind_cacheDelete
  | |- cache_blind (if ?b then _ else _) => destruct b
  | |- cache_blind (match ?x with _ => _ end) => destruct x
  end.

Ltac blind := repeat blind_step.

Lemma blind_Date_new : cache_blind (Date_new P).
Proof. unfold Date_new. blind. Qed.

Lemma blind_randomUUID : cache_blind (crypto_randomUUID P).
Proof. unfold crypto_randomUUID. blind. Qed.

Lemma blind_encrypt (plaintext : string) (expiresAt : option Z) :
  cache_blind (encrypt P encryption plaintext expiresAt).
Proof.
  unfold encrypt, crypto_randomBytes. blind. apply blind_Date_new.
Qed.

Lemma blind_decrypt (encryptedValue : json) :
  cache_blind (decrypt P encryption encryptedValue).
Proof.
  unfold decrypt, is_expired, unwrap, string_field. blind;
    apply blind_Date_new.
Qed.

Lemma blind_encryptObject (o : obj) (fields : list string) (expiresAt : option Z) :
  cache_blind (encryptObject P encryption o fields expiresAt).
Proof.
  unfold encryptObject. generalize (obj_set o "_encrypted_fields" (JArr [])).
  induction fields as [|f fields IH]; intros result; cbn [encryptObject_loop].
  - apply blind_ret.
  - destruct (defined_and_not_null (obj_get o f)); [|apply IH].
    apply blind_bind; [apply blind_encrypt|]. intros e.
    apply blind_bind; [unfold push_field; blind|]. intros result'. apply IH.
Qed.

Lemma blind_getSecretContext (workspaceId userId : string) :
  cache_blind (getSecretContext P workspaceId userId).
Proof. unfold getSecretContext. blind. Qed.

Lemma blind_saveSecretContext (secretContext : json) :
  cache_blind (saveSecretContext P encryption secretContext).
Proof.
  unfold saveSecretContext, row_id.
  destruct secretContext; try apply blind_throw.
  apply blind_bind; [apply blind_encryptObject|]. intros enc. blind.
Qed.

Lemma blind_createEmptySecretContext (workspaceId userId : string) :
  cache_blind (createEmptySecretContext P workspaceId userId).
Proof.
  unfold createEmptySecretContext. blind;
    first [apply blind_randomUUID | apply blind_Date_new].
Qed.

Lemma blind_createAuditLog (logData : AuditLogData) :
  cache_blind (createAuditLog P logData).
Proof.
  unfold createAuditLog. blind;
    first [apply blind_randomUUID | apply blind_Date_new].
Qed.

Ltac blind_service :=
  repeat first
    [ blind_step
    | apply blind_encrypt
    | apply blind_decrypt
    | apply blind_Date_new
    | apply blind_getSecretContext
    | apply blind_saveSecretContext
    | apply blind_createEmptySecretContext
    | apply blind_createAuditLog ].

Lemma blind_storeCredential
    (workspaceId userId key value credentialType provider : string)
    (expiresAt : option Z) :
  cache_blind (storeCredential P encryption workspaceId userId key value
                 credentialType provider expiresAt).
Proof. unfold storeCredential. blind_service. Qed.

Lemma blind_storeSSHKey
    (workspaceId userId keyName privateKey publicKey keyType : string)
    (metadata : option json) :
  cache_blind (storeSSHKey P encryption workspaceId userId keyName privateKey
                 publicKey keyType metadata).
Proof. unfold storeSSHKey. blind_service. Qed.

Lemma blind_getCredential (workspaceId userId key : string) :
  cache_blind (getCredential P encryption workspaceId userId key).
Proof. unfold getCredential. blind_service. Qed.

Lemma blind_getSSHKey (workspaceId userId keyName : string) :
  cache_blind (getSSHKey P encryption workspaceId userId keyName).
Proof. unfold getSSHKey. blind_service. Qed.

Lemma blind_listSecrets (workspaceId userId : string) :
  cache_blind (listSecrets P workspaceId userId).
Proof. unfold listSecrets. blind_service. Qed.

Lemma blind_deleteSecret (workspaceId userId : string) (secretType : SecretType)
    (key : string) :
  cache_blind (deleteSecret P encryption workspaceId userId secretType key).
Proof. unfold deleteSecret. blind_service. Qed.

End BlindOperations.

Section CacheClaims.

Context (P : Platform) (encryption : EncryptionService P).

(** C9 — the cache never fails its callers.  In every world [cacheGet],
    [cacheSet] and [cacheDelete] return normally, and [cacheGet] returns
    [null] when the backend is failing; and every operation of the secret
    context service is blind to a failing backend: it returns what it
    returns without any cache and does to the rest of the world what it
    does without any cache. *)
Theorem C9_cache_failures_never_surface :
  (forall key w,
      exists v w', cacheGet P key w = (inr v, w') /\ (cache_down w -> v = JNull)) /\
  (forall key value ttl w, exists w', cacheSet P key value ttl w = (inr tt, w')) /\
  (forall key w, exists w', cacheDelete key w = (inr tt, w')) /\
  (forall workspaceId userId key value credentialType provider expiresAt,
      cache_blind (storeCredential P encryption workspaceId userId key value
                     credentialType provider expiresAt)) /\
  (forall workspaceId userId key,
      cache_blind (getCredential P encryption workspaceId userId key)) /\
  (forall workspaceId userId keyName privateKey publicKey keyType metadata,
      cache_blind (storeSSHKey P encryption workspaceId userId keyName privateKey
                     publicKey keyType metadata)) /\
  (forall workspaceId userId keyName,
      cache_blind (getSSHKey P encryption workspaceId userId keyName)) /\
  (forall workspaceId userId, cache_blind (listSecrets P workspaceId userId)) /\
  (forall workspaceId userId secretType key,
      cache_blind (deleteSecret P encryption workspaceId userId secretType key)).
Proof.
  split; [|split; [|split; [|split; [|split; [|split; [|split; [|split]]]]]]].
  - intros key w. eexists _, _. split; [apply cacheGet_eq|].
    apply cached_value_down.
  - intros key value ttl w. eexists. apply cacheSet_eq.
  - intros key w. eexists. apply cacheDelete_eq.
  - intros. apply blind_storeCredential.
  - intros. apply blind_getCredential.
  - intros. apply blind_storeSSHKey.
  - intros. apply blind_getSSHKey.
  - intros. apply blind_listSecrets.
  - intros. apply blind_deleteSecret.
Qed.

End CacheClaims.

(* ===================================================================== *)
(** * The service on concrete inputs                                      *)
(* ===================================================================== *)

Lemma run_inr {A} (m : M A) (w : World) (a : A) :
  fst (m w) = inr a -> m w = (inr a, snd (m w)).
Proof. destruct (m w) as [r w']; cbn. by intros ->. Qed.

Lemma hex_encode_length (bs : list byte) :
  String.length (hex_encode bs) = (2 * length bs)%nat.
Proof.
  induction bs as [|b bs IH]; [done|].
  change (hex_encode (b :: bs))
    with (String (hex_digit (Byte.to_N b / 16))
            (String (hex_digit (Byte.to_N b mod 16)) (hex_encode bs))).
  cbn [String.length length]. rewrite IH. lia.
Qed.


(** C1 on the mock runtime: the end-to-end scenario of the specification,
    on an empty store with the in-memory cache. *)
Lemma C1_witness :
  exists w'',
    getCredential Mock.platform Mock.engine "W" "U" "openai_key"
      (snd (storeCredential Mock.platform Mock.engine "W" "U" "openai_key"
              "sk-test-123" "api_key" "openai" None Mock.world0))
    = (inr None, w'').
Proof.
  apply (C1_first_store_then_get_returns_null Mock.platform Mock.engine
           "W" "U" "openai_key" "sk-test-123" "api_key" "openai" None Mock.world0).
  - apply (bool_decide_unpack _). vm_compute. reflexivity.
  - reflexivity.
  - reflexivity.
  - intros row Hrow. by apply elem_of_nil in Hrow.
  - apply run_inr. vm_compute. reflexivity.
Defined.

(** C3 on the mock runtime: the audit entry of a [storeSSHKey] has no
    [new_value_hash]. *)
Lemma C3_witness :
  exists entry,
    table (snd (storeSSHKey Mock.platform Mock.engine "W" "U" "deploy"
                  "PRIVATE KEY" "ssh-ed25519 AAAA" "ed25519" None Mock.world0))
          "audit_logs"
    = table Mock.world0 "audit_logs" ++ [entry] /\
    obj_get entry "operation" = Some (JStr "store_ssh_key") /\
    obj_get entry "resource_key" = Some (JStr "deploy") /\
    obj_get entry "new_value_hash" = None.
Proof.
  apply (proj2 (C3_audit_entry_of_write_path Mock.platform Mock.engine)
           "W" "U" "deploy" "PRIVATE KEY" "ssh-ed25519 AAAA" "ed25519" None
           Mock.world0).
  - apply run_inr. vm_compute. reflexivity.
  - reflexivity.
Defined.

(** C4, as stated, fails on the first [storeCredential] in an empty
    world: of its six calls the write of the context is the one at
    position 3, the audit insert the one at position 4 and the cache
    invalidation the one at position 5, after the audit insert. *)
Lemma C4_counterexample_audit_before_invalidate :
  let run := storeCredential Mock.platform Mock.engine "W" "U" "openai_key"
               "sk-test-123" "api_key" "openai" None Mock.world0 in
  fst run = inr tt /\
  first_index (is_write_to "secret_contexts") (w_trace (snd run)) = Some 3%nat /\
  first_index (is_write_to "audit_logs") (w_trace (snd run)) = Some 4%nat /\
  first_index is_cache_delete (w_trace (snd run)) = Some 5%nat /\
  length (w_trace (snd run)) = 6%nat.
Proof. vm_compute. repeat split. Qed.

(** C4 on the mock runtime. *)
Lemma C4_witness :
  exists pre write auditLog,
    w_trace (snd (storeCredential Mock.platform Mock.engine "W" "U" "openai_key"
                    "sk-test-123" "api_key" "openai" None Mock.world0))
    = w_trace Mock.world0 ++ pre
      ++ [write; EvDbInsert "audit_logs" auditLog;
          EvCacheDelete (context_key "W" "U")] /\
    forallb is_lookup pre = true /\
    is_write_to "secret_contexts" write = true.
Proof.
  apply (proj1 (C4_persist_audit_invalidate Mock.platform Mock.engine)
           "W" "U" "openai_key" "sk-test-123" "api_key" "openai" None Mock.world0).
  apply run_inr. vm_compute. reflexivity.
Defined.



(** C9 on the mock runtime: with Redis refusing connections the
    end-to-end store returns what it returns without a cache. *)
Lemma C9_witness :
  cache_down Mock.world_down /\
  storeCredential Mock.platform Mock.engine "W" "U" "openai_key" "sk-test-123"
    "api_key" "openai" None Mock.world_down
  = (inr tt,
     set_redis (w_redis Mock.world_down)
       (snd (storeCredential Mock.platform Mock.engine "W" "U" "openai_key"
               "sk-test-123" "api_key" "openai" None
               (set_redis None Mock.world_down)))).
Proof.
  assert (cache_down Mock.world_down) as Hdown
    by (split; [reflexivity | by eexists _, _]).
  split; [exact Hdown|].
  destruct (proj1 (proj2 (proj2 (proj2
              (C9_cache_failures_never_surface Mock.platform Mock.engine))))
              "W" "U" "openai_key" "sk-test-123" "api_key" "openai" None
              Mock.world_down Hdown) as (Hrun & _).
  rewrite Hrun. by f_equal.
Defined.

(* ===================================================================== *)
(** * More of the engine                                                  *)
(* ===================================================================== *)

Section EngineWorld.

Context (P : Platform) (this : EncryptionService P).

Lemma drawn_refl (w : World) : drawn w w.
Proof. exists (w_calls w). by destruct w. Qed.


Lemma drawn_frame (w w' : World) :
  drawn w w' ->
  store_of w' = store_of w /\ cache_of w' = cache_of w /\ w_trace w' = w_trace w.
Proof. by intros [n ->]. Qed.

(** [decrypt] does nothing to the world but read the clock. *)
Lemma decrypt_drawn (encryptedValue : json) (w : World) :
  drawn w (snd (decrypt P this encryptedValue w)).
Proof.
  unfold decrypt, unwrap, bind, lift, string_field, Buffer_from_hex, throw, ret.
  rewrite ?is_expired_eq.
  destruct (get_prop encryptedValue "expires_at") as [e|x]; cbn; [apply drawn_refl|].
  rewrite is_expired_eq.
  destruct (truthy_opt x); cbn;
    repeat (case_match; simplify_eq/=; try apply drawn_refl; try by eexists).
Qed.

End EngineWorld.

Section VerifyFacts.

Context (P : Platform) `{!CipherCorrect P} (this : EncryptionService P).

(** X1 — [verify] never throws, and it returns [true] exactly when
    [decrypt] returns a plaintext; in particular it accepts every envelope
    that [encrypt] has just produced, as long as the envelope has not
    expired. *)
Theorem verify_accepts_what_decrypt_returns :
  (forall encryptedValue w,
      exists b w',
        verify P this encryptedValue w = (inr b, w') /\
        (b = true <-> exists p, fst (decrypt P this encryptedValue w) = inr p)) /\
  (forall plaintext expiresAt w w2,
      still_valid P expiresAt w2 ->
      exists E w1 w3,
        encrypt P this plaintext expiresAt w = (inr E, w1) /\
        verify P this (JObj E) w2 = (inr true, w3)).
Proof.
  split.
  - intros encryptedValue w. rewrite verify_eq.
    destruct (decrypt P this encryptedValue w) as [[e|p] w']; cbn.
    + exists false, w'. split; [done|]. split; [done | by intros [p ?]].
    + exists true, w'. split; [done|]. split; [by exists p | done].
  - intros plaintext expiresAt w w2 Hvalid. rewrite encrypt_eq. cbn zeta.
    destruct (cipher P algorithm (key P this) (randomBytes P (w_calls w) 12)
                (list_byte_of_string plaintext)) as [c t] eqn:Hc.
    destruct (decrypt_envelope P this plaintext _ c t (Date_now P (S (w_calls w)))
                expiresAt w2 Hc Hvalid) as [w3 Hdec].
    eexists _, _, w3. split; [reflexivity|]. rewrite verify_eq. cbn [fst snd].
    by rewrite Hdec.
Qed.

(** X2 — an envelope encrypted with an expiry that has passed when it is
    decrypted is refused: [decrypt] throws the expiry error, having read
    nothing but the clock, and [verify] returns [false]. *)
Theorem decrypt_after_expiry (plaintext : string) (t : Z) (w w2 : World) :
  new_Date P (JStr (toISOString P t)) = Some t ->
  toISOString P t <> EmptyString ->
  t < Date_now P (w_calls w2) ->
  exists E w1,
    encrypt P this plaintext (Some t) w = (inr E, w1) /\
    obj_get E "expires_at" = Some (JStr (toISOString P t)) /\
    decrypt P this (JObj E) w2 = (inl ExpiredError, set_calls (S (w_calls w2)) w2) /\
    verify P this (JObj E) w2 = (inr false, set_calls (S (w_calls w2)) w2).
Proof.
  intros Hdate Hiso Hpast. rewrite encrypt_eq. cbn zeta.
  eexists _, _. split; [reflexivity|].
  assert (decrypt P this
            (JObj (envelope P this (randomBytes P (w_calls w) 12)
                     (cipher P algorithm (key P this) (randomBytes P (w_calls w) 12)
                        (list_byte_of_string plaintext)).1
                     (cipher P algorithm (key P this) (randomBytes P (w_calls w) 12)
                        (list_byte_of_string plaintext)).2
                     (Date_now P (S (w_calls w))) (Some t))) w2
          = (inl ExpiredError, set_calls (S (w_calls w2)) w2)) as Hdec.
  { unfold decrypt. cbn [envelope get_prop]. cbn.
    unfold bind at 1. cbn. unfold bind. rewrite is_expired_eq. cbn.
    apply String.eqb_neq in Hiso. rewrite Hiso. cbn. rewrite Hdate.
    by assert ((t <? Date_now P (w_calls w2)) = true) as -> by lia. }
  split; [by cbn|]. split; [exact Hdec|].
  rewrite verify_eq. by rewrite Hdec.
Qed.

Lemma decrypt_cipher_fields (E E' : obj) (w : World) :
  (forall k, k ∈ cipher_fields -> obj_get E' k = obj_get E k) ->
  decrypt P this (JObj E') w = decrypt P this (JObj E) w.
Proof.
  intros Hsame. unfold decrypt, unwrap. cbn [get_prop].
  rewrite !Hsame; [done|..]; unfold cipher_fields; rewrite !elem_of_cons; tauto.
Qed.

(** X3 — [decrypt] reads five properties of the value it is given
    ([expires_at], [iv], [auth_tag], [algorithm], [encrypted_data]) and
    nothing else: two objects that agree on these are decrypted, and
    verified, alike.  Whatever else an envelope carries ([key_version],
    [created_at], the fields a credential or an SSH key adds) is neither
    used nor authenticated. *)
Theorem decrypt_reads_only_cipher_fields (E E' : obj) (w : World) :
  (forall k, k ∈ cipher_fields -> obj_get E' k = obj_get E k) ->
  decrypt P this (JObj E') w = decrypt P this (JObj E) w /\
  verify P this (JObj E') w = verify P this (JObj E) w.
Proof.
  intros Hsame. pose proof (decrypt_cipher_fields E E' w Hsame) as Hdec.
  split; [exact Hdec|]. by rewrite !verify_eq, Hdec.
Qed.

End VerifyFacts.

Section ObjectEncryption.

Context (P : Platform) (this : EncryptionService P).

Abbreviation ef := "_encrypted_fields".






End ObjectEncryption.

Section UtilityFacts.

Context (P : Platform).

Lemma length_append (s t : string) :
  String.length (s +:+ t) = (String.length s + String.length t)%nat.
Proof. induction s as [|c s IH]; simpl; [done | by rewrite IH]. Qed.

Lemma fold_append_length (f : nat -> string) (l : list nat) (acc : string) :
  (forall i, i ∈ l -> String.length (f i) = 1%nat) ->
  String.length (fold_left (fun result i => result +:+ f i) l acc)
  = (String.length acc + length l)%nat.
Proof.
  revert acc. induction l as [|i l IH]; intros acc Hone; cbn; [lia|].
  rewrite IH by (intros j Hj; apply Hone, elem_of_cons; by right).
  rewrite length_append, Hone by (apply elem_of_cons; by left). lia.
Qed.

Lemma list_ascii_of_string_append (s t : string) :
  list_ascii_of_string (s +:+ t) = list_ascii_of_string s ++ list_ascii_of_string t.
Proof. induction s as [|c s IH]; simpl; [done | by rewrite IH]. Qed.

Lemma fold_append_chars (f : nat -> string) (Q : ascii -> Prop) (l : list nat)
    (acc : string) :
  Forall Q (list_ascii_of_string acc) ->
  (forall i, i ∈ l -> Forall Q (list_ascii_of_string (f i))) ->
  Forall Q (list_ascii_of_string (fold_left (fun result i => result +:+ f i) l acc)).
Proof.
  revert acc. induction l as [|i l IH]; intros acc Hacc Hall; cbn; [done|].
  apply IH.
  - rewrite list_ascii_of_string_append. apply Forall_app. split; [done|].
    apply Hall, elem_of_cons. by left.
  - intros j Hj. apply Hall, elem_of_cons. by right.
Qed.

Lemma get_elem_of (s : string) (n : nat) (c : ascii) :
  String.get n s = Some c -> c ∈ list_ascii_of_string s.
Proof.
  revert n. induction s as [|c' s IH]; intros n; cbn; [by destruct n|].
  destruct n as [|n].
  - intros [= ->]. apply elem_of_cons. by left.
  - intros H. apply elem_of_cons. right. by eapply IH.
Qed.

Lemma get_lt (s : string) (n : nat) :
  (n < String.length s)%nat -> exists c, String.get n s = Some c.
Proof.
  revert n. induction s as [|c' s IH]; intros n; cbn; [lia|].
  destruct n as [|n]; [by eexists|]. intros H. apply IH. lia.
Qed.

(** A character drawn for a password is one character of the alphabet. *)
Lemma password_char_spec (b : byte) :
  exists c, password_char (Some b) = String c EmptyString /\
            c ∈ list_ascii_of_string chars.
Proof.
  unfold password_char, char_at.
  destruct (get_lt chars (N.to_nat (Byte.to_N b) mod String.length chars))
    as [c Hc].
  { apply Nat.mod_upper_bound. by vm_compute. }
  rewrite Hc. exists c. split; [done|]. by eapply get_elem_of.
Qed.

Context `{!RandomLength P}.

(** X6 — [generateKey(n)] returns the [n] bytes it draws as [2n]
    lowercase hexadecimal characters, from which the bytes can be read
    back; it uses one draw of the runtime. *)
Theorem generateKey_hex (n : nat) (w : World) :
  exists k,
    generateKey P n w = (inr k, set_calls (S (w_calls w)) w) /\
    String.length k = (2 * n)%nat /\
    hex_decode k = randomBytes P (w_calls w) n.
Proof.
  exists (hex_encode (randomBytes P (w_calls w) n)).
  split; [reflexivity|]. split.
  - by rewrite hex_encode_length, randomBytes_length.
  - apply hex_decode_encode.
Qed.

(** X7 — [generateSecurePassword(n)] returns exactly [n] characters, each
    one of the 88 characters of its alphabet, whatever bytes the runtime
    draws. *)
Theorem generateSecurePassword_alphabet (n : nat) (w : World) :
  exists p,
    generateSecurePassword P n w = (inr p, set_calls (S (w_calls w)) w) /\
    String.length p = n /\
    Forall (fun c => c ∈ list_ascii_of_string chars) (list_ascii_of_string p).
Proof.
  eexists. split; [reflexivity|].
  assert (forall i, i ∈ seq 0 n ->
            exists c, password_char (randomBytes P (w_calls w) n !! i)
                      = String c EmptyString /\
                      c ∈ list_ascii_of_string chars) as Hchar.
  { intros i Hi. apply elem_of_seq in Hi.
    destruct (lookup_lt_is_Some_2 (randomBytes P (w_calls w) n) i) as [b ->].
    { rewrite randomBytes_length. lia. }
    apply password_char_spec. }
  split.
  - rewrite fold_append_length; [cbn; by rewrite length_seq|].
    intros i Hi. by destruct (Hchar i Hi) as (c & -> & _).
  - apply fold_append_chars; [by constructor|].
    intros i Hi. destruct (Hchar i Hi) as (c & -> & Hc).
    change (list_ascii_of_string (String c EmptyString)) with [c].
    constructor; [exact Hc | constructor].
Qed.

End UtilityFacts.

Section ExpiryHelpers.

Context (P : Platform) (this : EncryptionService P).

(** X8 — the two expiry helpers and [decrypt] agree.  [isExpired] is
    [true] exactly when [timeUntilExpiry], reading the same clock, is a
    negative number; and [decrypt] throws the expiry error on an envelope
    exactly when [isExpired] is [true] of its [expires_at].  A missing or
    empty [expires_at] never expires and the clock is not read for it. *)
Theorem isExpired_agrees_with_decrypt (expiresAt : option string) (w : World) :
  (fst (isExpired P expiresAt w) = inr true <->
   exists d, fst (timeUntilExpiry P expiresAt w) = inr (Some (Some d)) /\ d < 0) /\
  (forall E,
      obj_get E "expires_at" = JStr <$> expiresAt ->
      (fst (decrypt P this (JObj E) w) = inl ExpiredError <->
       fst (isExpired P expiresAt w) = inr true)) /\
  (expiresAt = None \/ expiresAt = Some EmptyString ->
   isExpired P expiresAt w = (inr false, w) /\
   timeUntilExpiry P expiresAt w = (inr None, w)).
Proof.
  split; [|split].
  - unfold isExpired, timeUntilExpiry.
    destruct expiresAt as [s|]; [|split; [done | by intros (? & ? & _)]].
    destruct (String.eqb s EmptyString); [split; [done | by intros (? & ? & _)]|].
    unfold bind. rewrite Date_new_eq. cbn.
    destruct (new_Date P (JStr s)) as [t|]; [|split; [done | by intros (? & ? & _)]].
    split.
    + intros [= Hlt]. exists (t - Date_now P (w_calls w)). split; [done | lia].
    + intros (d & [= <-] & Hd). do 2 f_equal. lia.
  - intros E Hget. unfold decrypt. cbn [get_prop]. rewrite Hget.
    erewrite bind_eq by reflexivity. unfold bind. rewrite is_expired_eq.
    pose proof (unwrap_not_expired P this (JObj E)) as Hu.
    set (u := unwrap P this (JObj E)) in *. clearbody u.
    unfold isExpired.
    destruct expiresAt as [s|]; cbn.
    + destruct (String.eqb s EmptyString); cbn.
      * split; [|done]. intros H. by destruct (Hu _ H).
      * unfold bind, Date_new, draw, ret; cbn.
        destruct (new_Date P (JStr s)) as [t|]; cbn.
        -- destruct (t <? Date_now P (w_calls w)); [done|].
           split; [|done]. intros H. by destruct (Hu _ H).
        -- split; [|done]. intros H. by destruct (Hu _ H).
    + split; [|done]. intros H. by destruct (Hu _ H).
  - by intros [-> | ->].
Qed.

End ExpiryHelpers.

(* ===================================================================== *)
(** * More of the client                                                  *)
(* ===================================================================== *)

Section StoreFacts.

Lemma table_insert_eq (w : World) (m : gmap string (list obj)) (tbl : string)
    (rows : list obj) :
  table (set_tables (<[tbl := rows]> m) w) tbl = rows.
Proof. unfold table. cbn. by rewrite lookup_insert_eq. Qed.

Lemma table_insert_ne (w w0 : World) (tbl t : string) (rows : list obj) :
  t <> tbl -> table (set_tables (<[tbl := rows]> (w_tables w0)) w) t = table w0 t.
Proof. intros Hne. unfold table. cbn. by rewrite lookup_insert_ne. Qed.

Lemma update_eq (tbl id : string) (data : obj) (w : World) :
  update tbl id data w =
  let w1 := set_trace (w_trace w ++ [EvDbUpdate tbl id data]) w in
  match w_db_error w !! tbl with
  | Some msg => (inl (DatabaseError ("Update failed: " +:+ msg)), w1)
  | None =>
      match List.filter (eq_filter "id" id) (table w tbl) with
      | [row] =>
          (inr (merge_row row data),
           set_tables
             (<[tbl := List.map (fun r => if eq_filter "id" id r
                                          then merge_row r data else r)
                                (table w tbl)]> (w_tables w)) w1)
      | _ =>
          (inl (DatabaseError
                  "Update failed: JSON object requested, multiple (or no) rows returned"),
           w1)
      end
  end.
Proof.
  unfold update, bind, supabase. rewrite log_eq. cbn.
  destruct (w_db_error w !! tbl); [done|].
  change (table (set_trace (w_trace w ++ [EvDbUpdate tbl id data]) w) tbl)
    with (table w tbl).
  by destruct (List.filter (eq_filter "id" id) (table w tbl)) as [|row [|]].
Qed.

Lemma delete_eq (tbl id : string) (w : World) :
  DatabaseClient.delete tbl id w =
  match w_db_error w !! tbl with
  | Some msg => (inl (DatabaseError ("Delete failed: " +:+ msg)), w)
  | None =>
      (inr true,
       set_tables
         (<[tbl := List.filter (fun r => negb (eq_filter "id" id r)) (table w tbl)]>
            (w_tables w)) w)
  end.
Proof.
  unfold DatabaseClient.delete, bind, supabase.
  by destruct (w_db_error w !! tbl).
Qed.

Lemma findByWorkspace_eq (tbl workspaceId : string) (w : World) :
  DatabaseClient.findByWorkspace tbl workspaceId w =
  match w_db_error w !! tbl with
  | Some msg =>
      (inl (DatabaseError ("FindByWorkspace failed: " +:+ msg)),
       set_trace (w_trace w ++ [EvDbSelect tbl]) w)
  | None =>
      (inr (List.filter (eq_filter "workspace_id" workspaceId) (table w tbl)),
       set_trace (w_trace w ++ [EvDbSelect tbl]) w)
  end.
Proof.
  unfold DatabaseClient.findByWorkspace, bind, supabase. rewrite log_eq. cbn.
  by destruct (w_db_error w !! tbl).
Qed.

Lemma filter_none {A} (p : A -> bool) (l : list A) :
  (forall x, x ∈ l -> p x = false) -> List.filter p l = [].
Proof.
  induction l as [|x l IH]; intros H; cbn; [done|].
  rewrite (H x) by (apply elem_of_cons; by left).
  apply IH. intros y Hy. apply H, elem_of_cons. by right.
Qed.

Lemma filter_all {A} (p : A -> bool) (l : list A) :
  (forall x, x ∈ l -> p x = true) -> List.filter p l = l.
Proof.
  induction l as [|x l IH]; intros H; cbn; [done|].
  rewrite (H x) by (apply elem_of_cons; by left).
  f_equal. apply IH. intros y Hy. apply H, elem_of_cons. by right.
Qed.

Lemma filter_filter_negb {A} (p : A -> bool) (l : list A) :
  List.filter p (List.filter (fun x => negb (p x)) l) = [].
Proof.
  apply filter_none. intros x Hx.
  apply list_elem_of_In, filter_In in Hx as [_ Hx]. by destruct (p x).
Qed.

(** The columns of a merged row: those of [data] win, the others are
    kept. *)
Lemma merge_row_get (row data : obj) (k : string) :
  NoDup data.*1 ->
  obj_get (merge_row row data) k
  = match obj_get data k with
    | Some v => Some v
    | None => obj_get row k
    end.
Proof.
  unfold merge_row. revert row.
  induction data as [|[k' v'] data IH]; intros row Hnd; cbn; [done|].
  apply NoDup_cons in Hnd as [Hk' Hnd]. rewrite IH by done.
  destruct (String.eqb k k') eqn:E.
  - apply String.eqb_eq in E as ->.
    rewrite (proj2 (obj_get_None_keys data k')) by done.
    apply obj_get_set_eq.
  - destruct (obj_get data k); [done|].
    apply obj_get_set_ne. intros ->. by rewrite String.eqb_refl in E.
Qed.

(** X9 — insert, then look up.  A document inserted under an [id] that
    no row of the table carries is what [findById] returns for that [id]
    afterwards, and it is among the rows [findByWorkspace] and
    [findByUserAndWorkspace] return for its workspace and user; the table
    has grown by this document and no other table has changed. *)
Theorem insert_then_find (tbl id : string) (data : obj) (w : World) :
  w_db_error w !! tbl = None ->
  obj_get data "id" = Some (JStr id) ->
  (forall row, row ∈ table w tbl -> eq_filter "id" id row = false) ->
  exists w1,
    insert tbl data w = (inr data, w1) /\
    table w1 tbl = table w tbl ++ [data] /\
    (forall t, t <> tbl -> table w1 t = table w t) /\
    fst (findById tbl id w1) = inr (Some data) /\
    (forall workspaceId,
        obj_get data "workspace_id" = Some (JStr workspaceId) ->
        exists rows, fst (DatabaseClient.findByWorkspace tbl workspaceId w1) = inr rows /\
                     data ∈ rows) /\
    (forall workspaceId userId,
        obj_get data "workspace_id" = Some (JStr workspaceId) ->
        obj_get data "user_id" = Some (JStr userId) ->
        exists rows, fst (findByUserAndWorkspace tbl userId workspaceId w1) = inr rows /\
                     data ∈ rows).
Proof.
  intros Hdb Hid Hfresh. rewrite insert_eq, Hdb.
  eexists. split; [reflexivity|].
  set (w1 := set_tables _ _).
  assert (table w1 tbl = table w tbl ++ [data]) as Htable
    by (unfold w1, table; cbn; by rewrite lookup_insert_eq).
  assert (w_db_error w1 !! tbl = None) as Hdb1 by done.
  assert (eq_filter "id" id data = true) as Hdata
    by (unfold eq_filter; rewrite Hid; apply String.eqb_refl).
  split; [exact Htable|]. split.
  { intros t Hne. unfold w1, table. cbn. by rewrite lookup_insert_ne. }
  split; [|split].
  - rewrite findById_eq, Hdb1, Htable. cbn [fst].
    rewrite List.filter_app, filter_none by done. cbn. by rewrite Hdata.
  - intros workspaceId Hw. rewrite findByWorkspace_eq, Hdb1, Htable.
    eexists. split; [reflexivity|].
    apply list_elem_of_In, filter_In. split.
    + apply in_or_app. right. by left.
    + unfold eq_filter. rewrite Hw. apply String.eqb_refl.
  - intros workspaceId userId Hw Hu.
    rewrite findByUserAndWorkspace_eq, Hdb1, Htable.
    eexists. split; [reflexivity|].
    apply list_elem_of_In, filter_In. split.
    + apply in_or_app. right. by left.
    + unfold eq_filter. rewrite Hw, Hu. by rewrite !String.eqb_refl.
Qed.

(** X10 — [update] changes the one row that carries the [id] and no
    other: its columns named in the data take the new values, its other
    columns are kept, and the merged row is returned.  When no row carries
    the [id] the method throws a [DatabaseError] and the table is as it
    was. *)
Theorem update_merges_one_row (tbl id : string) (data : obj) (w : World) :
  w_db_error w !! tbl = None ->
  NoDup data.*1 ->
  (forall row,
      List.filter (eq_filter "id" id) (table w tbl) = [row] ->
      exists w1,
        update tbl id data w = (inr (merge_row row data), w1) /\
        (forall k, obj_get (merge_row row data) k
                   = match obj_get data k with
                     | Some v => Some v
                     | None => obj_get row k
                     end) /\
        length (table w1 tbl) = length (table w tbl) /\
        (forall i r, table w tbl !! i = Some r ->
                     table w1 tbl !! i
                     = Some (if eq_filter "id" id r then merge_row r data else r)) /\
        (forall t, t <> tbl -> table w1 t = table w t)) /\
  (List.filter (eq_filter "id" id) (table w tbl) = [] ->
   exists e w1,
     update tbl id data w = (inl e, w1) /\
     exn_name e = "DatabaseError" /\
     w_tables w1 = w_tables w).
Proof.
  intros Hdb Hnd. split.
  - intros row Hrow. rewrite update_eq. cbn zeta. rewrite Hdb, Hrow.
    eexists. split; [reflexivity|]. split; [intros k; by apply merge_row_get|].
    rewrite table_insert_eq. split; [apply length_map|]. split.
    + intros i r Hi. rewrite list_lookup_fmap.
      change (table (set_trace _ w) tbl) with (table w tbl). by rewrite Hi.
    + intros t Hne. by rewrite table_insert_ne.
  - intros Hnone. rewrite update_eq. cbn zeta. rewrite Hdb, Hnone.
    by eexists _, _.
Qed.

(** X11 — [delete] removes the rows that carry the [id] and only those,
    so that [findById] finds nothing afterwards; it returns [true] also
    when there was no such row, in which case the table is unchanged. *)
Theorem delete_then_findById (tbl id : string) (w : World) :
  w_db_error w !! tbl = None ->
  exists w1,
    DatabaseClient.delete tbl id w = (inr true, w1) /\
    fst (findById tbl id w1) = inr None /\
    (forall row, row ∈ table w1 tbl <->
                 row ∈ table w tbl /\ eq_filter "id" id row = false) /\
    ((forall row, row ∈ table w tbl -> eq_filter "id" id row = false) ->
     table w1 tbl = table w tbl) /\
    (forall t, t <> tbl -> table w1 t = table w t).
Proof.
  intros Hdb. rewrite delete_eq, Hdb. eexists. split; [reflexivity|].
  rewrite table_insert_eq. split; [|split; [|split]].
  - rewrite findById_eq. cbn [w_db_error set_tables]. rewrite Hdb. cbn [fst].
    rewrite table_insert_eq. by rewrite filter_filter_negb.
  - intros row. rewrite !list_elem_of_In, filter_In.
    destruct (eq_filter "id" id row); cbn; intuition congruence.
  - intros Hnone. apply filter_all. intros row Hrow. by rewrite Hnone.
  - intros t Hne. by rewrite table_insert_ne.
Qed.

(** X12 — while the row store rejects requests on a table, every method
    of the client on that table throws a [DatabaseError] whose message
    names the operation and carries the store's message, and no table
    changes. *)
Theorem store_errors_surface (tbl msg : string) (w : World) :
  w_db_error w !! tbl = Some msg ->
  (forall data,
      fst (insert tbl data w) = inl (DatabaseError ("Insert failed: " +:+ msg)) /\
      w_tables (snd (insert tbl data w)) = w_tables w) /\
  (forall id data,
      fst (update tbl id data w) = inl (DatabaseError ("Update failed: " +:+ msg)) /\
      w_tables (snd (update tbl id data w)) = w_tables w) /\
  (forall id,
      fst (DatabaseClient.delete tbl id w)
      = inl (DatabaseError ("Delete failed: " +:+ msg)) /\
      w_tables (snd (DatabaseClient.delete tbl id w)) = w_tables w) /\
  (forall id,
      fst (findById tbl id w) = inl (DatabaseError ("FindById failed: " +:+ msg)) /\
      w_tables (snd (findById tbl id w)) = w_tables w) /\
  (forall workspaceId,
      fst (DatabaseClient.findByWorkspace tbl workspaceId w)
      = inl (DatabaseError ("FindByWorkspace failed: " +:+ msg)) /\
      w_tables (snd (DatabaseClient.findByWorkspace tbl workspaceId w)) = w_tables w) /\
  (forall userId workspaceId,
      fst (findByUserAndWorkspace tbl userId workspaceId w)
      = inl (DatabaseError ("FindByUserAndWorkspace failed: " +:+ msg)) /\
      w_tables (snd (findByUserAndWorkspace tbl userId workspaceId w)) = w_tables w).
Proof.
  intros Hdb.
  repeat split; intros;
    rewrite ?insert_eq, ?update_eq, ?delete_eq, ?findById_eq, ?findByWorkspace_eq,
      ?findByUserAndWorkspace_eq; cbn zeta; by rewrite Hdb.
Qed.

End StoreFacts.

Section CacheFacts.

Context (P : Platform).

Lemma cache_lookup_write_ne (f : gmap string string -> gmap string string)
    (k : string) (w : World) :
  (forall m, f m !! k = m !! k) ->
  cache_lookup (cache_write f w) k = cache_lookup w k.
Proof.
  intros Hf. unfold cache_lookup, cache_write.
  destruct (w_useInMemoryCache w) eqn:Hmode; cbn; rewrite ?Hmode; [apply Hf|].
  destruct (w_redis w) as [r|] eqn:Hredis; cbn; rewrite ?Hmode, ?Hredis; [|done].
  destruct (redis_error r) eqn:Herr; cbn; rewrite ?Hmode, ?Hredis, ?Herr; [done|].
  apply Hf.
Qed.

Lemma cache_lookup_write_eq (key s : string) (w : World) :
  cache_up w ->
  cache_lookup (cache_write (base.insert key s) w) key = Some s.
Proof.
  unfold cache_lookup, cache_write.
  intros [Hmode | (r & Hredis & Herr)].
  - rewrite Hmode. cbn. rewrite Hmode. apply lookup_insert_eq.
  - destruct (w_useInMemoryCache w) eqn:Hmode; cbn; rewrite ?Hmode;
      [apply lookup_insert_eq|].
    rewrite Hredis, Herr. cbn. rewrite Hmode. apply lookup_insert_eq.
Qed.

Lemma cache_write_twice (f : gmap string string -> gmap string string)
    (t : list event) (w : World) :
  (forall m, f (f m) = f m) ->
  cache_of (cache_write f (set_trace t (cache_write f w))) = cache_of (cache_write f w).
Proof.
  intros Hf. destruct w as [calls tables dberr mode mem redis trace].
  unfold cache_of, cache_write. cbn.
  destruct mode; cbn; [by rewrite Hf|].
  destruct redis as [[d [msg|]]|]; cbn; [done| |done].
  by rewrite Hf.
Qed.

(** X13 — what [cacheSet] stores, [cacheGet] returns: with a backend that
    answers, a value that survives its JSON serialization comes back from
    the cache under the key it was stored under, whatever was there
    before, and the entries under other keys are not affected. *)
Theorem cacheSet_then_cacheGet (key : string) (value : json) (ttl : option nat)
    (w : World) :
  cache_up w ->
  JSON_parse P (JSON_stringify P value) = Some value ->
  JSON_stringify P value <> EmptyString ->
  exists w1 w2,
    cacheSet P key value ttl w = (inr tt, w1) /\
    cacheGet P key w1 = (inr value, w2) /\
    (forall k, k <> key -> cached_value P w1 k = cached_value P w k) /\
    store_of w1 = store_of w.
Proof.
  intros Hup Hjson Hne. rewrite cacheSet_eq. eexists _, _.
  split; [reflexivity|]. rewrite cacheGet_eq.
  split; [|split].
  - f_equal. unfold cached_value.
    rewrite cache_lookup_write_eq by done.
    apply String.eqb_neq in Hne. by rewrite Hne, Hjson.
  - intros k Hk. unfold cached_value.
    rewrite cache_lookup_write_ne by (intros m; by apply lookup_insert_ne).
    done.
  - by rewrite (proj1 (cache_write_frame _ _)).
Qed.

(** X14 — after [cacheDelete] the key is a miss, in every state of the
    cache and whether or not the key was cached; the entries under other
    keys and the row store are not affected.  Deleting twice is deleting
    once. *)
Theorem cacheDelete_then_miss (key : string) (w : World) :
  exists w1 w2,
    cacheDelete key w = (inr tt, w1) /\
    cacheGet P key w1 = (inr JNull, w2) /\
    (forall k, k <> key -> cached_value P w1 k = cached_value P w k) /\
    store_of w1 = store_of w /\
    (exists w3, cacheDelete key w1 = (inr tt, w3) /\ cache_of w3 = cache_of w1).
Proof.
  rewrite cacheDelete_eq. eexists _, _. split; [reflexivity|].
  rewrite cacheGet_eq. split; [|split; [|split]].
  - f_equal. unfold cached_value. by rewrite cache_lookup_delete.
  - intros k Hk. unfold cached_value.
    rewrite cache_lookup_write_ne by (intros m; by apply lookup_delete_ne).
    done.
  - by rewrite (proj1 (cache_write_frame _ _)).
  - rewrite cacheDelete_eq. eexists. split; [reflexivity|].
    apply cache_write_twice. intros m. apply delete_delete_eq.
Qed.

Lemma append_inj_l (p s t : string) : p +:+ s = p +:+ t -> s = t.
Proof. induction p as [|c p IH]; simpl; [done|]. intros [= H]. by apply IH. Qed.

Lemma colon_split (a a' b b' : string) :
  colon_free a = true -> colon_free a' = true ->
  a +:+ ":" +:+ b = a' +:+ ":" +:+ b' -> a = a' /\ b = b'.
Proof.
  revert a'. induction a as [|c a IH]; intros [|c' a']; unfold colon_free; simpl.
  - intros _ _ [= H]. by subst.
  - intros _ Hc' [= Hc _]. subst c'. by rewrite Ascii.eqb_refl in Hc'.
  - intros Hc _ [= Hc' _]. subst c. by rewrite Ascii.eqb_refl in Hc.
  - intros [_ Ha]%andb_prop [_ Ha']%andb_prop [= Hc H]. subst c'.
    by destruct (IH a' Ha Ha' H) as [-> ->].
Qed.

(** X15 — the cache keys of two identities are different whenever the
    workspace ids contain no colon (identifiers such as UUIDs never do);
    without that two different identities can share a key, and with it a
    cache entry. *)
Theorem generateCacheKey_separates_identities :
  (forall type workspaceId userId workspaceId' userId',
      colon_free workspaceId = true ->
      colon_free workspaceId' = true ->
      generateCacheKey type [workspaceId; userId]
      = generateCacheKey type [workspaceId'; userId'] ->
      workspaceId = workspaceId' /\ userId = userId') /\
  generateCacheKey "secret_context" ["a:b"; "c"]
  = generateCacheKey "secret_context" ["a"; "b:c"].
Proof.
  split; [|reflexivity].
  intros type W U W' U' HW HW'. unfold generateCacheKey.
  intros H. apply append_inj_l in H. apply append_inj_l in H.
  apply append_inj_l in H. by apply colon_split.
Qed.

(** X16 — [healthCheck] never throws and changes neither the row store
    nor the cache.  It reports the database as healthy exactly when the
    store accepts the probe of [profiles], and the cache exactly when the
    backend answers; [GET /health] says [healthy] when both are and
    [degraded] otherwise. *)
Theorem health_is_reported (w : World) :
  exists h w1 body w2,
    DatabaseClient.healthCheck w = (inr h, w1) /\
    store_of w1 = store_of w /\ cache_of w1 = cache_of w /\
    (DatabaseClient.database h = true <-> w_db_error w !! "profiles" = None) /\
    (DatabaseClient.cache h = true <-> cache_up w) /\
    get_health P w = (inr body, w2) /\
    obj_get body "database" = Some (JBool (DatabaseClient.database h)) /\
    obj_get body "cache" = Some (JBool (DatabaseClient.cache h)) /\
    obj_get body "status"
    = Some (JStr (if DatabaseClient.database h && DatabaseClient.cache h
                  then "healthy" else "degraded")).
Proof.
  assert (exists h w1,
             DatabaseClient.healthCheck w = (inr h, w1) /\
             store_of w1 = store_of w /\ cache_of w1 = cache_of w /\
             (DatabaseClient.database h = true <-> w_db_error w !! "profiles" = None) /\
             (DatabaseClient.cache h = true <-> cache_up w))
    as (h & w1 & Hrun & Hstore & Hcache & Hdb & Hc).
  { unfold DatabaseClient.healthCheck, bind, try_catch, redis_command, cache_up.
    rewrite log_eq. cbn.
    destruct (w_useInMemoryCache w) eqn:Hmode; cbn.
    - eexists _, _. split; [reflexivity|]. cbn.
      split; [done|]. split; [done|]. split.
      + by destruct (w_db_error w !! "profiles").
      + split; [by left | done].
    - destruct (w_redis w) as [r|] eqn:Hredis; cbn.
      + destruct (redis_error r) as [msg|] eqn:Herr; cbn.
        * eexists _, _. split; [reflexivity|]. cbn.
          split; [done|]. split; [done|]. split.
          -- by destruct (w_db_error w !! "profiles").
          -- split; [done|]. intros [? | (r' & [= <-] & ?)]; congruence.
        * eexists _, _. split; [reflexivity|]. cbn.
          split; [done|]. split.
          { unfold cache_of. cbn. rewrite Hmode, Hredis. do 2 f_equal.
            destruct r. by cbn in Herr; subst. }
          split.
          -- by destruct (w_db_error w !! "profiles").
          -- split; [|done]. intros _. right. by exists r.
      + eexists _, _. split; [reflexivity|]. cbn.
        split; [done|]. split; [done|]. split.
        * by destruct (w_db_error w !! "profiles").
        * split; [done|]. intros [? | (r' & ? & ?)]; congruence. }
  exists h, w1. unfold get_health.
  erewrite bind_eq by exact Hrun. rewrite bind_eq with (a := Date_now P (w_calls w1))
    (w1 := set_calls (S (w_calls w1)) w1) by apply Date_new_eq.
  eexists _, _. repeat split; try done; by apply Hdb || by apply Hc.
Qed.

End CacheFacts.

(* ===================================================================== *)
(** * More of the service                                                 *)
(* ===================================================================== *)

Section Keeps.

Context (P : Platform) (encryption : EncryptionService P).

Abbreviation sc := "secret_contexts".

#[local] Instance store_kept_refl : Reflexive store_kept.
Proof. by intros w. Qed.

#[local] Instance store_kept_trans : Transitive store_kept.
Proof. intros w1 w2 w3 H1 H2. unfold store_kept in *. congruence. Qed.

#[local] Instance audit_only_refl : Reflexive audit_only.
Proof. by intros w. Qed.

#[local] Instance audit_only_trans : Transitive audit_only.
Proof.
  intros w1 w2 w3 [Hd1 Ht1] [Hd2 Ht2]. split; [congruence|].
  intros t Ht. rewrite Ht2 by done. by apply Ht1.
Qed.

Lemma store_kept_audit_only (w w' : World) : store_kept w w' -> audit_only w w'.
Proof.
  unfold store_kept, store_of. intros [= Ht Hd]. split; [done|].
  intros t _. unfold table. by rewrite Ht.
Qed.

Section Generic.

Context (R : World -> World -> Prop) `{!Reflexive R} `{!Transitive R}.

Lemma keeps_ret {A} (a : A) : keeps R (ret a).
Proof. by intros w. Qed.

Lemma keeps_throw {A} (e : exn) : keeps R (@throw A e).
Proof. by intros w. Qed.

Lemma keeps_lift {A} (r : exn + A) : keeps R (lift r).
Proof. destruct r; [apply keeps_throw | apply keeps_ret]. Qed.

Lemma keeps_bind {A B} (m : M A) (k : A -> M B) :
  keeps R m -> (forall a, keeps R (k a)) -> keeps R (bind m k).
Proof.
  intros Hm Hk w. unfold bind. specialize (Hm w).
  destruct (m w) as [[e|a] w1]; cbn in *; [done|].
  etrans; [exact Hm | apply Hk].
Qed.

Lemma keeps_try_catch {A} (m : M A) (h : exn -> M A) :
  keeps R m -> (forall e, keeps R (h e)) -> keeps R (try_catch m h).
Proof.
  intros Hm Hh w. unfold try_catch. specialize (Hm w).
  destruct (m w) as [[e|a] w1]; cbn in *; [|done].
  etrans; [exact Hm | apply Hh].
Qed.

Lemma keeps_weaken {A} (R' : World -> World -> Prop) (m : M A) :
  (forall w w', R' w w' -> R w w') -> keeps R' m -> keeps R m.
Proof. intros HR Hm w. apply HR, Hm. Qed.

End Generic.

Lemma kept_drawn (w w' : World) : drawn w w' -> store_kept w w'.
Proof. by intros [n ->]. Qed.

Lemma kept_draw : keeps store_kept draw.
Proof. by intros w. Qed.

Lemma kept_log (e : event) : keeps store_kept (log e).
Proof. by intros w. Qed.

Lemma kept_Date_new : keeps store_kept (Date_new P).
Proof. by intros w. Qed.

Lemma kept_randomUUID : keeps store_kept (crypto_randomUUID P).
Proof. by intros w. Qed.

Lemma kept_encrypt (plaintext : string) (expiresAt : option Z) :
  keeps store_kept (encrypt P encryption plaintext expiresAt).
Proof. intros w. by rewrite encrypt_eq. Qed.

Lemma kept_decrypt (encryptedValue : json) :
  keeps store_kept (decrypt P encryption encryptedValue).
Proof. intros w. apply kept_drawn, decrypt_drawn. Qed.

Lemma kept_cacheGet (key : string) : keeps store_kept (cacheGet P key).
Proof. intros w. by rewrite cacheGet_eq. Qed.

Lemma kept_cacheSet (key : string) (value : json) (ttl : option nat) :
  keeps store_kept (cacheSet P key value ttl).
Proof.
  intros w. rewrite cacheSet_eq. unfold store_kept. cbn [snd].
  by rewrite (proj1 (cache_write_frame _ _)).
Qed.

Lemma kept_cacheDelete (key : string) : keeps store_kept (cacheDelete key).
Proof.
  intros w. rewrite cacheDelete_eq. unfold store_kept. cbn [snd].
  by rewrite (proj1 (cache_write_frame _ _)).
Qed.

Lemma kept_findById (tbl id : string) : keeps store_kept (findById tbl id).
Proof. intros w. rewrite findById_eq. by destruct (w_db_error w !! tbl). Qed.

Lemma kept_findByUserAndWorkspace (tbl userId workspaceId : string) :
  keeps store_kept (findByUserAndWorkspace tbl userId workspaceId).
Proof.
  intros w. rewrite findByUserAndWorkspace_eq. by destruct (w_db_error w !! tbl).
Qed.

Lemma kept_getSecretContext (workspaceId userId : string) :
  keeps store_kept (getSecretContext P workspaceId userId).
Proof.
  unfold getSecretContext.
  apply keeps_bind; [apply _ | apply kept_cacheGet | intros cached].
  destruct (truthy cached); [apply keeps_ret; apply _|].
  apply keeps_bind; [apply _ | apply kept_findByUserAndWorkspace | intros rows].
  destruct rows as [|row rows]; [apply keeps_ret; apply _|].
  apply keeps_bind; [apply _ | apply kept_cacheSet | intros _].
  apply keeps_ret; apply _.
Qed.

Lemma audit_createAuditLog (logData : AuditLogData) :
  keeps audit_only (createAuditLog P logData).
Proof.
  intros w. rewrite createAuditLog_eq. cbn zeta. cbn [snd].
  destruct (w_db_error w !! "audit_logs"); [done|].
  split; [done|]. intros t Ht. unfold table. cbn. by rewrite lookup_insert_ne.
Qed.

End Keeps.

Section ReadsAndRefusals.

Context (P : Platform) (encryption : EncryptionService P).

Abbreviation sc := "secret_contexts".

#[local] Existing Instance store_kept_refl.
#[local] Existing Instance store_kept_trans.
#[local] Existing Instance audit_only_refl.
#[local] Existing Instance audit_only_trans.

Ltac kept_step :=
  match goal with
  | |- keeps audit_only (createAuditLog _ _) => apply audit_createAuditLog
  | |- keeps store_kept (getSecretContext _ _ _) => apply kept_getSecretContext
  | |- keeps store_kept (decrypt _ _ _) => apply kept_decrypt
  | |- keeps store_kept (encrypt _ _ _ _) => apply kept_encrypt
  | |- keeps store_kept (Date_new _) => apply kept_Date_new
  | |- keeps store_kept (crypto_randomUUID _) => apply kept_randomUUID
  | |- keeps store_kept (cacheDelete _) => apply kept_cacheDelete
  | |- keeps store_kept (findById _ _) => apply kept_findById
  | |- keeps _ (bind _ _) => apply keeps_bind; [apply _ | | intros ?]
  | |- keeps _ (try_catch _ _) => apply keeps_try_catch; [apply _ | | intros ?]
  | |- keeps _ (ret _) => apply keeps_ret; apply _
  | |- keeps _ (throw _) => apply keeps_throw; apply _
  | |- keeps _ (lift _) => apply keeps_lift; apply _
  | |- keeps _ (if ?b then _ else _) => destruct b
  | |- keeps _ (match ?x with _ => _ end) => destruct x
  | |- keeps audit_only _ =>
      apply (keeps_weaken audit_only store_kept _ store_kept_audit_only)
  end.

Ltac kept := repeat kept_step.

(** X17 — reading never writes a context.  [getCredential] and
    [getSSHKey], whatever they return or throw, write no table but the
    audit log, and [listSecrets] writes no table at all; none of them
    changes the mode of the row store. *)
Theorem reads_write_no_context :
  (forall workspaceId userId key,
      keeps audit_only (getCredential P encryption workspaceId userId key)) /\
  (forall workspaceId userId keyName,
      keeps audit_only (getSSHKey P encryption workspaceId userId keyName)) /\
  (forall workspaceId userId, keeps store_kept (listSecrets P workspaceId userId)).
Proof.
  split; [|split].
  - intros. unfold getCredential. kept.
  - intros. unfold getSSHKey. kept.
  - intros. unfold listSecrets. kept.
Qed.

Lemma declines_bind {A B} (allowed : B -> Prop) (m : M A) (k : A -> M B)
    (w : World) :
  keeps store_kept m ->
  (forall a w1, store_of w1 = store_of w -> declines allowed (k a) w1) ->
  declines allowed (bind m k) w.
Proof.
  intros Hm Hk. unfold declines, bind. specialize (Hm w).
  destruct (m w) as [[e|a] w1]; cbn in *; [by split|].
  destruct (Hk a w1 Hm) as [Hstore Hres]. split; [|done].
  unfold store_kept in Hm. congruence.
Qed.

Lemma declines_ret {A} (allowed : A -> Prop) (a : A) (w : World) :
  allowed a -> declines allowed (ret a) w.
Proof. intros Ha. split; [done|]. by intros a' [= <-]. Qed.

Lemma declines_throw {A} (allowed : A -> Prop) (e : exn) (w : World) :
  declines allowed (throw e) w.
Proof. by split. Qed.

Lemma kept_encryptObject (o : obj) (fields : list string) (expiresAt : option Z) :
  keeps store_kept (encryptObject P encryption o fields expiresAt).
Proof.
  unfold encryptObject. generalize (obj_set o "_encrypted_fields" (JArr [])).
  induction fields as [|field rest IH]; intros result; cbn [encryptObject_loop].
  - kept.
  - destruct (defined_and_not_null (obj_get o field)); [|apply IH].
    kept_step; [kept|]. kept_step; [unfold push_field; kept | apply IH].
Qed.

(** While the row store rejects requests on [secret_contexts], persisting
    a context fails and writes nothing. *)
Lemma saveSecretContext_down (secretContext : json) (msg : string) (w : World) :
  w_db_error w !! sc = Some msg ->
  declines (fun _ : unit => False) (saveSecretContext P encryption secretContext) w.
Proof.
  intros Hdb. unfold saveSecretContext.
  destruct secretContext; try apply declines_throw.
  apply declines_bind; [apply kept_encryptObject|]. intros enc w1 Hw1.
  apply declines_bind; [unfold row_id; kept|]. intros id w2 Hw2.
  assert (w_db_error w2 !! sc = Some msg) as Hdb2.
  { unfold store_of in Hw1, Hw2. congruence. }
  unfold declines, bind. rewrite findById_eq, Hdb2. by split.
Qed.

Lemma write_path_down (workspaceId userId map key plaintext : string)
    (expiresAt : option Z) (decorate : obj -> obj) (logData : AuditLogData)
    (msg : string) (w : World) :
  w_db_error w !! sc = Some msg ->
  declines (fun _ : unit => False)
    (write_path P encryption workspaceId userId map key plaintext expiresAt
       decorate logData) w.
Proof.
  intros Hdb. unfold write_path.
  apply declines_bind; [kept|]. intros e w1 Hw1.
  apply declines_bind; [kept|]. intros loaded w2 Hw2.
  apply declines_bind; [unfold createEmptySecretContext; kept|]. intros c1 w3 Hw3.
  apply declines_bind; [kept|]. intros c2 w4 Hw4.
  apply declines_bind; [kept|]. intros now w5 Hw5.
  apply declines_bind; [kept|]. intros c3 w6 Hw6.
  assert (w_db_error w6 !! sc = Some msg) as Hdb6.
  { unfold store_of in *. congruence. }
  destruct (saveSecretContext_down c3 msg w6 Hdb6) as [Hstore Hres].
  unfold declines, bind.
  destruct (saveSecretContext P encryption c3 w6) as [[err|[]] w7]; cbn in *;
    [by split|].
  by destruct (Hres tt).
Qed.

(** X18 — while the row store rejects requests on [secret_contexts],
    no mutation gets through: [storeCredential] and [storeSSHKey] throw,
    [deleteSecret] throws or returns [false], and none of them writes a
    table — no context, and no audit entry for a write that did not
    happen. *)
Theorem mutations_refused_while_store_is_down (msg : string) (w : World) :
  w_db_error w !! sc = Some msg ->
  (forall workspaceId userId key value credentialType provider expiresAt,
      let run := storeCredential P encryption workspaceId userId key value
                   credentialType provider expiresAt w in
      (exists e, fst run = inl e) /\ store_of (snd run) = store_of w) /\
  (forall workspaceId userId keyName privateKey publicKey keyType metadata,
      let run := storeSSHKey P encryption workspaceId userId keyName privateKey
                   publicKey keyType metadata w in
      (exists e, fst run = inl e) /\ store_of (snd run) = store_of w) /\
  (forall workspaceId userId secretType key,
      let run := deleteSecret P encryption workspaceId userId secretType key w in
      fst run <> inr true /\ store_of (snd run) = store_of w).
Proof.
  intros Hdb. split; [|split].
  - intros workspaceId userId k value credentialType provider expiresAt run.
    subst run. rewrite storeCredential_write_path.
    destruct (write_path_down workspaceId userId "credentials" k value expiresAt
                (credential_entry userId k credentialType provider)
                (credential_log P workspaceId userId k value) msg w Hdb)
      as [Hstore Hres].
    split; [|done].
    destruct (fst (write_path _ _ _ _ _ _ _ _ _ _ _)) as [e|[]] eqn:E;
      [by exists e | by destruct (Hres tt)].
  - intros workspaceId userId keyName privateKey publicKey keyType metadata run.
    subst run. rewrite storeSSHKey_write_path.
    destruct (write_path_down workspaceId userId "ssh_keys" keyName privateKey None
                (ssh_key_entry P encryption publicKey keyType metadata)
                (ssh_key_log workspaceId userId keyName) msg w Hdb)
      as [Hstore Hres].
    split; [|done].
    destruct (fst (write_path _ _ _ _ _ _ _ _ _ _ _)) as [e|[]] eqn:E;
      [by exists e | by destruct (Hres tt)].
  - intros workspaceId userId secretType k run. subst run.
    assert (declines (fun b : bool => b = false)
              (deleteSecret P encryption workspaceId userId secretType k) w)
      as [Hstore Hres].
    { unfold deleteSecret.
      apply declines_bind; [kept|]. intros ctx w1 Hw1.
      destruct (negb (truthy ctx)); [by apply declines_ret|].
      apply declines_bind; [kept|]. intros old w2 Hw2.
      apply declines_bind; [kept|]. intros entry w3 Hw3.
      destruct (truthy_opt entry); [|by apply declines_ret].
      apply declines_bind; [kept|]. intros now w4 Hw4.
      apply declines_bind; [kept|]. intros c w5 Hw5.
      assert (w_db_error w5 !! sc = Some msg) as Hdb5.
      { unfold store_of in *. congruence. }
      destruct (saveSecretContext_down c msg w5 Hdb5) as [Hstore Hres].
      unfold declines, bind.
      destruct (saveSecretContext P encryption c w5) as [[err|[]] w6]; cbn in *;
        [by split|].
      by destruct (Hres tt). }
    split; [|done]. intros Htrue. by specialize (Hres true Htrue).
Qed.

End ReadsAndRefusals.

Section ReadPath.

Context (P : Platform) `{!CipherCorrect P} (encryption : EncryptionService P).

Abbreviation sc := "secret_contexts".

Lemma cached_value_cache_of (w w' : World) (key : string) :
  cache_of w' = cache_of w -> cached_value P w' key = cached_value P w key.
Proof.
  unfold cache_of, cached_value, cache_lookup. by intros [= -> -> ->].
Qed.

(** X19 — the look-up of a context reads through the cache.  On a miss
    with a working backend the first stored row of the identity is
    returned and cached; from then on, as long as the cache entry stays,
    the look-up returns that same context with a single cache read and no
    request to the row store — whatever has happened to the store in the
    meantime. *)
Theorem getSecretContext_reads_through (workspaceId userId : string) (row : obj)
    (rest : list obj) (w : World) :
  cache_up w ->
  truthy (cached_value P w (context_key workspaceId userId)) = false ->
  w_db_error w !! sc = None ->
  context_rows w workspaceId userId = row :: rest ->
  JSON_parse P (JSON_stringify P (JObj row)) = Some (JObj row) ->
  JSON_stringify P (JObj row) <> EmptyString ->
  exists w1,
    getSecretContext P workspaceId userId w = (inr (JObj row), w1) /\
    w_trace w1 = w_trace w ++ [EvCacheGet (context_key workspaceId userId);
                               EvDbSelect sc;
                               EvCacheSet (context_key workspaceId userId)] /\
    store_of w1 = store_of w /\
    forall w2,
      cache_of w2 = cache_of w1 ->
      getSecretContext P workspaceId userId w2
      = (inr (JObj row),
         set_trace (w_trace w2 ++ [EvCacheGet (context_key workspaceId userId)]) w2).
Proof.
  intros Hup Hmiss Hdb Hrows Hjson Hne.
  rewrite getSecretContext_eq. cbn zeta. rewrite Hmiss, Hdb, Hrows.
  eexists. split; [reflexivity|].
  set (w0 := set_trace _ w).
  assert (cached_value P (cache_write
                            (base.insert (context_key workspaceId userId)
                                         (JSON_stringify P (JObj row))) w0)
            (context_key workspaceId userId) = JObj row) as Hcached.
  { unfold cached_value. rewrite cache_lookup_write_eq by done.
    apply String.eqb_neq in Hne. by rewrite Hne, Hjson. }
  split; [|split].
  - rewrite (proj2 (proj2 (cache_write_frame _ _))). unfold w0. cbn.
    by rewrite <- !app_assoc.
  - by rewrite (proj1 (cache_write_frame _ _)).
  - intros w2 Hw2. rewrite getSecretContext_eq. cbn zeta.
    rewrite (cached_value_cache_of _ _ _ Hw2), Hcached. done.
Qed.

Lemma auditLog_of_error (logData : AuditLogData) (id : string) (now : Z) :
  obj_get (auditLog_of P logData id now) "error_message"
  = JStr <$> log_error_message logData.
Proof.
  unfold auditLog_of, with_optional.
  destruct (log_old_value_hash logData), (log_new_value_hash logData),
    (log_error_message logData); cbn; try done.
Qed.

(** The world after [createAuditLog]: two draws, one insert into the
    audit log, which is appended to when the table accepts it. *)
Lemma createAuditLog_appends (logData : AuditLogData) (w : World) :
  exists auditLog w',
    createAuditLog P logData w = (inr tt, w') /\
    auditLog = auditLog_of P logData (randomUUID P (w_calls w))
                 (Date_now P (S (w_calls w))) /\
    w_trace w' = w_trace w ++ [EvDbInsert "audit_logs" auditLog] /\
    (w_db_error w !! "audit_logs" = None ->
     table w' "audit_logs" = table w "audit_logs" ++ [auditLog]).
Proof.
  rewrite createAuditLog_eq. cbn zeta. eexists _, _.
  split; [reflexivity|]. split; [reflexivity|]. split.
  - by destruct (w_db_error w !! "audit_logs").
  - intros ->. unfold table. cbn. by rewrite lookup_insert_eq.
Qed.

Lemma getCredential_entry_eq (workspaceId userId key : string) (c m : obj)
    (entry : json) (w w1 : World) :
  getSecretContext P workspaceId userId w = (inr (JObj c), w1) ->
  obj_get c "credentials" = Some (JObj m) ->
  obj_get m key = Some entry ->
  truthy entry = true ->
  getCredential P encryption workspaceId userId key w
  = try_catch
      (decryptedValue <- decrypt P encryption entry;;
       createAuditLog P (get_credential_log workspaceId userId key "success" None);;
       ret (Some decryptedValue))
      (fun error =>
         createAuditLog P (get_credential_log workspaceId userId key "failed"
                             (Some (exn_message error)));;
         throw (Exn "Error"
                  ("Failed to decrypt credential '" +:+ key +:+ "': "
                   +:+ exn_to_string error))) w1.
Proof.
  intros Hctx Hc Hm Hentry. unfold getCredential.
  erewrite bind_eq by exact Hctx. cbn [truthy negb].
  unfold entry_of. cbn [get_prop]. rewrite Hc. cbn [get_prop]. rewrite Hm.
  erewrite bind_eq by reflexivity. cbn [truthy_opt]. rewrite Hentry.
  reflexivity.
Qed.

(** X20 — [getCredential] on an entry that holds a sealed value.  When
    the context that is looked up has, under the key in its [credentials]
    map, an entry whose cipher fields are those of an envelope sealed by
    this engine for a value, [getCredential] returns that value and
    records one [get_credential] audit entry with status [success] and no
    value hash. *)
Theorem getCredential_returns_sealed_value (workspaceId userId key value : string)
    (c m entry e : obj) (w w1 : World) :
  getSecretContext P workspaceId userId w = (inr (JObj c), w1) ->
  obj_get c "credentials" = Some (JObj m) ->
  obj_get m key = Some (JObj entry) ->
  sealed P encryption value e ->
  (forall k, k ∈ cipher_fields -> obj_get entry k = obj_get e k) ->
  exists auditLog w',
    getCredential P encryption workspaceId userId key w = (inr (Some value), w') /\
    w_trace w' = w_trace w1 ++ [EvDbInsert "audit_logs" auditLog] /\
    obj_get auditLog "operation" = Some (JStr "get_credential") /\
    obj_get auditLog "resource_key" = Some (JStr key) /\
    obj_get auditLog "status" = Some (JStr "success") /\
    obj_get auditLog "old_value_hash" = None /\
    obj_get auditLog "new_value_hash" = None /\
    (w_db_error w1 !! "audit_logs" = None ->
     table w' "audit_logs" = table w1 "audit_logs" ++ [auditLog]).
Proof.
  intros Hctx Hc Hm Hsealed Hsame.
  rewrite (getCredential_entry_eq _ _ _ c m (JObj entry) w w1) by done.
  unfold try_catch.
  erewrite bind_eq; cycle 1.
  { rewrite (decrypt_cipher_fields P encryption e entry w1 Hsame).
    by apply sealed_decrypt. }
  destruct (createAuditLog_appends
              (get_credential_log workspaceId userId key "success" None) w1)
    as (auditLog & w' & Hrun & -> & Htrace & Htable).
  erewrite bind_eq by exact Hrun. cbn.
  eexists _, w'. split; [reflexivity|]. split; [exact Htrace|].
  destruct (auditLog_of_get P
              (get_credential_log workspaceId userId key "success" None)
              (randomUUID P (w_calls w1)) (Date_now P (S (w_calls w1))))
    as (-> & -> & -> & -> & ->).
  by repeat split.
Qed.

End ReadPath.

Section ReadFailures.

Context (P : Platform) (encryption : EncryptionService P).

(** X21 — [getCredential] on an entry that cannot be decrypted (expired,
    tampered with, malformed) throws an error that names the key and
    wraps the cause, after recording one [get_credential] audit entry
    with status [failed] and the cause's message; no plaintext is
    returned. *)
Theorem getCredential_reports_failure (workspaceId userId key : string)
    (c m : obj) (entry : json) (cause : exn) (w w1 w2 : World) :
  getSecretContext P workspaceId userId w = (inr (JObj c), w1) ->
  obj_get c "credentials" = Some (JObj m) ->
  obj_get m key = Some entry ->
  truthy entry = true ->
  decrypt P encryption entry w1 = (inl cause, w2) ->
  exists auditLog w',
    getCredential P encryption workspaceId userId key w
    = (inl (Exn "Error"
              ("Failed to decrypt credential '" +:+ key +:+ "': "
               +:+ exn_to_string cause)), w') /\
    w_trace w' = w_trace w1 ++ [EvDbInsert "audit_logs" auditLog] /\
    obj_get auditLog "operation" = Some (JStr "get_credential") /\
    obj_get auditLog "resource_key" = Some (JStr key) /\
    obj_get auditLog "status" = Some (JStr "failed") /\
    obj_get auditLog "error_message" = Some (JStr (exn_message cause)) /\
    (w_db_error w1 !! "audit_logs" = None ->
     table w' "audit_logs" = table w1 "audit_logs" ++ [auditLog]).
Proof.
  intros Hctx Hc Hm Hentry Hdec.
  rewrite (getCredential_entry_eq P encryption _ _ _ c m entry w w1) by done.
  unfold try_catch. erewrite bind_throw by exact Hdec.
  destruct (createAuditLog_appends P
              (get_credential_log workspaceId userId key "failed"
                 (Some (exn_message cause))) w2)
    as (auditLog & w' & Hrun & -> & Htrace & Htable).
  erewrite bind_eq by exact Hrun. cbn.
  pose proof (decrypt_drawn P encryption entry w1) as Hdrawn.
  rewrite Hdec in Hdrawn. cbn in Hdrawn. destruct Hdrawn as [n ->].
  eexists _, w'. split; [reflexivity|]. split; [exact Htrace|].
  destruct (auditLog_of_get P
              (get_credential_log workspaceId userId key "failed"
                 (Some (exn_message cause)))
              (randomUUID P n) (Date_now P (S n)))
    as (Hop & Hkey & Hstatus & _).
  cbn [w_calls set_calls] in *.
  rewrite Hop, Hkey, Hstatus, auditLog_of_error. by repeat split.
Qed.


End ReadFailures.

Section FirstStore.

Context (P : Platform) (encryption : EncryptionService P).

Abbreviation sc := "secret_contexts".
Abbreviation ef := "_encrypted_fields".



End FirstStore.

Section MoreReads.

Context (P : Platform) `{!CipherCorrect P} (encryption : EncryptionService P).

(** X24 — [getSSHKey] on an entry that holds a sealed private key
    returns the private key together with the [public_key] and the
    [fingerprint] that the entry carries, and records one [get_ssh_key]
    audit entry with status [success]. *)
Theorem getSSHKey_returns_sealed_key (workspaceId userId keyName value : string)
    (c m entry e : obj) (w w1 : World) :
  getSecretContext P workspaceId userId w = (inr (JObj c), w1) ->
  obj_get c "ssh_keys" = Some (JObj m) ->
  obj_get m keyName = Some (JObj entry) ->
  sealed P encryption value e ->
  (forall k, k ∈ cipher_fields -> obj_get entry k = obj_get e k) ->
  exists auditLog w',
    getSSHKey P encryption workspaceId userId keyName w
    = (inr (Some {| privateKey := value;
                    publicKey := obj_get entry "public_key";
                    fingerprint := obj_get entry "fingerprint" |}), w') /\
    w_trace w' = w_trace w1 ++ [EvDbInsert "audit_logs" auditLog] /\
    obj_get auditLog "operation" = Some (JStr "get_ssh_key") /\
    obj_get auditLog "resource_key" = Some (JStr keyName) /\
    obj_get auditLog "status" = Some (JStr "success") /\
    (w_db_error w1 !! "audit_logs" = None ->
     table w' "audit_logs" = table w1 "audit_logs" ++ [auditLog]).
Proof.
  intros Hctx Hc Hm Hsealed Hsame. unfold getSSHKey.
  erewrite bind_eq by exact Hctx. cbn [truthy negb].
  unfold entry_of. cbn [get_prop]. rewrite Hc. cbn [get_prop]. rewrite Hm.
  erewrite bind_eq by reflexivity. cbn [truthy_opt truthy negb or_null].
  unfold try_catch.
  erewrite bind_eq; cycle 1.
  { rewrite (decrypt_cipher_fields P encryption e entry w1 Hsame).
    by apply sealed_decrypt. }
  destruct (createAuditLog_appends P
              (get_ssh_key_log workspaceId userId keyName "success" None) w1)
    as (auditLog & w' & Hrun & -> & Htrace & Htable).
  erewrite bind_eq by exact Hrun. cbn.
  eexists _, w'. split; [reflexivity|]. split; [exact Htrace|].
  destruct (auditLog_of_get P
              (get_ssh_key_log workspaceId userId keyName "success" None)
              (randomUUID P (w_calls w1)) (Date_now P (S (w_calls w1))))
    as (-> & -> & -> & _).
  by repeat split.
Qed.

End MoreReads.

Section Listing.

Context (P : Platform).

Lemma pick_frame (entry : json) (names : list (string * string)) (acc : obj) :
  entry <> JNull ->
  exists o, pick entry names acc = inr o /\
            forall k, k ∉ names.*1 -> obj_get o k = obj_get acc k.
Proof.
  intros Hentry. revert acc.
  induction names as [|[name source] names IH]; intros acc; cbn [pick].
  - by exists acc.
  - assert (exists x, get_prop entry source = inr x) as [x ->]
      by (destruct entry; [done|..]; by eexists).
    destruct x as [v|].
    + destruct (IH (obj_set acc name v)) as (o & -> & Hframe).
      exists o. split; [done|]. intros k [Hk1 Hk2]%not_elem_of_cons.
      rewrite Hframe by done. apply obj_get_set_ne. by intros ->.
    + destruct (IH acc) as (o & -> & Hframe).
      exists o. split; [done|]. intros k [_ Hk2]%not_elem_of_cons. by apply Hframe.
Qed.

Lemma filter_keys_subseteq {A} (p : string * A -> bool) (l : list (string * A))
    (k : string) :
  k ∉ l.*1 -> k ∉ (List.filter p l).*1.
Proof.
  intros Hk Hin. apply Hk. apply list_elem_of_fmap in Hin as ([k' v] & -> & Hin).
  apply list_elem_of_In, filter_In in Hin as [Hin _].
  apply list_elem_of_fmap. exists (k', v). split; [done|]. by apply list_elem_of_In.
Qed.

Lemma describe_lists (names optional : list (string * string)) (m : obj) :
  "key" ∉ names.*1 -> "key" ∉ optional.*1 ->
  Forall (fun kv => snd kv <> JNull) m ->
  exists items,
    describe names optional m = inr items /\
    Forall2 (lists_entry ("key" :: names.*1 ++ optional.*1)) m items.
Proof.
  intros Hn Ho. induction m as [|[k entry] m IH]; intros Hall; cbn [describe].
  - by exists [].
  - apply Forall_cons in Hall as [Hentry Hall]. cbn in Hentry.
    destruct (pick_frame entry names [("key", JStr k)] Hentry) as (item & -> & Hitem).
    destruct (pick_frame entry
                (List.filter (fun n => match get_prop entry (snd n) with
                                       | inr v => truthy_opt v
                                       | inl _ => false
                                       end) optional) item Hentry)
      as (item' & -> & Hitem').
    destruct (IH Hall) as (items & -> & Hitems).
    eexists. split; [reflexivity|]. constructor; [|done].
    exists item'. split; [done|]. split.
    + rewrite Hitem' by (by apply filter_keys_subseteq). by rewrite Hitem.
    + intros k' Hk'. apply not_elem_of_cons in Hk' as [Hkey Hk'].
      apply not_elem_of_app in Hk' as [Hk1 Hk2].
      rewrite Hitem' by (by apply filter_keys_subseteq).
      rewrite Hitem by done. cbn.
      destruct (String.eqb k' "key") eqn:E; [|done].
      by apply String.eqb_eq in E.
Qed.

(** X25 — [listSecrets] lists metadata only.  For a context whose three
    maps are objects with no [null] entry it returns, without drawing
    from the runtime, writing a table or recording an audit entry, one
    item per entry of each map, in the order of the map; each item names
    the entry's key and has no property but the listed metadata — in
    particular no ciphertext, IV or authentication tag. *)
Theorem listSecrets_lists_metadata_only (workspaceId userId : string)
    (c credentials ssh_keys certificates : obj) (w w1 : World) :
  getSecretContext P workspaceId userId w = (inr (JObj c), w1) ->
  obj_get c "credentials" = Some (JObj credentials) ->
  obj_get c "ssh_keys" = Some (JObj ssh_keys) ->
  obj_get c "certificates" = Some (JObj certificates) ->
  Forall (fun kv => snd kv <> JNull) (credentials ++ ssh_keys ++ certificates) ->
  exists secrets,
    listSecrets P workspaceId userId w = (inr secrets, w1) /\
    Forall2 (lists_entry ["key"; "provider"; "type"; "created_at"; "expires_at"])
      credentials (list_credentials secrets) /\
    Forall2 (lists_entry ["key"; "type"; "fingerprint"; "created_at"])
      ssh_keys (list_ssh_keys secrets) /\
    Forall2 (lists_entry ["key"; "type"; "common_name"; "expires_at"])
      certificates (list_certificates secrets).
Proof.
  intros Hctx Hcreds Hkeys Hcerts Hall.
  apply Forall_app in Hall as [Hall1 Hall].
  apply Forall_app in Hall as [Hall2 Hall3].
  unfold listSecrets. erewrite bind_eq by exact Hctx. cbn [truthy negb get_prop].
  rewrite Hcreds, Hkeys, Hcerts. cbn [entries].
  destruct (describe_lists
              [("provider", "provider"); ("type", "credential_type");
               ("created_at", "created_at")]
              [("expires_at", "expires_at")] credentials)
    as (l1 & H1 & Hl1); [by apply (bool_decide_unpack _) | by apply (bool_decide_unpack _) | done |].
  destruct (describe_lists
              [("type", "key_type"); ("fingerprint", "fingerprint");
               ("created_at", "created_at")] [] ssh_keys)
    as (l2 & H2 & Hl2); [by apply (bool_decide_unpack _) | by apply (bool_decide_unpack _) | done |].
  destruct (describe_lists
              [("type", "certificate_type"); ("common_name", "common_name");
               ("expires_at", "expires_at")] [] certificates)
    as (l3 & H3 & Hl3); [by apply (bool_decide_unpack _) | by apply (bool_decide_unpack _) | done |].
  repeat (erewrite bind_eq by reflexivity).
  rewrite H1. repeat (erewrite bind_eq by reflexivity).
  rewrite H2. repeat (erewrite bind_eq by reflexivity).
  rewrite H3. repeat (erewrite bind_eq by reflexivity).
  eexists. split; [reflexivity|]. by repeat split.
Qed.

End Listing.

Section StoredEntries.

Context (P : Platform) `{!CipherCorrect P} (encryption : EncryptionService P).

Abbreviation sc := "secret_contexts".



End StoredEntries.

(* ===================================================================== *)
(** * The routes                                                          *)
(* ===================================================================== *)

Section RouteFacts.

Context (P : Platform) (encryption : EncryptionService P).

(** X27 — a request without an identity reaches no service.  When the
    request carries no user, or a user whose [user_id] or [workspace_id]
    is empty, each of the four secret routes answers 401 [Unauthorized]
    and leaves the world exactly as it was: no look-up, no audit entry,
    no cache access. *)
Theorem unauthenticated_requests_reach_nothing (user : option JwtUser) (w : World) :
  (user = None \/
   exists u, user = Some u /\
             (jwt_user_id u = EmptyString \/ jwt_workspace_id u = EmptyString)) ->
  (forall key, get_secret_credential P encryption user key w = (inr unauthorized, w)) /\
  (forall keyName,
      get_secret_ssh_key P encryption user keyName w = (inr unauthorized, w)) /\
  get_secret_list P user w = (inr unauthorized, w) /\
  (forall type key, delete_secret P encryption user type key w = (inr unauthorized, w)).
Proof.
  intros Huser.
  assert (requireAuth user = inl unauthorized) as Hauth.
  { destruct Huser as [-> | (u & -> & [Hu | Hu])]; [done| |];
      unfold requireAuth; rewrite Hu; [done|].
    by rewrite orb_true_r. }
  unfold get_secret_credential, get_secret_ssh_key, get_secret_list, delete_secret.
  by rewrite Hauth.
Qed.

(** X28 — the secret routes always answer.  For an authenticated
    request none of them throws, whatever the service does, and the
    world they leave is the one the service leaves.  [GET
    /secret/credential/:key] answers 200, with the value, exactly when the
    service returns a non-empty value; 404 exactly when it returns [null]
    or the empty string; 500, with the error's message, exactly when it
    throws.  [DELETE /secret/:type/:key] answers 400, without calling the
    service, for a type that is not one of the three kinds; otherwise 200
    exactly when the service reports a deletion, 404 when it reports
    none, and 500 when it throws. *)
Theorem secret_routes_always_answer (u : JwtUser) (w : World) :
  requireAuth (Some u) = inr u ->
  (forall key,
      let run := getCredential P encryption (jwt_workspace_id u) (jwt_user_id u)
                   key w in
      exists r,
        get_secret_credential P encryption (Some u) key w = (inr r, snd run) /\
        (reply_code r = 200%nat <->
         exists value, fst run = inr (Some value) /\ value <> EmptyString /\
                       obj_get (reply_payload r) "data"
                       = Some (JObj [("value", JStr value)])) /\
        (reply_code r = 404%nat <->
         fst run = inr None \/ fst run = inr (Some EmptyString)) /\
        (reply_code r = 500%nat <->
         exists e, fst run = inl e /\
                   obj_get (reply_payload r) "details" = Some (JStr (exn_message e)))) /\
  (forall keyName,
      exists r,
        get_secret_ssh_key P encryption (Some u) keyName w
        = (inr r, snd (getSSHKey P encryption (jwt_workspace_id u) (jwt_user_id u)
                         keyName w)) /\
        reply_code r ∈ [200; 404; 500]%nat) /\
  (exists r,
      get_secret_list P (Some u) w
      = (inr r, snd (listSecrets P (jwt_workspace_id u) (jwt_user_id u) w)) /\
      reply_code r ∈ [200; 500]%nat) /\
  (forall type key,
      secret_type_of type = None ->
      exists r, delete_secret P encryption (Some u) type key w = (inr r, w) /\
                reply_code r = 400%nat) /\
  (forall type key secretType,
      secret_type_of type = Some secretType ->
      let run := deleteSecret P encryption (jwt_workspace_id u) (jwt_user_id u)
                   secretType key w in
      exists r,
        delete_secret P encryption (Some u) type key w = (inr r, snd run) /\
        (reply_code r = 200%nat <-> fst run = inr true) /\
        (reply_code r = 404%nat <-> fst run = inr false) /\
        (reply_code r = 500%nat <-> exists e, fst run = inl e)).
Proof.
  intros Hauth. split; [|split; [|split; [|split]]].
  - intros key run. subst run. unfold get_secret_credential. rewrite Hauth.
    unfold try_catch, bind.
    destruct (getCredential _ _ _ _ _ w) as [[e|[value|]] w']; cbn [fst snd].
    + eexists. split; [reflexivity|]. cbn. split; [|split].
      * split; [done | by intros (? & ? & _)].
      * split; [done | by intros [? | ?]].
      * split; [by exists e | done].
    + destruct (String.eqb value EmptyString) eqn:E.
      * apply String.eqb_eq in E as ->.
        eexists. split; [reflexivity|]. cbn. split; [|split].
        -- split; [done | by intros (? & [= <-] & ? & _)].
        -- split; [by right | done].
        -- split; [done | by intros (? & ? & _)].
      * apply String.eqb_neq in E.
        eexists. split; [reflexivity|]. cbn. split; [|split].
        -- split; [by exists value | done].
        -- split; [done | by intros [? | [= ?]]].
        -- split; [done | by intros (? & ? & _)].
    + eexists. split; [reflexivity|]. cbn. split; [|split].
      * split; [done | by intros (? & ? & _)].
      * split; [by left | done].
      * split; [done | by intros (? & ? & _)].
  - intros keyName. unfold get_secret_ssh_key. rewrite Hauth.
    unfold try_catch, bind.
    destruct (getSSHKey _ _ _ _ _ w) as [[e|[k|]] w']; eexists;
      (split; [reflexivity|]); cbn; rewrite !elem_of_cons; tauto.
  - unfold get_secret_list. rewrite Hauth. unfold try_catch, bind.
    destruct (listSecrets _ _ _ w) as [[e|secrets] w']; eexists;
      (split; [reflexivity|]); cbn; rewrite !elem_of_cons; tauto.
  - intros type key Htype. unfold delete_secret. rewrite Hauth, Htype.
    by eexists.
  - intros type key secretType Htype run. subst run.
    unfold delete_secret. rewrite Hauth, Htype. unfold try_catch, bind.
    destruct (deleteSecret _ _ _ _ _ _ w) as [[e|[|]] w']; cbn [fst snd];
      (eexists; split; [reflexivity|]); cbn;
      (split; [|split]); split; try done; try (by intros [? ?]); by eexists.
Qed.

End RouteFacts.

(* ===================================================================== *)
(** * The rest of the code on concrete inputs                             *)
(* ===================================================================== *)

#[local] Instance mock_random_length : RandomLength Mock.platform.
Proof. intros i n. cbn. unfold Mock.random_bytes. by rewrite length_map, length_seq. Qed.

Lemma mock_test_envelope_sealed :
  sealed Mock.platform Mock.engine "test-data" Mock.test_envelope.
Proof.
  exists (randomBytes Mock.platform 0 12).
  destruct (cipher Mock.platform algorithm (key _ Mock.engine)
              (randomBytes Mock.platform 0 12) (list_byte_of_string "test-data"))
    as [c t] eqn:Hc.
  exists c, t, 1700000001000. split; [done|].
  vm_compute in Hc. injection Hc as <- <-. vm_compute. reflexivity.
Qed.

(** X1 on the mock runtime. *)
Lemma verify_accepts_what_decrypt_returns_witness :
  exists E w1 w3,
    encrypt Mock.platform Mock.engine "test-data" None Mock.world0 = (inr E, w1) /\
    verify Mock.platform Mock.engine (JObj E) Mock.world0 = (inr true, w3).
Proof.
  apply (proj2 (@verify_accepts_what_decrypt_returns Mock.platform
                  MockFacts.cipher_correct Mock.engine)).
  exact I.
Defined.

(** X2 on the mock runtime: an expiry one second before the clock. *)
Lemma decrypt_after_expiry_witness :
  exists E w1,
    encrypt Mock.platform Mock.engine "expired-secret" (Some 1699999999000)
      Mock.world0 = (inr E, w1) /\
    obj_get E "expires_at" = Some (JStr "1699999999000") /\
    decrypt Mock.platform Mock.engine (JObj E) Mock.world0
    = (inl ExpiredError, set_calls 1 Mock.world0) /\
    verify Mock.platform Mock.engine (JObj E) Mock.world0
    = (inr false, set_calls 1 Mock.world0).
Proof.
  apply (@decrypt_after_expiry Mock.platform Mock.engine "expired-secret"
           1699999999000 Mock.world0 Mock.world0);
    [vm_compute; reflexivity | discriminate | vm_compute; reflexivity].
Defined.

(** X3 on the mock runtime: an envelope and the credential entry made
    of it. *)
Lemma decrypt_reads_only_cipher_fields_witness :
  decrypt Mock.platform Mock.engine
    (JObj (credential_entry "U" "openai_key" "api_key" "openai" Mock.test_envelope))
    Mock.world0
  = decrypt Mock.platform Mock.engine (JObj Mock.test_envelope) Mock.world0 /\
  verify Mock.platform Mock.engine
    (JObj (credential_entry "U" "openai_key" "api_key" "openai" Mock.test_envelope))
    Mock.world0
  = verify Mock.platform Mock.engine (JObj Mock.test_envelope) Mock.world0.
Proof.
  apply (@decrypt_reads_only_cipher_fields Mock.platform Mock.engine).
  intros k Hk. unfold cipher_fields in Hk. rewrite !elem_of_cons in Hk.
  destruct Hk as [-> | [-> | [-> | [-> | [-> | []%elem_of_nil]]]]]; reflexivity.
Defined.



(** X6 and X7 on the mock runtime. *)
Lemma generateKey_hex_witness :
  exists k,
    generateKey Mock.platform 16 Mock.world0 = (inr k, set_calls 1 Mock.world0) /\
    String.length k = 32%nat /\
    hex_decode k = randomBytes Mock.platform 0 16.
Proof. apply (@generateKey_hex Mock.platform mock_random_length 16 Mock.world0). Defined.

Lemma generateSecurePassword_alphabet_witness :
  exists p,
    generateSecurePassword Mock.platform 32 Mock.world0
    = (inr p, set_calls 1 Mock.world0) /\
    String.length p = 32%nat /\
    Forall (fun c => c ∈ list_ascii_of_string chars) (list_ascii_of_string p).
Proof.
  apply (@generateSecurePassword_alphabet Mock.platform mock_random_length 32
           Mock.world0).
Defined.

(** X8 on the mock runtime: the expired envelope. *)
Lemma isExpired_agrees_with_decrypt_witness :
  fst (decrypt Mock.platform Mock.engine (JObj Fixtures.expired_entry) Mock.world0)
  = inl ExpiredError <->
  fst (isExpired Mock.platform (Some "1600000000000") Mock.world0) = inr true.
Proof.
  apply (proj1 (proj2 (isExpired_agrees_with_decrypt Mock.platform Mock.engine
                         (Some "1600000000000") Mock.world0))).
  reflexivity.
Defined.

(** X9 on the mock runtime: a first row in an empty table. *)
Lemma insert_then_find_witness :
  exists w1,
    insert "secret_contexts" Mock.stored_context Mock.world0
    = (inr Mock.stored_context, w1) /\
    table w1 "secret_contexts" = [Mock.stored_context] /\
    fst (findById "secret_contexts" "ctx-1" w1) = inr (Some Mock.stored_context).
Proof.
  destruct (insert_then_find "secret_contexts" "ctx-1" Mock.stored_context Mock.world0)
    as (w1 & Hrun & Htable & _ & Hfind & _);
    [reflexivity | reflexivity | by intros row Hrow%elem_of_nil |].
  by exists w1.
Defined.

(** X10 on the mock runtime: a new [updated_at] for the stored context. *)
Lemma update_merges_one_row_witness :
  exists w1,
    update "secret_contexts" "ctx-1" [("updated_at", JStr "1700000009000")]
      Mock.world_with_context
    = (inr (merge_row Mock.stored_context [("updated_at", JStr "1700000009000")]), w1) /\
    length (table w1 "secret_contexts") = 1%nat.
Proof.
  assert (NoDup [("updated_at", JStr "1700000009000")].*1) as Hnd
    by (by apply (bool_decide_unpack _)).
  destruct (proj1 (update_merges_one_row "secret_contexts" "ctx-1"
                     [("updated_at", JStr "1700000009000")] Mock.world_with_context
                     eq_refl Hnd)
              Mock.stored_context eq_refl)
    as (w1 & Hrun & _ & Hlen & _).
  by exists w1.
Defined.

(** X11 on the mock runtime: the stored context deleted. *)
Lemma delete_then_findById_witness :
  exists w1,
    DatabaseClient.delete "secret_contexts" "ctx-1" Mock.world_with_context
    = (inr true, w1) /\
    fst (findById "secret_contexts" "ctx-1" w1) = inr None.
Proof.
  destruct (delete_then_findById "secret_contexts" "ctx-1" Mock.world_with_context
              eq_refl)
    as (w1 & Hrun & Hfind & _).
  by exists w1.
Defined.

(** X12 on the mock runtime: an insert while the store is down. *)
Lemma store_errors_surface_witness :
  fst (insert "secret_contexts" Mock.stored_context Fixtures.world_store_down)
  = inl (DatabaseError "Insert failed: connection refused") /\
  w_tables (snd (insert "secret_contexts" Mock.stored_context
                   Fixtures.world_store_down))
  = w_tables Fixtures.world_store_down.
Proof.
  apply (proj1 (store_errors_surface "secret_contexts" "connection refused"
                  Fixtures.world_store_down eq_refl)).
Defined.

(** X13 on the mock runtime: a context cached in the in-memory map. *)
Lemma cacheSet_then_cacheGet_witness :
  exists w1 w2,
    cacheSet Mock.platform "k" (JObj Mock.stored_context) (Some 300%nat) Mock.world0
    = (inr tt, w1) /\
    cacheGet Mock.platform "k" w1 = (inr (JObj Mock.stored_context), w2).
Proof.
  destruct (cacheSet_then_cacheGet Mock.platform "k" (JObj Mock.stored_context)
              (Some 300%nat) Mock.world0)
    as (w1 & w2 & Hset & Hget & _);
    [by left | vm_compute; reflexivity | discriminate |].
  by exists w1, w2.
Defined.

(** X14 on the mock runtime: the cache entry of a context, deleted. *)
Lemma cacheDelete_then_miss_witness :
  exists w1 w2,
    cacheDelete (context_key "W" "U")
      (snd (getSecretContext Mock.platform "W" "U" Fixtures.world)) = (inr tt, w1) /\
    cacheGet Mock.platform (context_key "W" "U") w1 = (inr JNull, w2).
Proof.
  destruct (cacheDelete_then_miss Mock.platform (context_key "W" "U")
              (snd (getSecretContext Mock.platform "W" "U" Fixtures.world)))
    as (w1 & w2 & Hdel & Hget & _).
  by exists w1, w2.
Defined.

(** X15 on the mock runtime. *)
Lemma generateCacheKey_separates_identities_witness :
  generateCacheKey "secret_context" ["W"; "U"]
  = generateCacheKey "secret_context" ["W"; "U"] /\
  "W" = "W" /\ "U" = "U".
Proof.
  split; [reflexivity|].
  apply (proj1 generateCacheKey_separates_identities "secret_context" "W" "U" "W" "U");
    reflexivity.
Defined.

(** X18 on the mock runtime: a store while the row store is down. *)
Lemma mutations_refused_while_store_is_down_witness :
  (exists e,
      fst (storeCredential Mock.platform Mock.engine "W" "U" "openai_key"
             "sk-test-123" "api_key" "openai" None Fixtures.world_store_down)
      = inl e) /\
  store_of (snd (storeCredential Mock.platform Mock.engine "W" "U" "openai_key"
                   "sk-test-123" "api_key" "openai" None Fixtures.world_store_down))
  = store_of Fixtures.world_store_down.
Proof.
  apply (proj1 (mutations_refused_while_store_is_down Mock.platform Mock.engine
                  "connection refused" Fixtures.world_store_down eq_refl)).
Defined.

(** X19 on the mock runtime: the stored context, looked up twice. *)
Lemma getSecretContext_reads_through_witness :
  exists w1,
    getSecretContext Mock.platform "W" "U" Fixtures.world
    = (inr (JObj Fixtures.context), w1) /\
    getSecretContext Mock.platform "W" "U" w1
    = (inr (JObj Fixtures.context),
       set_trace (w_trace w1 ++ [EvCacheGet (context_key "W" "U")]) w1).
Proof.
  destruct (getSecretContext_reads_through Mock.platform "W" "U" Fixtures.context []
              Fixtures.world)
    as (w1 & Hrun & _ & _ & Hhit);
    [by left | reflexivity | reflexivity | reflexivity | vm_compute; reflexivity
     | discriminate |].
  exists w1. split; [exact Hrun | by apply Hhit].
Defined.

Lemma fixture_context_loaded :
  getSecretContext Mock.platform "W" "U" Fixtures.world
  = (inr (JObj Fixtures.context),
     snd (getSecretContext Mock.platform "W" "U" Fixtures.world)).
Proof. apply run_inr. vm_compute. reflexivity. Qed.

(** X20 on the mock runtime: the valid credential of the stored
    context. *)
Lemma getCredential_returns_sealed_value_witness :
  exists w',
    getCredential Mock.platform Mock.engine "W" "U" "openai_key" Fixtures.world
    = (inr (Some "test-data"), w').
Proof.
  destruct (@getCredential_returns_sealed_value Mock.platform MockFacts.cipher_correct
              Mock.engine "W" "U" "openai_key" "test-data" Fixtures.context
              [("openai_key",
                JObj (obj_set (obj_set Mock.test_envelope "credential_type"
                                 (JStr "api_key")) "provider" (JStr "openai")));
               ("old_key", JObj Fixtures.expired_entry)]
              (obj_set (obj_set Mock.test_envelope "credential_type"
                          (JStr "api_key")) "provider" (JStr "openai"))
              Mock.test_envelope Fixtures.world _ fixture_context_loaded
              eq_refl eq_refl mock_test_envelope_sealed)
    as (auditLog & w' & Hrun & _).
  { intros k Hk. unfold cipher_fields in Hk. rewrite !elem_of_cons in Hk.
    destruct Hk as [-> | [-> | [-> | [-> | [-> | []%elem_of_nil]]]]]; reflexivity. }
  by exists w'.
Defined.

(** X21 on the mock runtime: the expired credential of the stored
    context. *)
Lemma getCredential_reports_failure_witness :
  exists auditLog w',
    getCredential Mock.platform Mock.engine "W" "U" "old_key" Fixtures.world
    = (inl (Exn "Error"
              "Failed to decrypt credential 'old_key': Error: Encrypted data has expired"),
       w') /\
    obj_get auditLog "status" = Some (JStr "failed") /\
    obj_get auditLog "error_message" = Some (JStr "Encrypted data has expired") /\
    table w' "audit_logs" = [auditLog].
Proof.
  destruct (getCredential_reports_failure Mock.platform Mock.engine "W" "U" "old_key"
              Fixtures.context
              [("openai_key",
                JObj (obj_set (obj_set Mock.test_envelope "credential_type"
                                 (JStr "api_key")) "provider" (JStr "openai")));
               ("old_key", JObj Fixtures.expired_entry)]
              (JObj Fixtures.expired_entry) ExpiredError Fixtures.world _
              (snd (decrypt Mock.platform Mock.engine (JObj Fixtures.expired_entry)
                      (snd (getSecretContext Mock.platform "W" "U" Fixtures.world))))
              fixture_context_loaded eq_refl eq_refl eq_refl)
    as (auditLog & w' & Hrun & _ & _ & _ & Hstatus & Herror & Htable).
  { vm_compute. reflexivity. }
  exists auditLog, w'. split; [exact Hrun|]. split; [exact Hstatus|].
  split; [exact Herror|]. by apply Htable.
Defined.



(** X24 on the mock runtime: the SSH key of the stored context. *)
Lemma getSSHKey_returns_sealed_key_witness :
  exists w',
    getSSHKey Mock.platform Mock.engine "W" "U" "deploy" Fixtures.world
    = (inr (Some {| privateKey := "test-data";
                    publicKey := Some (JStr "ssh-ed25519 AAAA");
                    fingerprint := Some (JStr "0123456789abcdef0123456789abcdef") |}),
       w').
Proof.
  destruct (@getSSHKey_returns_sealed_key Mock.platform MockFacts.cipher_correct
              Mock.engine "W" "U" "deploy" "test-data" Fixtures.context
              [("deploy", JObj Fixtures.ssh_entry)] Fixtures.ssh_entry
              Mock.test_envelope Fixtures.world _ fixture_context_loaded
              eq_refl eq_refl mock_test_envelope_sealed)
    as (auditLog & w' & Hrun & _).
  { intros k Hk. unfold cipher_fields in Hk. rewrite !elem_of_cons in Hk.
    destruct Hk as [-> | [-> | [-> | [-> | [-> | []%elem_of_nil]]]]]; reflexivity. }
  by exists w'.
Defined.

(** X25 on the mock runtime: the listing of the stored context. *)
Lemma listSecrets_lists_metadata_only_witness :
  exists secrets w1,
    listSecrets Mock.platform "W" "U" Fixtures.world = (inr secrets, w1) /\
    length (list_credentials secrets) = 2%nat /\
    length (list_ssh_keys secrets) = 1%nat /\
    list_certificates secrets = [].
Proof.
  destruct (listSecrets_lists_metadata_only Mock.platform "W" "U" Fixtures.context
              [("openai_key",
                JObj (obj_set (obj_set Mock.test_envelope "credential_type"
                                 (JStr "api_key")) "provider" (JStr "openai")));
               ("old_key", JObj Fixtures.expired_entry)]
              [("deploy", JObj Fixtures.ssh_entry)] [] Fixtures.world _
              fixture_context_loaded eq_refl eq_refl eq_refl)
    as (secrets & Hrun & H1 & H2 & H3).
  { repeat constructor; discriminate. }
  eexists secrets, _. split; [exact Hrun|].
  apply Forall2_length in H1, H2. apply Forall2_nil_inv_l in H3.
  by rewrite <- H1, <- H2.
Defined.


(** X27 on the mock runtime: a request without a user. *)
Lemma unauthenticated_requests_reach_nothing_witness :
  get_secret_credential Mock.platform Mock.engine None "openai_key" Fixtures.world
  = (inr unauthorized, Fixtures.world).
Proof.
  apply (proj1 (unauthenticated_requests_reach_nothing Mock.platform Mock.engine None
                  Fixtures.world (or_introl eq_refl))).
Defined.

(** X28 on the mock runtime: a [DELETE] with a type that is not a kind
    of secret. *)
Lemma secret_routes_always_answer_witness :
  exists r,
    delete_secret Mock.platform Mock.engine (Some Fixtures.user) "password" "k"
      Fixtures.world = (inr r, Fixtures.world) /\
    reply_code r = 400%nat.
Proof.
  apply (proj1 (proj2 (proj2 (proj2
           (secret_routes_always_answer Mock.platform Mock.engine Fixtures.user
              Fixtures.world eq_refl))))).
  reflexivity.
Defined.
